(** * SFTPClone: one-way reconciliation of a local tree onto an SFTP tree

    A shallow embedding of the reconciliation engine of [sftpclone.py]
    (class [SFTPClone], methods [_file_need_upload] .. [run]) and the
    properties of its two passes.

    Conventions.
    - Python 3 semantics: [IOError] is [OSError]; [FileNotFoundError] is an
      [OSError] whose [errno] is [ENOENT] (this is how paramiko's
      [IOError(errno.ENOENT, text)] is built).
    - [st_mode] is an integer; file types are read with [S_IFMT] as in the
      [stat] module.
    - A local [st_mtime] / [st_atime] is a Python float, taken here as a
      rational; [int] truncates toward zero.  Remote times are integers.
    - The remote side is any implementation of the paramiko calls the engine
      makes ([sftp_server]); every call issued is recorded in order.
    - Recursion depth is bounded by a fuel argument; running out of it
      raises [RecursionError], as the interpreter does.
    - A call on [self.sftp] that raises is recorded with what it raised,
      whether the server refused it or paramiko could not send it. *)

From Stdlib Require Import ZArith List Lia Bool Ascii.
From Stdlib Require String.
From Stdlib Require QArith.
From stdpp Require Import base option list gmap strings.

Local Open Scope Z_scope.

(** ** Strings and POSIX paths *)

Definition sep : ascii := "/"%char.

(** [s.startswith("/")] *)
Definition startswith_sep (s : string) : bool :=
  match s with
  | String c _ => Ascii.eqb c sep
  | EmptyString => false
  end.

(** [s.endswith("/")] *)
Fixpoint endswith_sep (s : string) : bool :=
  match s with
  | EmptyString => false
  | String c EmptyString => Ascii.eqb c sep
  | String _ s' => endswith_sep s'
  end.

(** [posixpath.join(a, b)]:
<<
    if b.startswith(sep):              path = b
    elif not path or path.endswith(sep): path += b
    else:                               path += sep + b
>> *)
Definition join (a b : string) : string :=
  if startswith_sep b then b
  else if String.eqb a "" || endswith_sep a then a +:+ b
  else a +:+ String sep b.

(** [posixpath.join(a, b, c)] folds the same step over its arguments. *)
Definition join3 (a b c : string) : string := join (join a b) c.

(** [os.path.commonprefix([a, b])]: the longest common leading substring,
    character by character. *)
Fixpoint commonprefix (a b : string) : string :=
  match a, b with
  | String x a', String y b' =>
      if Ascii.eqb x y then String x (commonprefix a' b') else EmptyString
  | _, _ => EmptyString
  end.

(** The slice [s[n:]]. *)
Fixpoint slice_from (n : nat) (s : string) : string :=
  match n, s with
  | O, _ => s
  | S n', String _ s' => slice_from n' s'
  | S _, EmptyString => EmptyString
  end.

(** ** File modes (module [stat]) *)

Definition S_IFMT (mode : Z) : Z := Z.land mode 61440.   (* 0o170000 *)
Definition S_IMODE (mode : Z) : Z := Z.land mode 4095.   (* 0o7777 *)
Definition S_IFDIR : Z := 16384.                         (* 0o040000 *)
Definition S_IFREG : Z := 32768.                         (* 0o100000 *)
Definition S_IFLNK : Z := 40960.                         (* 0o120000 *)
Definition S_IFIFO : Z := 4096.                          (* 0o010000 *)
Definition S_IFSOCK : Z := 49152.                        (* 0o140000 *)
Definition S_ISDIR (mode : Z) : bool := S_IFMT mode =? S_IFDIR.
Definition S_ISREG (mode : Z) : bool := S_IFMT mode =? S_IFREG.
Definition S_ISLNK (mode : Z) : bool := S_IFMT mode =? S_IFLNK.

(** [int(x)] on a float: truncation toward zero. *)
Definition int (x : QArith_base.Q) : Z :=
  Z.quot (QArith_base.Qnum x) (Z.pos (QArith_base.Qden x)).

(** [struct.pack(">I", n)] accepts [n]. *)
Definition packs_u32 (n : Z) : bool := (0 <=? n) && (n <? 4294967296).

(** Result of [os.lstat]. *)
Record stat_result := {
  st_mode : Z;
  st_size : Z;
  st_atime : QArith_base.Q;
  st_mtime : QArith_base.Q;
  st_uid : Z;
  st_gid : Z;
}.

(** [paramiko.SFTPAttributes]; [filename] is set by [listdir_attr] only. *)
Record SFTPAttributes := {
  filename : string;
  r_mode : Z;
  r_size : Z;
  r_atime : Z;
  r_mtime : Z;
  r_uid : Z;
  r_gid : Z;
}.

(** ** Exceptions *)

Definition ENOENT : Z := 2.
Definition EACCES : Z := 13.

Inductive exn :=
| OSError (errno : option Z)
| RecursionError
| Struct_error.   (* [struct.error], not an [OSError] *)

Definition is_FileNotFoundError (e : exn) : bool :=
  match e with
  | OSError (Some n) => n =? ENOENT
  | _ => false
  end.

Definition is_OSError (e : exn) : bool :=
  match e with OSError _ => true | _ => false end.

(** ** The local file system, as the [os] module shows it

    Only read during a run.  [os.path.lexists] is "[os.lstat] does not
    raise", as in [posixpath]. *)
Record local_fs := {
  os_lstat : string → option stat_result;
  os_listdir : string → option (list string);
  os_readlink : string → option string;
  os_realpath : string → string;
}.

Definition os_lexists (fs : local_fs) (p : string) : bool :=
  bool_decide (is_Some (os_lstat fs p)).

(** ** The remote side *)

(** Calls made on [self.sftp].  [Utime] carries the times as paramiko reads
    them, through [long()]. *)
Inductive call :=
| Listdir_attr (path : string)
| Lstat (path : string)
| Stat (path : string)
| Readlink (path : string)
| Mkdir (path : string)
| Rmdir (path : string)
| Remove (path : string)
| Symlink (source dest : string)
| Chmod (path : string) (mode : Z)
| Utime (path : string) (atime mtime : Z)
| Chown (path : string) (uid gid : Z)
| Put (localpath remotepath : string) (size : Z).

(** A call changes the remote store: this is what the spec counts as a
    deletion, a creation or an upload. *)
Definition is_deletion (c : call) : bool :=
  match c with Rmdir _ | Remove _ => true | _ => false end.
Definition is_creation (c : call) : bool :=
  match c with Mkdir _ | Symlink _ _ => true | _ => false end.
Definition is_upload (c : call) : bool :=
  match c with Put _ _ _ => true | _ => false end.
(** Any write at all, attribute updates included. *)
Definition is_write (c : call) : bool :=
  match c with
  | Listdir_attr _ | Lstat _ | Stat _ | Readlink _ => false
  | _ => true
  end.

(** What the remote file system answers.  Each operation either raises or
    returns, and may change the server's state. *)
Record sftp_server := {
  srv_state : Type;
  srv_listdir_attr : string → srv_state → (exn + list SFTPAttributes) * srv_state;
  srv_lstat : string → srv_state → (exn + SFTPAttributes) * srv_state;
  srv_stat : string → srv_state → (exn + SFTPAttributes) * srv_state;
  srv_readlink : string → srv_state → (exn + string) * srv_state;
  srv_mkdir : string → srv_state → (exn + unit) * srv_state;
  srv_rmdir : string → srv_state → (exn + unit) * srv_state;
  srv_remove : string → srv_state → (exn + unit) * srv_state;
  srv_symlink : string → string → srv_state → (exn + unit) * srv_state;
  srv_chmod : string → Z → srv_state → (exn + unit) * srv_state;
  srv_utime : string → Z → Z → srv_state → (exn + unit) * srv_state;
  srv_chown : string → Z → Z → srv_state → (exn + unit) * srv_state;
  srv_put : string → Z → srv_state → (exn + unit) * srv_state;
}.

(** Severity and subject of a [self.logger] record. *)
Inductive log_record :=
| Log_error (about : string)
| Log_warning (about : string)
| Log_info (about : string).

(** ** The engine's monad: remote state, call history, log, exceptions *)

Record world (S : Type) := World {
  remote : S;
  calls : list call;           (* every call issued, oldest first *)
  failed : list (call * exn);  (* the calls that raised, oldest first *)
  logged : list log_record;    (* oldest first *)
}.
Arguments World {S}.
Arguments remote {S}.
Arguments calls {S}.
Arguments failed {S}.
Arguments logged {S}.

Definition M (S A : Type) : Type := world S → (exn + A) * world S.

Definition ret {S A} (a : A) : M S A := λ w, (inr a, w).
Definition raise {S A} (e : exn) : M S A := λ w, (inl e, w).
Definition bind {S A B} (m : M S A) (k : A → M S B) : M S B :=
  λ w, match m w with
       | (inr a, w') => k a w'
       | (inl e, w') => (inl e, w')
       end.

Notation "'let*' x ':=' m 'in' k" := (bind m (λ x, k))
  (at level 10, x name, m at level 100, k at level 200).
Notation "m ;;; k" := (bind m (λ _, k))
  (at level 100, k at level 200, right associativity).

(** [try: body  except <class> as e: handler e]; [handles e] tells whether
    the clause matches. *)
Definition try_except {S A} (body : M S A) (handles : exn → bool)
    (handler : exn → M S A) : M S A :=
  λ w, match body w with
       | (inl e, w') => if handles e then handler e w' else (inl e, w')
       | r => r
       end.

(** [for x in xs: body x] *)
Fixpoint for_each {S A} (xs : list A) (body : A → M S unit) : M S unit :=
  match xs with
  | [] => ret tt
  | x :: xs' => body x ;;; for_each xs' body
  end.

(** Issue a call: record it, then let the server answer. *)
Definition issue {S A} (c : call) (op : S → (exn + A) * S) : M S A :=
  λ w, match op (remote w) with
       | (inr a, s') => (inr a, World s' (calls w ++ [c]) (failed w) (logged w))
       | (inl e, s') =>
           (inl e, World s' (calls w ++ [c]) (failed w ++ [(c, e)]) (logged w))
       end.

Definition logger {S} (r : log_record) : M S unit :=
  λ w, (inr tt, World (remote w) (calls w) (failed w) (logged w ++ [r])).

(** The calls issued between two worlds of one execution. *)
Definition calls_since {S} (w w' : world S) : list call :=
  drop (length (calls w)) (calls w').
Definition failed_since {S} (w w' : world S) : list (call * exn) :=
  drop (length (failed w)) (failed w').

(** ** The engine *)

Section Engine.
Context (srv : sftp_server).
Abbreviation St := (srv_state srv).

(** The fields of [self] that the passes read. *)
Record SFTPClone := {
  local_path : string;
  remote_path : string;
  exclude_list : gset string;
  chown : bool;
  fix_symlinks : bool;
  os : local_fs;
}.

Context (self : SFTPClone).

Definition sftp_listdir_attr (p : string) : M St (list SFTPAttributes) :=
  issue (Listdir_attr p) (srv_listdir_attr srv p).
Definition sftp_lstat (p : string) : M St SFTPAttributes :=
  issue (Lstat p) (srv_lstat srv p).
Definition sftp_stat (p : string) : M St SFTPAttributes :=
  issue (Stat p) (srv_stat srv p).
Definition sftp_readlink (p : string) : M St string :=
  issue (Readlink p) (srv_readlink srv p).
Definition sftp_mkdir (p : string) : M St unit :=
  issue (Mkdir p) (srv_mkdir srv p).
Definition sftp_rmdir (p : string) : M St unit :=
  issue (Rmdir p) (srv_rmdir srv p).
Definition sftp_remove (p : string) : M St unit :=
  issue (Remove p) (srv_remove srv p).
Definition sftp_symlink (source dest : string) : M St unit :=
  issue (Symlink source dest) (srv_symlink srv source dest).
Definition sftp_chmod (p : string) (mode : Z) : M St unit :=
  issue (Chmod p mode) (srv_chmod srv p mode).
(** paramiko packs each time of a [utime] with [struct.pack(">I", n)], as an
    unsigned integer of 32 bits: for a time below 0 or from 2^32 the call
    raises [struct.error] and nothing is sent. *)
Definition utime_request (p : string) (atime mtime : Z)
  : St → (exn + unit) * St :=
  λ s, if packs_u32 atime && packs_u32 mtime
       then srv_utime srv p atime mtime s
       else (inl Struct_error, s).
(** paramiko reads both times through [long()]. *)
Definition sftp_utime (p : string) (atime mtime : QArith_base.Q) : M St unit :=
  issue (Utime p (int atime) (int mtime))
    (utime_request p (int atime) (int mtime)).
Definition sftp_chown (p : string) (uid gid : Z) : M St unit :=
  issue (Chown p uid gid) (srv_chown srv p uid gid).
(** [put] opens the local file first; what reaches the server is its
    content, of which the model keeps the length. *)
Definition sftp_put (localpath remotepath : string) : M St unit :=
  match os_lstat (os self) localpath with
  | Some l_st =>
      issue (Put localpath remotepath (st_size l_st))
            (srv_put srv remotepath (st_size l_st))
  | None => raise (OSError (Some ENOENT))
  end.

(** [os.lstat(p)], raising when the path is missing. *)
Definition lstat_local (p : string) : M St stat_result :=
  match os_lstat (os self) p with
  | Some st => ret st
  | None => raise (OSError (Some ENOENT))
  end.

Definition _file_need_upload (l_st : stat_result) (r_st : SFTPAttributes) : bool :=
  if negb (st_size l_st =? r_size r_st) || negb (int (st_mtime l_st) =? r_mtime r_st)
  then true else false.

Definition _match_modes (remote_path : string) (l_st : stat_result) : M St unit :=
  sftp_chmod remote_path (S_IMODE (st_mode l_st)) ;;;
  sftp_utime remote_path (st_atime l_st) (st_mtime l_st) ;;;
  if chown self then sftp_chown remote_path (st_uid l_st) (st_gid l_st)
  else ret tt.

Definition file_upload (local_path remote_path : string) (l_st : stat_result)
  : M St unit :=
  sftp_put local_path remote_path ;;;
  _match_modes remote_path l_st.

Definition _must_be_deleted (local_path : string) (r_st : SFTPAttributes) : bool :=
  if negb (os_lexists (os self) local_path) then true
  else match os_lstat (os self) local_path with
       | Some l_st =>
           if negb (S_IFMT (r_mode r_st) =? S_IFMT (st_mode l_st)) then true
           else false
       | None => true (* unreachable: lexists has just succeeded *)
       end.

Fixpoint remote_delete (fuel : nat) (remote_path : string) (r_st : SFTPAttributes)
  : M St unit :=
  match fuel with
  | O => raise RecursionError
  | S fuel' =>
      if S_ISDIR (r_mode r_st) then
        let* items := sftp_listdir_attr remote_path in
        for_each items (λ item,
          let full_path := join remote_path (filename item) in
          remote_delete fuel' full_path item) ;;;
        sftp_rmdir remote_path
      else
        try_except (sftp_remove remote_path) is_FileNotFoundError
          (λ e, logger (Log_error remote_path))
  end.

Fixpoint check_for_deletion (fuel : nat) (relative_path : string) : M St unit :=
  match fuel with
  | O => raise RecursionError
  | S fuel' =>
      let rpath := join (remote_path self) relative_path in
      let lpath := join (local_path self) relative_path in
      let* listing := sftp_listdir_attr rpath in
      for_each listing (λ remote_st,
        let* r_lstat := sftp_lstat (join rpath (filename remote_st)) in
        let inner_remote_path := join rpath (filename remote_st) in
        let inner_local_path := join lpath (filename remote_st) in
        if S_ISLNK (r_mode r_lstat) then
          if _must_be_deleted inner_local_path r_lstat
          then remote_delete fuel' inner_remote_path r_lstat
          else ret tt
        else if _must_be_deleted inner_local_path remote_st then
          remote_delete fuel' inner_remote_path remote_st
        else if S_ISDIR (r_mode remote_st) then
          check_for_deletion fuel' (join relative_path (filename remote_st))
        else ret tt)
  end.

Definition create_update_symlink (link_destination remote_path : string)
  : M St unit :=
  try_except
    (try_except
       (let* remote_link := sftp_readlink remote_path in
        if negb (String.eqb link_destination remote_link) then
          sftp_remove remote_path ;;;
          sftp_symlink link_destination remote_path
        else ret tt)
       is_OSError
       (λ _, sftp_symlink link_destination remote_path))
    is_OSError
    (λ e, logger (Log_error remote_path)).

(** The body of [node_check_for_upload_create]; [recurse] stands for the
    call back into [check_for_upload_create]. *)
Definition node_body (recurse : string → M St unit)
    (relative_path f : string) : M St unit :=
  let lpath := join3 (local_path self) relative_path f in
  let* l_st := lstat_local lpath in
  if bool_decide (lpath ∈ exclude_list self) then
    logger (Log_info lpath)
  else
    let rpath := join3 (remote_path self) relative_path f in
    if S_ISDIR (st_mode l_st) then
      try_except (sftp_stat rpath ;;; ret tt) is_OSError
        (λ _, sftp_mkdir rpath) ;;;
      _match_modes rpath l_st ;;;
      recurse (join relative_path f)
    else if S_ISLNK (st_mode l_st) then
      match os_readlink (os self) lpath with
      | None => raise (OSError (Some ENOENT))
      | Some local_link =>
          let absolute_local_link := os_realpath (os self) local_link in
          let is_absolute := startswith_sep local_link in
          let trailing_local_path := join (local_path self) "" in
          let relpath :=
            String.eqb (commonprefix absolute_local_link trailing_local_path)
                       trailing_local_path in
          let relative_link :=
            if relpath
            then Some (slice_from (String.length trailing_local_path)
                                  absolute_local_link)
            else None in
          if is_absolute && relpath then
            if fix_symlinks self then
              create_update_symlink
                (join (remote_path self) (default "" relative_link)) rpath
            else ret tt
          else create_update_symlink local_link rpath
      end
    else if S_ISREG (st_mode l_st) then
      try_except
        (let* r_st := sftp_lstat rpath in
         if _file_need_upload l_st r_st
         then file_upload lpath rpath l_st
         else ret tt)
        is_OSError
        (λ e, if is_FileNotFoundError e
              then file_upload lpath rpath l_st
              else ret tt)
    else
      logger (Log_warning lpath).

(** [os.listdir] of the directory a relative path names. *)
Definition listdir_local (relative_path : string) : M St (list string) :=
  let dir := if negb (String.eqb relative_path "")
             then join (local_path self) relative_path
             else local_path self in
  match os_listdir (os self) dir with
  | Some names => ret names
  | None => raise (OSError (Some ENOENT))
  end.

Fixpoint check_for_upload_create (fuel : nat) (relative_path : string)
  : M St unit :=
  match fuel with
  | O => raise RecursionError
  | S fuel' =>
      let* names := listdir_local relative_path in
      for_each names (node_body (check_for_upload_create fuel') relative_path)
  end.

Definition node_check_for_upload_create (fuel : nat)
    (relative_path f : string) : M St unit :=
  node_body (check_for_upload_create fuel) relative_path f.

Definition run (fuel : nat) : M St unit :=
  check_for_deletion fuel "" ;;;
  check_for_upload_create fuel "".

End Engine.

(** ** A reference SFTP server

    Nodes are stored under their resolved path, a list of names from the
    root of the served namespace.  A request path is split at [/]; empty
    components are dropped.  The model has no entries named [.] or [..] and
    resolves no symbolic link in the middle of a path; [stat], [chmod],
    [utime], [chown] and [put] follow a link met as the last component,
    at most [MAXSYMLINKS] times.  Listings report every entry's own
    attributes, as [lstat] would, which is what [sftp-server] does.

    Error codes are the ones paramiko builds from the SFTP status: "no such
    file" gives [ENOENT], "permission denied" [EACCES], any other failure an
    [IOError] without [errno]. *)

Module Ref.

Record rnode := {
  n_mode : Z;
  n_size : Z;
  n_atime : Z;
  n_mtime : Z;
  n_uid : Z;
  n_gid : Z;
  n_link : string;   (* target, for a symbolic link *)
}.

Abbreviation fs :=
  (@gmap (list string) (@list_eq_dec string String.eq_dec)
     (@list_countable string String.eq_dec String.countable) rnode).

Definition is_sep (c : ascii) : bool := Ascii.eqb c sep.

Definition push (acc : string) (l : list string) : list string :=
  if String.eqb acc "" then l else acc :: l.

(** Split at separators; [acc] is the component being read. *)
Fixpoint components (acc : string) (s : string) : list string :=
  match s with
  | EmptyString => push acc []
  | String c s' =>
      if is_sep c then push acc (components "" s')
      else components (acc +:+ String c "") s'
  end.

Definition resolve (p : string) : list string := components "" p.

Definition attrs_of (name : string) (nd : rnode) : SFTPAttributes :=
  {| filename := name; r_mode := n_mode nd; r_size := n_size nd;
     r_atime := n_atime nd; r_mtime := n_mtime nd;
     r_uid := n_uid nd; r_gid := n_gid nd |}.

Fixpoint strip_prefix (k k' : list string) : option (list string) :=
  match k, k' with
  | [], _ => Some k'
  | x :: k, y :: k' => if bool_decide (x = y) then strip_prefix k k' else None
  | _ :: _, [] => None
  end.

(** The name under which [k'] is a directory entry of [k], if it is. *)
Definition child_name (k k' : list string) : option string :=
  match strip_prefix k k' with
  | Some [n] => Some n
  | _ => None
  end.

Definition children (s : fs) (k : list string) : list SFTPAttributes :=
  omap (λ '(k', nd), n ← child_name k k'; Some (attrs_of n nd)) (map_to_list s).

Definition is_dir_at (s : fs) (k : list string) : bool :=
  match s !! k with
  | Some nd => S_ISDIR (n_mode nd)
  | None => false
  end.

Definition parent (k : list string) : list string := removelast k.

Definition MAXSYMLINKS : nat := 40.

Definition target_key (base : list string) (t : string) : list string :=
  if startswith_sep t then resolve t else base ++ resolve t.

(** Follow links met at [k] itself. *)
Fixpoint follow (fuel : nat) (s : fs) (k : list string) : exn + list string :=
  match s !! k with
  | None => inl (OSError (Some ENOENT))
  | Some nd =>
      if S_ISLNK (n_mode nd) then
        match fuel with
        | O => inl (OSError None)
        | S fuel' => follow fuel' s (target_key (parent k) (n_link nd))
        end
      else inr k
  end.

Definition now : Z := 0.

Definition new_dir : rnode :=
  {| n_mode := Z.lor S_IFDIR 511; n_size := 0; n_atime := now; n_mtime := now;
     n_uid := 0; n_gid := 0; n_link := "" |}.
Definition new_link (source : string) : rnode :=
  {| n_mode := Z.lor S_IFLNK 511; n_size := Z.of_nat (String.length source);
     n_atime := now; n_mtime := now; n_uid := 0; n_gid := 0; n_link := source |}.
Definition new_file (size : Z) : rnode :=
  {| n_mode := Z.lor S_IFREG 420; n_size := size; n_atime := now; n_mtime := now;
     n_uid := 0; n_gid := 0; n_link := "" |}.

Definition set_mode (mode : Z) (nd : rnode) : rnode :=
  {| n_mode := Z.lor (S_IFMT (n_mode nd)) (S_IMODE mode); n_size := n_size nd;
     n_atime := n_atime nd; n_mtime := n_mtime nd;
     n_uid := n_uid nd; n_gid := n_gid nd; n_link := n_link nd |}.
Definition set_times (atime mtime : Z) (nd : rnode) : rnode :=
  {| n_mode := n_mode nd; n_size := n_size nd;
     n_atime := atime; n_mtime := mtime;
     n_uid := n_uid nd; n_gid := n_gid nd; n_link := n_link nd |}.
Definition set_owner (uid gid : Z) (nd : rnode) : rnode :=
  {| n_mode := n_mode nd; n_size := n_size nd;
     n_atime := n_atime nd; n_mtime := n_mtime nd;
     n_uid := uid; n_gid := gid; n_link := n_link nd |}.
Definition set_content (size : Z) (nd : rnode) : rnode :=
  {| n_mode := n_mode nd; n_size := size;
     n_atime := n_atime nd; n_mtime := now;
     n_uid := n_uid nd; n_gid := n_gid nd; n_link := n_link nd |}.

Definition listdir_attr (p : string) (s : fs) : (exn + list SFTPAttributes) * fs :=
  match s !! resolve p with
  | None => (inl (OSError (Some ENOENT)), s)
  | Some nd =>
      if S_ISDIR (n_mode nd) then (inr (children s (resolve p)), s)
      else (inl (OSError None), s)
  end.

Definition lstat (p : string) (s : fs) : (exn + SFTPAttributes) * fs :=
  match s !! resolve p with
  | None => (inl (OSError (Some ENOENT)), s)
  | Some nd => (inr (attrs_of "" nd), s)
  end.

Definition stat (p : string) (s : fs) : (exn + SFTPAttributes) * fs :=
  match follow MAXSYMLINKS s (resolve p) with
  | inl e => (inl e, s)
  | inr k =>
      match s !! k with
      | Some nd => (inr (attrs_of "" nd), s)
      | None => (inl (OSError (Some ENOENT)), s)
      end
  end.

Definition readlink (p : string) (s : fs) : (exn + string) * fs :=
  match s !! resolve p with
  | None => (inl (OSError (Some ENOENT)), s)
  | Some nd =>
      if S_ISLNK (n_mode nd) then (inr (n_link nd), s)
      else (inl (OSError None), s)
  end.

(** Create a node at a free path whose parent is a directory. *)
Definition create (k : list string) (nd : rnode) (s : fs) : (exn + unit) * fs :=
  match s !! k with
  | Some _ => (inl (OSError None), s)
  | None =>
      match k with
      | [] => (inl (OSError None), s)
      | _ :: _ =>
          if is_dir_at s (parent k) then (inr tt, <[k := nd]> s)
          else (inl (OSError (Some ENOENT)), s)
      end
  end.

Definition mkdir (p : string) (s : fs) : (exn + unit) * fs :=
  create (resolve p) new_dir s.

Definition symlink (source dest : string) (s : fs) : (exn + unit) * fs :=
  create (resolve dest) (new_link source) s.

Definition rmdir (p : string) (s : fs) : (exn + unit) * fs :=
  match s !! resolve p with
  | None => (inl (OSError (Some ENOENT)), s)
  | Some nd =>
      if S_ISDIR (n_mode nd) then
        match children s (resolve p) with
        | [] => (inr tt, delete (resolve p) s)
        | _ :: _ => (inl (OSError None), s)
        end
      else (inl (OSError None), s)
  end.

Definition remove (p : string) (s : fs) : (exn + unit) * fs :=
  match s !! resolve p with
  | None => (inl (OSError (Some ENOENT)), s)
  | Some nd =>
      if S_ISDIR (n_mode nd) then (inl (OSError None), s)
      else (inr tt, delete (resolve p) s)
  end.

(** Change the attributes of the node a path leads to. *)
Definition update (f : rnode → rnode) (p : string) (s : fs) : (exn + unit) * fs :=
  match follow MAXSYMLINKS s (resolve p) with
  | inl e => (inl e, s)
  | inr k => (inr tt, alter f k s)
  end.

Definition chmod (p : string) (mode : Z) : fs → (exn + unit) * fs :=
  update (set_mode mode) p.
Definition utime (p : string) (atime mtime : Z) : fs → (exn + unit) * fs :=
  update (set_times atime mtime) p.
Definition chown (p : string) (uid gid : Z) : fs → (exn + unit) * fs :=
  update (set_owner uid gid) p.

Definition put (p : string) (size : Z) (s : fs) : (exn + unit) * fs :=
  match s !! resolve p with
  | None => create (resolve p) (new_file size) s
  | Some _ =>
      match follow MAXSYMLINKS s (resolve p) with
      | inl e => (inl e, s)
      | inr k =>
          match s !! k with
          | Some nd =>
              if S_ISREG (n_mode nd) then (inr tt, <[k := set_content size nd]> s)
              else (inl (OSError None), s)
          | None => (inl (OSError (Some ENOENT)), s)
          end
      end
  end.

Definition server : sftp_server :=
  {| srv_state := fs;
     srv_listdir_attr := listdir_attr;
     srv_lstat := lstat;
     srv_stat := stat;
     srv_readlink := readlink;
     srv_mkdir := mkdir;
     srv_rmdir := rmdir;
     srv_remove := remove;
     srv_symlink := symlink;
     srv_chmod := chmod;
     srv_utime := utime;
     srv_chown := chown;
     srv_put := put |}.

End Ref.

(** ** Small concrete file systems, for examples *)

Module Sample.

(** A local node: its [lstat], its listing if a directory, its target if
    a link. *)
Record entry := {
  e_stat : stat_result;
  e_names : option (list string);
  e_target : option string;
}.

Fixpoint lookup (tbl : list (string * entry)) (p : string) : option entry :=
  match tbl with
  | [] => None
  | (q, e) :: tbl' => if String.eqb q p then Some e else lookup tbl' p
  end.

Definition local (tbl : list (string * entry)) (realpath : string → string)
  : local_fs :=
  {| os_lstat p := e_stat <$> lookup tbl p;
     os_listdir p := e ← lookup tbl p; e_names e;
     os_readlink p := e ← lookup tbl p; e_target e;
     os_realpath := realpath |}.

Definition Qz (z : Z) : QArith_base.Q := QArith_base.Qmake z 1.

Definition lstat_of (mode size : Z) (mtime : QArith_base.Q) : stat_result :=
  {| st_mode := mode; st_size := size; st_atime := mtime; st_mtime := mtime;
     st_uid := 1000; st_gid := 1000 |}.

Definition dir (names : list string) : entry :=
  {| e_stat := lstat_of (Z.lor S_IFDIR 493) 4096 (Qz 1000);
     e_names := Some names; e_target := None |}.
Definition file (size : Z) (mtime : QArith_base.Q) : entry :=
  {| e_stat := lstat_of (Z.lor S_IFREG 420) size mtime;
     e_names := None; e_target := None |}.
Definition link (target : string) : entry :=
  {| e_stat := lstat_of (Z.lor S_IFLNK 511) (Z.of_nat (String.length target)) (Qz 1000);
     e_names := None; e_target := Some target |}.
Definition special (fmt : Z) : entry :=
  {| e_stat := lstat_of (Z.lor fmt 420) 0 (Qz 1000);
     e_names := None; e_target := None |}.

Definition rnode_of (mode size mtime : Z) (target : string) : Ref.rnode :=
  {| Ref.n_mode := mode; Ref.n_size := size; Ref.n_atime := mtime;
     Ref.n_mtime := mtime; Ref.n_uid := 0; Ref.n_gid := 0;
     Ref.n_link := target |}.
Definition rdir : Ref.rnode := rnode_of (Z.lor S_IFDIR 493) 4096 1000 "".
Definition rfile (size mtime : Z) : Ref.rnode :=
  rnode_of (Z.lor S_IFREG 420) size mtime "".
Definition rlink (target : string) : Ref.rnode :=
  rnode_of (Z.lor S_IFLNK 511) 0 1000 target.
Definition rspecial (fmt : Z) : Ref.rnode := rnode_of (Z.lor fmt 420) 0 1000 "".

Definition start (s : Ref.fs) : world Ref.fs := World s [] [] [].

Definition engine (tbl : list (string * entry)) (realpath : string → string)
    (excluded : list string) (fix_links : bool) : SFTPClone :=
  {| local_path := "/a"; remote_path := "/r";
     exclude_list := list_to_set excluded;
     chown := false; fix_symlinks := fix_links;
     os := local tbl realpath |}.

End Sample.

(** ** A server that follows links

    The same store, served the way a POSIX file system is served through
    [os.stat]: a link met inside a path is resolved, and a listing reports
    every entry through [stat], that is with the attributes of the node a
    link leads to; a listing fails when one of its entries leads nowhere.
    [lstat], [readlink], [remove] and [rmdir] act on the node the path
    names, be it a link.  A link's target is resolved from the root when it
    is absolute, from the link's directory when it is not. *)

Module Following.

(** How many names and links one resolution goes through. *)
Definition steps : nat := 64.

(** Resolve the names [ns] from the directory [k], following the links met
    on the way, and the one the last name stands for when [last] is set. *)
Fixpoint walk (fuel : nat) (s : Ref.fs) (last : bool) (k ns : list string)
  : exn + list string :=
  match fuel with
  | O => inl (OSError None)
  | S fuel' =>
      match ns with
      | [] => inr k
      | n :: rest =>
          match s !! (k ++ [n]) with
          | None => inl (OSError (Some ENOENT))
          | Some nd =>
              if S_ISLNK (Ref.n_mode nd)
                 && (last || negb (bool_decide (rest = [])))
              then walk fuel' s last
                     (if startswith_sep (Ref.n_link nd) then [] else k)
                     (Ref.resolve (Ref.n_link nd) ++ rest)
              else walk fuel' s last (k ++ [n]) rest
          end
      end
  end.

Definition locate (last : bool) (p : string) (s : Ref.fs) : exn + list string :=
  walk steps s last [] (Ref.resolve p).

(** Where a node is to be made: its directory, resolved, and its name. *)
Definition locate_new (p : string) (s : Ref.fs) : exn + list string :=
  match Ref.resolve p with
  | [] => inl (OSError None)
  | n :: ns =>
      match walk steps s true [] (removelast (n :: ns)) with
      | inl e => inl e
      | inr k => inr (k ++ [List.last (n :: ns) n])
      end
  end.

Definition node_at (s : Ref.fs) (k : list string) : exn + Ref.rnode :=
  match s !! k with
  | Some nd => inr nd
  | None => inl (OSError (Some ENOENT))
  end.

(** [stat] of the entry [n] of the directory [k]. *)
Definition stat_entry (s : Ref.fs) (k : list string) (n : string)
  : exn + SFTPAttributes :=
  match walk steps s true k [n] with
  | inl e => inl e
  | inr k' =>
      match node_at s k' with
      | inl e => inl e
      | inr nd => inr (Ref.attrs_of n nd)
      end
  end.

Fixpoint stat_all (s : Ref.fs) (k : list string) (ns : list string)
  : exn + list SFTPAttributes :=
  match ns with
  | [] => inr []
  | n :: ns' =>
      match stat_entry s k n with
      | inl e => inl e
      | inr a =>
          match stat_all s k ns' with
          | inl e => inl e
          | inr l => inr (a :: l)
          end
      end
  end.

Definition listdir_attr (p : string) (s : Ref.fs)
  : (exn + list SFTPAttributes) * Ref.fs :=
  match locate true p s with
  | inl e => (inl e, s)
  | inr k =>
      if Ref.is_dir_at s k
      then (stat_all s k (filename <$> Ref.children s k), s)
      else (inl (OSError None), s)
  end.

Definition attrs_at (last : bool) (p : string) (s : Ref.fs)
  : (exn + SFTPAttributes) * Ref.fs :=
  match locate last p s with
  | inl e => (inl e, s)
  | inr k =>
      match node_at s k with
      | inl e => (inl e, s)
      | inr nd => (inr (Ref.attrs_of "" nd), s)
      end
  end.

Definition lstat : string → Ref.fs → (exn + SFTPAttributes) * Ref.fs :=
  attrs_at false.
Definition stat : string → Ref.fs → (exn + SFTPAttributes) * Ref.fs :=
  attrs_at true.

Definition readlink (p : string) (s : Ref.fs) : (exn + string) * Ref.fs :=
  match locate false p s with
  | inl e => (inl e, s)
  | inr k =>
      match node_at s k with
      | inl e => (inl e, s)
      | inr nd =>
          if S_ISLNK (Ref.n_mode nd) then (inr (Ref.n_link nd), s)
          else (inl (OSError None), s)
      end
  end.

Definition make (p : string) (nd : Ref.rnode) (s : Ref.fs) : (exn + unit) * Ref.fs :=
  match locate_new p s with
  | inl e => (inl e, s)
  | inr k => Ref.create k nd s
  end.

Definition mkdir (p : string) : Ref.fs → (exn + unit) * Ref.fs :=
  make p Ref.new_dir.
Definition symlink (source dest : string) : Ref.fs → (exn + unit) * Ref.fs :=
  make dest (Ref.new_link source).

(** [rmdir] of a link fails: the link is no directory. *)
Definition rmdir (p : string) (s : Ref.fs) : (exn + unit) * Ref.fs :=
  match locate false p s with
  | inl e => (inl e, s)
  | inr k =>
      if Ref.is_dir_at s k then
        match Ref.children s k with
        | [] => (inr tt, delete k s)
        | _ :: _ => (inl (OSError None), s)
        end
      else (inl (OSError None), s)
  end.

(** [remove] unlinks the node itself, be it a link. *)
Definition remove (p : string) (s : Ref.fs) : (exn + unit) * Ref.fs :=
  match locate false p s with
  | inl e => (inl e, s)
  | inr k =>
      match node_at s k with
      | inl e => (inl e, s)
      | inr nd =>
          if S_ISDIR (Ref.n_mode nd) then (inl (OSError None), s)
          else (inr tt, delete k s)
      end
  end.

Definition update (f : Ref.rnode → Ref.rnode) (p : string) (s : Ref.fs)
  : (exn + unit) * Ref.fs :=
  match locate true p s with
  | inl e => (inl e, s)
  | inr k => (inr tt, alter f k s)
  end.

Definition put (p : string) (size : Z) (s : Ref.fs) : (exn + unit) * Ref.fs :=
  match locate true p s with
  | inr k =>
      match node_at s k with
      | inl e => (inl e, s)
      | inr nd =>
          if S_ISREG (Ref.n_mode nd)
          then (inr tt, <[k := Ref.set_content size nd]> s)
          else (inl (OSError None), s)
      end
  | inl _ => make p (Ref.new_file size) s
  end.

Definition server : sftp_server :=
  {| srv_state := Ref.fs;
     srv_listdir_attr := listdir_attr;
     srv_lstat := lstat;
     srv_stat := stat;
     srv_readlink := readlink;
     srv_mkdir := mkdir;
     srv_rmdir := rmdir;
     srv_remove := remove;
     srv_symlink := symlink;
     srv_chmod p mode := update (Ref.set_mode mode) p;
     srv_utime p atime mtime := update (Ref.set_times atime mtime) p;
     srv_chown p uid gid := update (Ref.set_owner uid gid) p;
     srv_put := put |}.

End Following.

(** * Properties *)

#[local] Arguments String.append !_ _ / : simpl nomatch.

(** ** Strings *)

Lemma commonprefix_is_prefix (a b : string) :
  String.eqb (commonprefix a b) b = String.prefix b a.
Proof.
  revert a. induction b as [|y b IH]; intros [|x a]; simpl; try reflexivity.
  destruct (Ascii.eqb x y) eqn:E.
  - apply Ascii.eqb_eq in E. subst y.
    change (Ascii.eqb x x && String.eqb (commonprefix a b) b
            = if ascii_dec x x then String.prefix b a else false).
    rewrite Ascii.eqb_refl. simpl.
    destruct (ascii_dec x x); [apply IH | congruence].
  - destruct (ascii_dec y x) as [->|_]; [|reflexivity].
    by rewrite Ascii.eqb_refl in E.
Qed.

Lemma prefix_append (b rest : string) : String.prefix b (b +:+ rest) = true.
Proof.
  induction b as [|y b IH]; simpl; [by destruct rest|].
  destruct (ascii_dec y y); [done | congruence].
Qed.

Lemma slice_from_append (b rest : string) :
  slice_from (String.length b) (b +:+ rest) = rest.
Proof. induction b; simpl; auto. Qed.

Lemma prefix_inv (b a : string) :
  String.prefix b a = true → a = b +:+ slice_from (String.length b) a.
Proof.
  revert a. induction b as [|y b IH]; intros [|x a] H; simpl in *; try done.
  destruct (ascii_dec y x) as [->|]; [|done].
  change (String x a = String x (b +:+ slice_from (String.length b) a)).
  f_equal. by apply IH.
Qed.

(** ** File types *)

Lemma S_ISLNK_not_dir mode : S_ISLNK mode = true → S_ISDIR mode = false.
Proof. unfold S_ISLNK, S_ISDIR. intros H%Z.eqb_eq. by rewrite H. Qed.

Lemma S_ISREG_not_dir mode : S_ISREG mode = true → S_ISDIR mode = false.
Proof. unfold S_ISREG, S_ISDIR. intros H%Z.eqb_eq. by rewrite H. Qed.

Lemma S_ISREG_not_lnk mode : S_ISREG mode = true → S_ISLNK mode = false.
Proof. unfold S_ISREG, S_ISLNK. intros H%Z.eqb_eq. by rewrite H. Qed.

Lemma S_ISDIR_not_lnk mode : S_ISDIR mode = true → S_ISLNK mode = false.
Proof. unfold S_ISLNK, S_ISDIR. intros H%Z.eqb_eq. by rewrite H. Qed.

Lemma file_need_upload_spec l_st r_st :
  _file_need_upload l_st r_st = true ↔
  st_size l_st ≠ r_size r_st ∨ int (st_mtime l_st) ≠ r_mtime r_st.
Proof.
  unfold _file_need_upload.
  destruct (Z.eqb_spec (st_size l_st) (r_size r_st));
    destruct (Z.eqb_spec (int (st_mtime l_st)) (r_mtime r_st)); simpl;
    intuition congruence.
Qed.

(** ** The call history only grows *)

Section History.
Context {S : Type}.

(** [m] appends to the history, whatever it returns. *)
Definition grows {A} (m : M S A) : Prop :=
  ∀ w, ∃ tr, calls (m w).2 = calls w ++ tr.

(** [m] appends to the history, and [c] first. *)
Definition starts_with {A} (c : call) (m : M S A) : Prop :=
  ∀ w, ∃ tr, calls (m w).2 = calls w ++ c :: tr.

Lemma grows_ret {A} (a : A) : grows (ret a).
Proof. intros w. exists []. by rewrite app_nil_r. Qed.

Lemma grows_raise {A} e : grows (@raise S A e).
Proof. intros w. exists []. by rewrite app_nil_r. Qed.

Lemma grows_logger r : grows (@logger S r).
Proof. intros w. exists []. simpl. by rewrite app_nil_r. Qed.

Lemma starts_with_issue {A} c (op : S → (exn + A) * S) : starts_with c (issue c op).
Proof.
  intros w. exists []. unfold issue.
  by destruct (op (remote w)) as [[e|a] s].
Qed.

Lemma starts_with_grows {A} c (m : M S A) : starts_with c m → grows m.
Proof. intros H w. destruct (H w) as [tr ->]. eauto. Qed.

Lemma grows_issue {A} c (op : S → (exn + A) * S) : grows (issue c op).
Proof. eapply starts_with_grows, starts_with_issue. Qed.

Lemma grows_bind {A B} (m : M S A) (k : A → M S B) :
  grows m → (∀ a, grows (k a)) → grows (bind m k).
Proof.
  intros Hm Hk w. unfold bind.
  destruct (Hm w) as [tr1 E1].
  destruct (m w) as [[e|a] w1]; simpl in *; [eauto|].
  destruct (Hk a w1) as [tr2 E2]. rewrite E2, E1, <- app_assoc. eauto.
Qed.

Lemma starts_with_bind {A B} c (m : M S A) (k : A → M S B) :
  starts_with c m → (∀ a, grows (k a)) → starts_with c (bind m k).
Proof.
  intros Hm Hk w. unfold bind.
  destruct (Hm w) as [tr1 E1].
  destruct (m w) as [[e|a] w1]; simpl in *; [eauto|].
  destruct (Hk a w1) as [tr2 E2]. rewrite E2, E1, <- app_assoc. simpl. eauto.
Qed.

Lemma grows_try {A} (m : M S A) handles (h : exn → M S A) :
  grows m → (∀ e, grows (h e)) → grows (try_except m handles h).
Proof.
  intros Hm Hh w. unfold try_except.
  destruct (Hm w) as [tr1 E1].
  destruct (m w) as [[e|a] w1]; simpl in *; [|eauto].
  destruct (handles e); simpl; [|eauto].
  destruct (Hh e w1) as [tr2 E2]. rewrite E2, E1, <- app_assoc. eauto.
Qed.

Lemma starts_with_try {A} c (m : M S A) handles (h : exn → M S A) :
  starts_with c m → (∀ e, grows (h e)) → starts_with c (try_except m handles h).
Proof.
  intros Hm Hh w. unfold try_except.
  destruct (Hm w) as [tr1 E1].
  destruct (m w) as [[e|a] w1]; simpl in *; [|eauto].
  destruct (handles e); simpl; [|eauto].
  destruct (Hh e w1) as [tr2 E2]. rewrite E2, E1, <- app_assoc. simpl. eauto.
Qed.

Lemma grows_for_each {A} (xs : list A) (body : A → M S unit) :
  (∀ x, grows (body x)) → grows (for_each xs body).
Proof.
  intros Hb. induction xs as [|x xs IH]; simpl.
  - apply grows_ret.
  - apply grows_bind; auto.
Qed.

Lemma calls_since_app (w w' : world S) tr :
  calls w' = calls w ++ tr → calls_since w w' = tr.
Proof. intros E. unfold calls_since. by rewrite E, drop_app_length. Qed.

Lemma calls_since_trans (w w1 w2 : world S) tr1 tr2 :
  calls w1 = calls w ++ tr1 → calls w2 = calls w1 ++ tr2 →
  calls_since w w2 = tr1 ++ tr2.
Proof.
  intros E1 E2. apply calls_since_app. by rewrite E2, E1, app_assoc.
Qed.
End History.

Section EngineFacts.
Context (srv : sftp_server) (self : SFTPClone).

Lemma grows_match_modes p l_st : grows (_match_modes srv self p l_st).
Proof.
  unfold _match_modes.
  repeat (apply grows_bind; [apply grows_issue | intros _]).
  destruct (chown self); [apply grows_issue | apply grows_ret].
Qed.

Lemma starts_with_file_upload lp rp l_st :
  os_lstat (os self) lp = Some l_st →
  starts_with (Put lp rp (st_size l_st)) (file_upload srv self lp rp l_st).
Proof.
  intros E. unfold file_upload, sftp_put. rewrite E.
  apply starts_with_bind; [apply starts_with_issue|].
  intros _. apply grows_match_modes.
Qed.

Lemma grows_create_update_symlink x p : grows (create_update_symlink srv x p).
Proof.
  unfold create_update_symlink.
  apply grows_try; [|intros; apply grows_logger].
  apply grows_try; [|intros; apply grows_issue].
  apply grows_bind; [apply grows_issue|]. intros y.
  destruct (negb _); [|apply grows_ret].
  apply grows_bind; [apply grows_issue|]. intros _. apply grows_issue.
Qed.

End EngineFacts.

(** Reduce [calls_since w w'] once the history of [w'] is explicit. *)
Ltac trace_norm :=
  unfold calls_since, failed_since; simpl;
  rewrite <- ?app_assoc; simpl;
  rewrite ?drop_app_length; simpl.

(** Case analysis on the next server answer or handler test in the goal. *)
Ltac run_step :=
  match goal with
  | |- context [srv_listdir_attr ?s ?p ?st] =>
      destruct (srv_listdir_attr s p st) as [[?|?] ?] eqn:?
  | |- context [srv_lstat ?s ?p ?st] =>
      destruct (srv_lstat s p st) as [[?|?] ?] eqn:?
  | |- context [srv_stat ?s ?p ?st] =>
      destruct (srv_stat s p st) as [[?|?] ?] eqn:?
  | |- context [srv_readlink ?s ?p ?st] =>
      destruct (srv_readlink s p st) as [[?|?] ?] eqn:?
  | |- context [srv_mkdir ?s ?p ?st] =>
      destruct (srv_mkdir s p st) as [[?|[]] ?] eqn:?
  | |- context [srv_rmdir ?s ?p ?st] =>
      destruct (srv_rmdir s p st) as [[?|[]] ?] eqn:?
  | |- context [srv_remove ?s ?p ?st] =>
      destruct (srv_remove s p st) as [[?|[]] ?] eqn:?
  | |- context [srv_symlink ?s ?x ?p ?st] =>
      destruct (srv_symlink s x p st) as [[?|[]] ?] eqn:?
  | |- context [srv_chmod ?s ?p ?m ?st] =>
      destruct (srv_chmod s p m st) as [[?|[]] ?] eqn:?
  | |- context [utime_request ?s ?p ?a ?m ?st] =>
      destruct (utime_request s p a m st) as [[?|[]] ?] eqn:?
  | |- context [srv_chown ?s ?p ?u ?g ?st] =>
      destruct (srv_chown s p u g st) as [[?|[]] ?] eqn:?
  | |- context [srv_put ?s ?p ?n ?st] =>
      destruct (srv_put s p n st) as [[?|[]] ?] eqn:?
  | |- context [is_OSError ?e] => destruct (is_OSError e) eqn:?
  | |- context [is_FileNotFoundError ?e] => destruct (is_FileNotFoundError e) eqn:?
  | |- context [String.eqb ?a ?b] => destruct (String.eqb_spec a b)
  end.

(** Reduce projections of explicit worlds and answers. *)
Ltac world_red :=
  cbv beta iota delta [negb fst snd remote calls failed logged ret is_OSError
                       is_FileNotFoundError].

(** ** The creation pass, node by node *)

Section CreationNode.
Context (srv : sftp_server) (self : SFTPClone).
Context (fuel : nat) (relative_path f : string).

Let lpath := join3 (local_path self) relative_path f.
Let rpath := join3 (remote_path self) relative_path f.

(** An excluded node: a log line, nothing else. *)
Lemma node_excluded l_st (w : world (srv_state srv)) :
  os_lstat (os self) lpath = Some l_st →
  lpath ∈ exclude_list self →
  node_check_for_upload_create srv self fuel relative_path f w
  = (inr tt, World (remote w) (calls w) (failed w) (logged w ++ [Log_info lpath])).
Proof.
  intros E Hin.
  unfold node_check_for_upload_create, node_body, bind, lstat_local.
  fold lpath. rewrite E. simpl. by rewrite bool_decide_eq_true_2.
Qed.

(** What the node function does with a link that is not excluded. *)
Lemma node_symlink l_st local_link (w : world (srv_state srv)) :
  os_lstat (os self) lpath = Some l_st →
  lpath ∉ exclude_list self →
  S_ISLNK (st_mode l_st) = true →
  os_readlink (os self) lpath = Some local_link →
  node_check_for_upload_create srv self fuel relative_path f w
  = (if startswith_sep local_link
        && String.prefix (join (local_path self) "")
                         (os_realpath (os self) local_link)
     then if fix_symlinks self
          then create_update_symlink srv
                 (join (remote_path self)
                    (slice_from (String.length (join (local_path self) ""))
                                (os_realpath (os self) local_link)))
                 rpath
          else ret tt
     else create_update_symlink srv local_link rpath) w.
Proof.
  intros E Hex Hl Hr.
  unfold node_check_for_upload_create, node_body, bind, lstat_local.
  fold lpath rpath. rewrite E. simpl.
  rewrite bool_decide_eq_false_2 by done.
  rewrite (S_ISLNK_not_dir _ Hl), Hl, Hr.
  rewrite commonprefix_is_prefix.
  destruct (startswith_sep local_link); simpl; [|done].
  destruct (String.prefix _ _); simpl; done.
Qed.

(** Every [symlink] request of [create_update_symlink x p] asks for a link
    at [p] pointing to [x]. *)
Lemma create_update_symlink_target x p (w : world (srv_state srv)) c :
  c ∈ calls_since w (create_update_symlink srv x p w).2 →
  is_creation c = true → c = Symlink x p.
Proof.
  unfold create_update_symlink, try_except, bind, sftp_readlink, sftp_remove,
    sftp_symlink, issue, logger, ret.
  repeat (run_step; simpl); trace_norm; intros Hin Hc;
    repeat (apply elem_of_cons in Hin as [->|Hin]; try done);
    by apply elem_of_nil in Hin.
Qed.

(** With no link in place yet, or another one, the request is made. *)
Lemma create_update_symlink_requests x p (w : world (srv_state srv)) :
  match srv_readlink srv p (remote w) with
  | (inl e, _) => is_OSError e = true
  | (inr y, s) => x ≠ y ∧ ∃ s', srv_remove srv p s = (inr tt, s')
  end →
  Symlink x p ∈ calls_since w (create_update_symlink srv x p w).2.
Proof.
  unfold create_update_symlink, try_except, bind, sftp_readlink, sftp_remove,
    sftp_symlink, issue, logger, ret.
  destruct (srv_readlink srv p (remote w)) as [[e|y] s1]; simpl.
  - intros ->. repeat (run_step; simpl); trace_norm; set_solver.
  - intros [Hne [s' Hrm]].
    destruct (String.eqb_spec x y) as [->|_]; [done|]. simpl. rewrite Hrm.
    repeat (run_step; simpl); trace_norm; set_solver.
Qed.

End CreationNode.

(** A regular file that is not excluded: one [lstat], then an upload when
    the node is missing or stale. *)
Lemma node_regular srv self fuel relative_path f l_st (w : world (srv_state srv)) :
  let lpath := join3 (local_path self) relative_path f in
  let rpath := join3 (remote_path self) relative_path f in
  os_lstat (os self) lpath = Some l_st →
  lpath ∉ exclude_list self →
  S_ISREG (st_mode l_st) = true →
  node_check_for_upload_create srv self fuel relative_path f w
  = try_except
      (let* r_st := sftp_lstat srv rpath in
       if _file_need_upload l_st r_st
       then file_upload srv self lpath rpath l_st
       else ret tt)
      is_OSError
      (λ e, if is_FileNotFoundError e
            then file_upload srv self lpath rpath l_st
            else ret tt) w.
Proof.
  intros lpath rpath E Hex Hreg.
  unfold node_check_for_upload_create, node_body, bind at 1, lstat_local.
  fold lpath rpath. rewrite E. simpl.
  rewrite bool_decide_eq_false_2 by done.
  by rewrite (S_ISREG_not_dir _ Hreg), (S_ISREG_not_lnk _ Hreg), Hreg.
Qed.

#[local] Arguments file_upload : simpl never.
#[local] Arguments create_update_symlink : simpl never.
#[local] Arguments _match_modes : simpl never.

(** The only upload [file_upload] can request is the file's own. *)
Lemma file_upload_calls srv self lp rp l_st (w : world (srv_state srv)) :
  os_lstat (os self) lp = Some l_st →
  ∃ tr, calls (file_upload srv self lp rp l_st w).2
        = calls w ++ Put lp rp (st_size l_st) :: tr
        ∧ Forall (λ c, is_upload c = false) tr.
Proof.
  intros E.
  unfold file_upload, sftp_put, _match_modes, bind, sftp_chmod, sftp_utime,
    sftp_chown, issue, ret.
  rewrite E.
  repeat (run_step; simpl); try destruct (chown self); simpl;
    repeat (run_step; simpl);
    rewrite <- ?app_assoc; simpl; eexists; (split; [reflexivity|]);
    repeat constructor.
Qed.

Lemma existsb_upload_app tr1 tr2 :
  existsb is_upload (tr1 ++ tr2) = existsb is_upload tr1 || existsb is_upload tr2.
Proof. apply existsb_app. Qed.

Lemma existsb_upload_none tr :
  Forall (λ c, is_upload c = false) tr → existsb is_upload tr = false.
Proof. induction 1 as [|c tr Hc _ IH]; simpl; [done|]. by rewrite Hc, IH. Qed.

Lemma uploads_of_app (P : call → Prop) tr1 tr2 :
  (∀ c, c ∈ tr1 → is_upload c = true → P c) →
  (∀ c, c ∈ tr2 → is_upload c = true → P c) →
  ∀ c, c ∈ tr1 ++ tr2 → is_upload c = true → P c.
Proof. intros H1 H2 c [?|?]%elem_of_app; auto. Qed.

Lemma uploads_of_put (P : call → Prop) c0 tr :
  (is_upload c0 = true → P c0) →
  Forall (λ c, is_upload c = false) tr →
  ∀ c, c ∈ c0 :: tr → is_upload c = true → P c.
Proof.
  intros H0 Htr c [->|Hin]%elem_of_cons Hc; [auto|].
  rewrite Forall_forall in Htr. apply Htr in Hin. congruence.
Qed.

(** C2.  A local regular file met by the creation pass is uploaded when the
    remote [lstat] says "not found"; when the remote node exists it is
    uploaded exactly when the sizes differ or the local modification time,
    truncated to whole seconds, differs from the remote one.  No other
    upload is requested for the node. *)
Theorem regular_file_upload_decision
    srv self fuel relative_path f l_st (w : world (srv_state srv)) :
  let lpath := join3 (local_path self) relative_path f in
  let rpath := join3 (remote_path self) relative_path f in
  let w' := (node_check_for_upload_create srv self fuel relative_path f w).2 in
  os_lstat (os self) lpath = Some l_st →
  lpath ∉ exclude_list self →
  S_ISREG (st_mode l_st) = true →
  (∀ c, c ∈ calls_since w w' → is_upload c = true →
        c = Put lpath rpath (st_size l_st)) ∧
  match srv_lstat srv rpath (remote w) with
  | (inl e, _) =>
      is_FileNotFoundError e = true →
      existsb is_upload (calls_since w w') = true
  | (inr r_st, _) =>
      existsb is_upload (calls_since w w') = true ↔
      (st_size l_st ≠ r_size r_st ∨ int (st_mtime l_st) ≠ r_mtime r_st)
  end.
Proof.
  intros lpath rpath w' E Hex Hreg. subst w'.
  rewrite (node_regular srv self fuel relative_path f l_st w E Hex Hreg).
  fold lpath rpath.
  unfold try_except, bind, sftp_lstat, issue, ret.
  destruct (srv_lstat srv rpath (remote w)) as [[e|r_st] s1] eqn:El; simpl.
  - (* the probe raised *)
    destruct (is_OSError e) eqn:Hos; simpl.
    + destruct (is_FileNotFoundError e) eqn:Hnf; simpl.
      * match goal with |- context [file_upload _ _ _ _ _ ?w1] =>
          destruct (file_upload_calls srv self lpath rpath l_st w1 E)
            as (tr & Etr & Htr) end.
        erewrite calls_since_app by (rewrite Etr; simpl; rewrite <- app_assoc; done).
        split.
        -- apply (uploads_of_app _ [_]); [intros c ->%list_elem_of_singleton; done|].
           apply uploads_of_put; auto.
        -- intros _. simpl. done.
      * erewrite calls_since_app by (simpl; done).
        split; [|done].
        intros c ->%list_elem_of_singleton; done.
    + erewrite calls_since_app by (simpl; done).
      split; [intros c ->%list_elem_of_singleton; done|].
      destruct e; simpl in *; done.
  - (* the remote node exists *)
    rewrite <- file_need_upload_spec.
    destruct (_file_need_upload l_st r_st) eqn:Hneed; simpl.
    + match goal with |- context [file_upload _ _ _ _ _ ?w1] =>
        destruct (file_upload_calls srv self lpath rpath l_st w1 E)
          as (tr & Etr & Htr);
        destruct (file_upload srv self lpath rpath l_st w1) as [[e2|[]] w2] eqn:Eu
      end; simpl in *.
      * (* the upload raised: the handler looks at the error *)
        destruct (is_OSError e2); simpl;
          [destruct (is_FileNotFoundError e2); simpl|].
        -- destruct (file_upload_calls srv self lpath rpath l_st w2 E)
             as (tr2 & Etr2 & Htr2).
           erewrite calls_since_app
             by (rewrite Etr2, Etr; simpl; rewrite <- !app_assoc; done).
           split; [|done].
           apply (uploads_of_app _ [_]); [intros c ->%list_elem_of_singleton; done|].
           change (Put lpath rpath (st_size l_st) :: tr
                   ++ Put lpath rpath (st_size l_st) :: tr2)
             with ((Put lpath rpath (st_size l_st) :: tr)
                   ++ Put lpath rpath (st_size l_st) :: tr2).
           apply uploads_of_app; apply uploads_of_put; auto.
        -- erewrite calls_since_app by (rewrite Etr; simpl; rewrite <- !app_assoc; done).
           split; [|done].
           apply (uploads_of_app _ [_]); [intros c ->%list_elem_of_singleton; done|].
           apply uploads_of_put; auto.
        -- erewrite calls_since_app by (rewrite Etr; simpl; rewrite <- !app_assoc; done).
           split; [|done].
           apply (uploads_of_app _ [_]); [intros c ->%list_elem_of_singleton; done|].
           apply uploads_of_put; auto.
      * erewrite calls_since_app by (rewrite Etr; simpl; rewrite <- !app_assoc; done).
        split; [|done].
        apply (uploads_of_app _ [_]); [intros c ->%list_elem_of_singleton; done|].
        apply uploads_of_put; auto.
    + erewrite calls_since_app by (simpl; done).
      split; [|done]. intros c ->%list_elem_of_singleton; done.
Qed.

(** The upload-trigger example of the spec: a 100-byte file, both
    modification times 1000 s. *)
Definition upload_local (size : Z) (mtime : QArith_base.Q) : list (string * Sample.entry) :=
  [("/a", Sample.dir ["f"]); ("/a/f", Sample.file size mtime)].
Definition upload_remote : Ref.fs :=
  list_to_map [(["r"], Sample.rdir); (["r"; "f"], Sample.rfile 100 1000)].
Definition upload_calls (size : Z) (mtime : QArith_base.Q) : list call :=
  calls (node_check_for_upload_create Ref.server
           (Sample.engine (upload_local size mtime) id [] false) 1 "" "f"
           (Sample.start upload_remote)).2.

Example upload_trigger_same : upload_calls 100 (Sample.Qz 1000) = [Lstat "/r/f"].
Proof. vm_compute. reflexivity. Qed.

Example upload_trigger_size :
  upload_calls 101 (Sample.Qz 1000)
  = [Lstat "/r/f"; Put "/a/f" "/r/f" 101; Chmod "/r/f" 420; Utime "/r/f" 1000 1000].
Proof. vm_compute. reflexivity. Qed.

Example upload_trigger_mtime :
  upload_calls 100 (Sample.Qz 1001)
  = [Lstat "/r/f"; Put "/a/f" "/r/f" 100; Chmod "/r/f" 420; Utime "/r/f" 1001 1001].
Proof. vm_compute. reflexivity. Qed.

(** A change below one second goes unseen. *)
Example upload_trigger_subsecond :
  upload_calls 100 (QArith_base.Qmake 10005 10) = [Lstat "/r/f"].
Proof. vm_compute. reflexivity. Qed.

Lemma regular_file_upload_decision_witness :
  existsb is_upload (upload_calls 101 (Sample.Qz 1000)) = true ↔
  (101 ≠ 100 ∨ 1000 ≠ 1000).
Proof.
  pose proof (regular_file_upload_decision Ref.server
                (Sample.engine (upload_local 101 (Sample.Qz 1000)) id [] false)
                1 "" "f" (Sample.lstat_of (Z.lor S_IFREG 420) 101 (Sample.Qz 1000))
                (Sample.start upload_remote)
                eq_refl (not_elem_of_empty _) eq_refl) as [_ H].
  exact H.
Defined.

(** "Write remote symlink target [x] at path [p]", seen from outside: the
    only link ever requested is [p → x]; it is requested when no link can be
    read at [p], or when another one is read and can be removed; nothing is
    written when the link read is already [x]. *)
Definition writes_link_target srv (x p : string) (w w' : world (srv_state srv)) : Prop :=
  (∀ c, c ∈ calls_since w w' → is_creation c = true → c = Symlink x p) ∧
  match srv_readlink srv p (remote w) with
  | (inl e, _) => is_OSError e = true → Symlink x p ∈ calls_since w w'
  | (inr y, s) =>
      (x = y → calls_since w w' = [Readlink p]) ∧
      (x ≠ y → (∃ s', srv_remove srv p s = (inr tt, s')) →
       Symlink x p ∈ calls_since w w')
  end.

Lemma create_update_symlink_writes srv x p (w : world (srv_state srv)) :
  writes_link_target srv x p w (create_update_symlink srv x p w).2.
Proof.
  split; [intros c; apply create_update_symlink_target|].
  pose proof (create_update_symlink_requests srv x p w) as Hreq.
  destruct (srv_readlink srv p (remote w)) as [[e|y] s1] eqn:Er; [done|].
  split; [|by auto].
  intros <-. unfold create_update_symlink, try_except, bind, sftp_readlink, issue, ret.
  rewrite Er. simpl. rewrite String.eqb_refl. simpl. by trace_norm.
Qed.

(** C3.  A local symbolic link met by the creation pass (and not excluded)
    is written remotely with this target: the remote root joined with the
    remainder of the resolved target after the local root, when the raw
    target is absolute, resolves under the local root, and fix-symlinks is
    on; the raw target itself when it is absolute and resolves elsewhere, or
    when it is relative. *)
Theorem symlink_target_written
    srv self fuel relative_path f l_st local_link (w : world (srv_state srv)) :
  let lpath := join3 (local_path self) relative_path f in
  let rpath := join3 (remote_path self) relative_path f in
  let root := join (local_path self) "" in
  let target := os_realpath (os self) local_link in
  let w' := (node_check_for_upload_create srv self fuel relative_path f w).2 in
  os_lstat (os self) lpath = Some l_st →
  lpath ∉ exclude_list self →
  S_ISLNK (st_mode l_st) = true →
  os_readlink (os self) lpath = Some local_link →
  (∀ rest, startswith_sep local_link = true → target = root +:+ rest →
           fix_symlinks self = true →
           writes_link_target srv (join (remote_path self) rest) rpath w w') ∧
  (startswith_sep local_link = true → String.prefix root target = false →
   writes_link_target srv local_link rpath w w') ∧
  (startswith_sep local_link = false →
   writes_link_target srv local_link rpath w w').
Proof.
  intros lpath rpath root target w' E Hex Hl Hr. subst w'.
  rewrite (node_symlink srv self fuel relative_path f l_st local_link w E Hex Hl Hr).
  fold lpath rpath root target.
  split; [|split].
  - intros rest Habs Hin Hfix. rewrite Habs, Hfix, Hin, prefix_append.
    simpl. rewrite slice_from_append. apply create_update_symlink_writes.
  - intros Habs Hout. rewrite Habs, Hout. simpl.
    apply create_update_symlink_writes.
  - intros Hrel. rewrite Hrel. simpl. apply create_update_symlink_writes.
Qed.

(** C4.  A local symbolic link whose raw target is absolute and resolves
    under the local root, with fix-symlinks off: the node function returns
    at once; it issues no call, so no link is created even when the remote
    side has none. *)
Theorem symlink_inside_tree_fix_off_no_write
    srv self fuel relative_path f l_st local_link rest (w : world (srv_state srv)) :
  let lpath := join3 (local_path self) relative_path f in
  os_lstat (os self) lpath = Some l_st →
  lpath ∉ exclude_list self →
  S_ISLNK (st_mode l_st) = true →
  os_readlink (os self) lpath = Some local_link →
  startswith_sep local_link = true →
  os_realpath (os self) local_link = join (local_path self) "" +:+ rest →
  fix_symlinks self = false →
  node_check_for_upload_create srv self fuel relative_path f w = (inr tt, w).
Proof.
  intros lpath E Hex Hl Hr Habs Hin Hfix.
  rewrite (node_symlink srv self fuel relative_path f l_st local_link w E Hex Hl Hr).
  by rewrite Habs, Hfix, Hin, prefix_append.
Qed.

(** The symlink cases of the spec: local root [/a], remote root [/r]. *)
Definition link_local (target : string) : list (string * Sample.entry) :=
  [("/a", Sample.dir ["l"]); ("/a/l", Sample.link target)].
Definition link_remote : Ref.fs := list_to_map [(["r"], Sample.rdir)].
Definition link_world (target : string) (fix_links : bool) : world Ref.fs :=
  (check_for_upload_create Ref.server
     (Sample.engine (link_local target) id [] fix_links) 2 ""
     (Sample.start link_remote)).2.
Definition link_written (target : string) (fix_links : bool) : option string :=
  Ref.n_link <$> remote (link_world target fix_links) !! ["r"; "l"].

Example link_inside_fix_on : link_written "/a/b/c" true = Some "/r/b/c".
Proof. vm_compute. reflexivity. Qed.

Example link_inside_fix_off :
  link_written "/a/b/c" false = None ∧ calls (link_world "/a/b/c" false) = [].
Proof. vm_compute. split; reflexivity. Qed.

Example link_outside : link_written "/outside/x" true = Some "/outside/x".
Proof. vm_compute. reflexivity. Qed.

Example link_relative : link_written "../sibling" true = Some "../sibling".
Proof. vm_compute. reflexivity. Qed.

Lemma symlink_target_written_witness :
  writes_link_target Ref.server "/r/b/c" "/r/l" (Sample.start link_remote)
    (node_check_for_upload_create Ref.server
       (Sample.engine (link_local "/a/b/c") id [] true) 1 "" "l"
       (Sample.start link_remote)).2.
Proof.
  pose proof (symlink_target_written Ref.server
                (Sample.engine (link_local "/a/b/c") id [] true) 1 "" "l"
                (Sample.e_stat (Sample.link "/a/b/c")) "/a/b/c"
                (Sample.start link_remote)
                eq_refl (not_elem_of_empty _) eq_refl eq_refl) as (H & _ & _).
  exact (H "b/c" eq_refl eq_refl eq_refl).
Defined.

Lemma symlink_inside_tree_fix_off_no_write_witness :
  node_check_for_upload_create Ref.server
    (Sample.engine (link_local "/a/b/c") id [] false) 1 "" "l"
    (Sample.start link_remote)
  = (inr tt, Sample.start link_remote).
Proof.
  exact (symlink_inside_tree_fix_off_no_write Ref.server
           (Sample.engine (link_local "/a/b/c") id [] false) 1 "" "l"
           (Sample.e_stat (Sample.link "/a/b/c")) "/a/b/c" "b/c"
           (Sample.start link_remote)
           eq_refl (not_elem_of_empty _) eq_refl eq_refl eq_refl eq_refl eq_refl).
Defined.

(** ** Paths on the reference server *)

(** A directory entry's name: not empty, no separator in it. *)
Fixpoint no_sep (s : string) : bool :=
  match s with
  | EmptyString => true
  | String c s' => negb (Ref.is_sep c) && no_sep s'
  end.

Definition simple (n : string) : Prop := n ≠ EmptyString ∧ no_sep n = true.

(** The relative path the passes build for the directory reached through
    the names [ds]: [join] applied from the empty string on. *)
Definition rel_of (ds : list string) : string := fold_left join ds EmptyString.

Lemma string_app_assoc (a b c : string) : (a +:+ b) +:+ c = a +:+ (b +:+ c).
Proof. induction a as [|x a IH]; simpl; [done | by rewrite IH]. Qed.

Lemma string_app_empty_r (a : string) : a +:+ "" = a.
Proof. induction a as [|x a IH]; simpl; [done | by rewrite IH]. Qed.

Lemma push_app acc l : Ref.push acc l = Ref.push acc [] ++ l.
Proof. unfold Ref.push. by destruct (String.eqb acc ""). Qed.

Lemma components_sep_app acc s t :
  Ref.components acc (s +:+ String sep t)
  = Ref.components acc s ++ Ref.components "" t.
Proof.
  revert acc. induction s as [|c s IH]; intros acc; simpl.
  - apply push_app.
  - destruct (Ref.is_sep c); [|apply IH].
    rewrite IH, (push_app acc (_ ++ _)), (push_app acc (Ref.components "" s)).
    by rewrite app_assoc.
Qed.

Lemma components_cons acc c s :
  Ref.components acc (String c s)
  = if Ref.is_sep c then Ref.push acc (Ref.components "" s)
    else Ref.components (acc +:+ String c "") s.
Proof. reflexivity. Qed.

Lemma components_endsep_app acc a t :
  endswith_sep a = true →
  Ref.components acc (a +:+ t) = Ref.components acc a ++ Ref.components "" t.
Proof.
  revert acc. induction a as [|c a IH]; intros acc H; [done|].
  destruct a as [|c' a'].
  - simpl in H. simpl. unfold Ref.is_sep. rewrite H. simpl.
    apply push_app.
  - change (endswith_sep (String c (String c' a'))) with (endswith_sep (String c' a')) in H.
    change (String c (String c' a') +:+ t) with (String c (String c' a' +:+ t)).
    rewrite (components_cons acc c (String c' a' +:+ t)),
      (components_cons acc c (String c' a')).
    destruct (Ref.is_sep c).
    + rewrite IH by done.
      rewrite (push_app acc (_ ++ _)), (push_app acc (Ref.components "" _)).
      by rewrite app_assoc.
    + by apply IH.
Qed.

Lemma components_no_sep acc n :
  no_sep n = true → acc +:+ n ≠ "" → Ref.components acc n = [acc +:+ n].
Proof.
  revert acc. induction n as [|c n IH]; intros acc Hn Hne; simpl in *.
  - rewrite string_app_empty_r in *. unfold Ref.push.
    destruct (String.eqb_spec acc ""); done.
  - apply andb_true_iff in Hn as [Hc Hn]. apply negb_true_iff in Hc. rewrite Hc.
    rewrite IH; [|done|].
    + by rewrite string_app_assoc.
    + rewrite string_app_assoc. simpl. by destruct acc.
Qed.

Lemma resolve_simple n : simple n → Ref.resolve n = [n].
Proof. intros [Hne Hn]. unfold Ref.resolve. by rewrite components_no_sep. Qed.

Lemma simple_not_abs n : simple n → startswith_sep n = false.
Proof.
  intros [Hne Hn]. destruct n as [|c n]; [done|]. simpl in *.
  apply andb_true_iff in Hn as [Hc _]. by apply negb_true_iff in Hc.
Qed.

Lemma resolve_join a b :
  startswith_sep b = false →
  Ref.resolve (join a b) = Ref.resolve a ++ Ref.resolve b.
Proof.
  intros Hb. unfold join, Ref.resolve. rewrite Hb.
  destruct (String.eqb_spec a "") as [->|Ha]; simpl; [done|].
  destruct (endswith_sep a) eqn:He.
  - by apply components_endsep_app.
  - apply components_sep_app.
Qed.

Lemma resolve_join_simple a n :
  simple n → Ref.resolve (join a n) = Ref.resolve a ++ [n].
Proof.
  intros Hn. rewrite resolve_join by by apply simple_not_abs.
  by rewrite (resolve_simple n).
Qed.

Lemma resolve_join_empty a : Ref.resolve (join a "") = Ref.resolve a.
Proof. rewrite resolve_join by done. apply app_nil_r. Qed.

Lemma startswith_sep_app a b :
  startswith_sep (a +:+ b) = if String.eqb a "" then startswith_sep b else startswith_sep a.
Proof. by destruct a. Qed.

Lemma join_not_abs a b :
  startswith_sep a = false → startswith_sep b = false →
  startswith_sep (join a b) = false.
Proof.
  intros Ha Hb. unfold join. rewrite Hb.
  destruct (String.eqb_spec a "") as [->|Hne]; simpl; [done|].
  destruct (endswith_sep a); rewrite startswith_sep_app;
    by destruct (String.eqb_spec a "").
Qed.

Lemma rel_of_snoc ds n : rel_of (ds ++ [n]) = join (rel_of ds) n.
Proof. unfold rel_of. by rewrite fold_left_app. Qed.

Lemma rel_of_not_abs ds : Forall simple ds → startswith_sep (rel_of ds) = false.
Proof.
  induction ds as [|n ds IH] using rev_ind; intros H; [done|].
  apply Forall_app in H as [Hds Hn]. inversion_clear Hn.
  rewrite rel_of_snoc. apply join_not_abs; [auto|by apply simple_not_abs].
Qed.

Lemma resolve_rel_of ds : Forall simple ds → Ref.resolve (rel_of ds) = ds.
Proof.
  induction ds as [|n ds IH] using rev_ind; intros H; [done|].
  apply Forall_app in H as [Hds Hn]. inversion_clear Hn.
  rewrite rel_of_snoc, resolve_join_simple by done. by rewrite IH.
Qed.

(** The remote path of the directory [ds] and of its entry [n], as the
    passes write them, resolve to the root's key extended by the names. *)
Lemma resolve_dir root ds :
  Forall simple ds →
  Ref.resolve (join root (rel_of ds)) = Ref.resolve root ++ ds.
Proof.
  intros H. rewrite resolve_join by by apply rel_of_not_abs.
  by rewrite resolve_rel_of.
Qed.

Lemma resolve_entry root ds n :
  Forall simple ds → simple n →
  Ref.resolve (join (join root (rel_of ds)) n) = Ref.resolve root ++ ds ++ [n].
Proof.
  intros H Hn. rewrite resolve_join_simple, resolve_dir by done.
  by rewrite app_assoc.
Qed.

(** ** The store of the reference server *)

Lemma strip_prefix_Some k k' ns :
  Ref.strip_prefix k k' = Some ns ↔ k' = k ++ ns.
Proof.
  revert k'. induction k as [|x k IH]; intros k'; simpl.
  - split; congruence.
  - destruct k' as [|y k']; [split; [done|intros; discriminate]|].
    case_bool_decide as Hxy.
    + subst y. rewrite IH. split; [by intros ->|congruence].
    + split; [done|congruence].
Qed.

Lemma child_name_Some k k' n : Ref.child_name k k' = Some n ↔ k' = k ++ [n].
Proof.
  unfold Ref.child_name.
  destruct (Ref.strip_prefix k k') as [ns|] eqn:E.
  - apply strip_prefix_Some in E. subst k'.
    destruct ns as [|m [|m' ns]]; split; try done.
    + intros H%(f_equal length). rewrite !length_app in H. simpl in H. lia.
    + by intros [= ->].
    + by intros [= <-]%app_inv_head.
    + intros H%app_inv_head. done.
  - split; [done|]. intros ->.
    pose proof (proj2 (strip_prefix_Some k (k ++ [n]) [n]) eq_refl). congruence.
Qed.

Lemma elem_of_children (s : Ref.fs) k a :
  a ∈ Ref.children s k ↔
  ∃ n nd, s !! (k ++ [n]) = Some nd ∧ a = Ref.attrs_of n nd.
Proof.
  unfold Ref.children. rewrite list_elem_of_omap. split.
  - intros [[k' nd] [Hin Hf]]. apply elem_of_map_to_list in Hin.
    destruct (Ref.child_name k k') as [n|] eqn:E; simpl in Hf; [|done].
    injection Hf as <-. apply child_name_Some in E. subst k'. eauto.
  - intros (n & nd & Hl & ->). exists (k ++ [n], nd). split.
    + by apply elem_of_map_to_list.
    + by rewrite (proj2 (child_name_Some k (k ++ [n]) n) eq_refl).
Qed.

Lemma children_names_NoDup (s : Ref.fs) k : NoDup (filename <$> Ref.children s k).
Proof.
  unfold Ref.children.
  pose proof (NoDup_fst_map_to_list s) as Hnd.
  induction (map_to_list s) as [|[k' nd] l IH]; simpl; [constructor|].
  apply NoDup_cons in Hnd as [Hk' Hnd].
  destruct (Ref.child_name k k') as [n|] eqn:E; simpl; [|by apply IH].
  constructor; [|by apply IH].
  intros Hin. apply list_elem_of_fmap in Hin as (a & Ha & Hin).
  apply list_elem_of_omap in Hin as ([k2 nd2] & Hin2 & Hf).
  destruct (Ref.child_name k k2) as [n2|] eqn:E2; simpl in Hf; [|done].
  injection Hf as <-. simpl in Ha. subst n2.
  apply child_name_Some in E, E2. subst k' k2.
  apply Hk'. apply list_elem_of_fmap. by exists (k ++ [n], nd2).
Qed.

Lemma children_nil (s : Ref.fs) k :
  Ref.children s k = [] ↔ ∀ n, s !! (k ++ [n]) = None.
Proof.
  split.
  - intros E n. destruct (s !! (k ++ [n])) as [nd|] eqn:El; [|done].
    assert (Ref.attrs_of n nd ∈ Ref.children s k) as Hin
      by (apply elem_of_children; eauto).
    rewrite E in Hin. by apply elem_of_nil in Hin.
  - intros H. destruct (Ref.children s k) as [|a l] eqn:E; [done|].
    assert (a ∈ Ref.children s k) as Hin by (rewrite E; left).
    apply elem_of_children in Hin as (n & nd & Hl & _). by rewrite H in Hl.
Qed.

(** Well-formed stores: entries bear simple names and hang under
    directories. *)
Definition wf (s : Ref.fs) : Prop :=
  (∀ k nd, s !! k = Some nd → Forall simple k) ∧
  (∀ k n nd, s !! (k ++ [n]) = Some nd → Ref.is_dir_at s k = true).

Lemma is_dir_at_Some (s : Ref.fs) k :
  Ref.is_dir_at s k = true ↔ ∃ nd, s !! k = Some nd ∧ S_ISDIR (Ref.n_mode nd) = true.
Proof.
  unfold Ref.is_dir_at. destruct (s !! k) as [nd|]; [|by split; [|intros (?&?&?)]].
  split; [eauto|]. by intros (? & [= <-] & ?).
Qed.

Lemma wf_ancestor (s : Ref.fs) k ns nd :
  wf s → ns ≠ [] → s !! (k ++ ns) = Some nd → Ref.is_dir_at s k = true.
Proof.
  intros Hwf. revert nd. induction ns as [|n ns IH] using rev_ind; [done|].
  intros nd _ Hl. rewrite app_assoc in Hl.
  apply (proj2 Hwf) in Hl.
  destruct ns as [|m ns']; [by rewrite app_nil_r in Hl|].
  apply is_dir_at_Some in Hl as (nd' & Hl & _). by eapply IH.
Qed.

Lemma wf_leaf (s : Ref.fs) k ns nd :
  wf s → s !! k = Some nd → S_ISDIR (Ref.n_mode nd) = false →
  ns ≠ [] → s !! (k ++ ns) = None.
Proof.
  intros Hwf Hl Hnd Hns. destruct (s !! (k ++ ns)) as [nd'|] eqn:E; [|done].
  apply (wf_ancestor s k ns nd' Hwf Hns) in E.
  apply is_dir_at_Some in E as (nd2 & Hl2 & Hd). congruence.
Qed.

Lemma wf_names (s : Ref.fs) k n nd : wf s → s !! (k ++ [n]) = Some nd → simple n.
Proof.
  intros Hwf Hl. apply (proj1 Hwf) in Hl. apply Forall_app in Hl as [_ Hn].
  by inversion_clear Hn.
Qed.

(** ** Loops *)

(** From [bind m k w = (inr _, _)]: [m] returned normally; [E] names its
    result. *)
Ltac bind_ok H E :=
  unfold bind in H;
  match type of H with
  | match ?m with (_, _) => _ end = _ =>
      destruct m as [[?|?] ?] eqn:E; simpl in H; [discriminate H|];
      repeat match goal with u : unit |- _ => destruct u end
  end.

(** A loop that returns normally has kept its invariant; [done] are the
    items already handled. *)
Lemma for_each_invariant {S A} (body : A → M S unit)
    (I : list A → world S → Prop) xs w w' :
  for_each xs body w = (inr tt, w') →
  I [] w →
  (∀ done x rest w1 w2,
     xs = done ++ x :: rest → I done w1 → body x w1 = (inr tt, w2) →
     I (done ++ [x]) w2) →
  I xs w'.
Proof.
  intros Hrun H0 Hstep.
  assert (∀ rest done w1, xs = done ++ rest → I done w1 →
            for_each rest body w1 = (inr tt, w') → I xs w') as Hgen.
  { induction rest as [|x rest IH]; intros done w1 Hxs HI Hr; simpl in Hr.
    - unfold ret in Hr. injection Hr as <-. by rewrite Hxs, app_nil_r.
    - unfold bind in Hr. destruct (body x w1) as [[e|[]] w2] eqn:Hb; [done|].
      eapply (IH (done ++ [x]) w2); [by rewrite <- app_assoc| |done].
      by eapply Hstep. }
  by eapply (Hgen xs [] w).
Qed.

(** A loop whose steps all return normally returns normally. *)
Lemma for_each_returns {S A} (body : A → M S unit)
    (I : list A → world S → Prop) xs w :
  I [] w →
  (∀ done x rest w1,
     xs = done ++ x :: rest → I done w1 →
     ∃ w2, body x w1 = (inr tt, w2) ∧ I (done ++ [x]) w2) →
  ∃ w', for_each xs body w = (inr tt, w') ∧ I xs w'.
Proof.
  intros H0 Hstep.
  assert (∀ rest done w1, xs = done ++ rest → I done w1 →
            ∃ w', for_each rest body w1 = (inr tt, w') ∧ I xs w') as Hgen.
  { induction rest as [|x rest IH]; intros done w1 Hxs HI; simpl.
    - exists w1. split; [done|]. by rewrite Hxs, app_nil_r.
    - destruct (Hstep done x rest w1 Hxs HI) as (w2 & Hb & HI2).
      unfold bind. rewrite Hb.
      apply (IH (done ++ [x]) w2); [by rewrite <- app_assoc|done]. }
  by apply (Hgen xs [] w).
Qed.

(** ** Calls on the reference server *)

Lemma ref_listdir_attr_ok (p : string) (s : Ref.fs) cs fl lg l w' :
  sftp_listdir_attr Ref.server p (World s cs fl lg) = (inr l, w') →
  l = Ref.children s (Ref.resolve p) ∧
  Ref.is_dir_at s (Ref.resolve p) = true ∧
  w' = World s (cs ++ [Listdir_attr p]) fl lg.
Proof.
  unfold sftp_listdir_attr, issue. simpl. unfold Ref.listdir_attr, Ref.is_dir_at.
  destruct (s !! Ref.resolve p) as [nd|]; simpl; [|done].
  destruct (S_ISDIR (Ref.n_mode nd)); simpl; [|done].
  by intros [= <- <-].
Qed.

Lemma ref_lstat_ok (p : string) (s : Ref.fs) cs fl lg a w' :
  sftp_lstat Ref.server p (World s cs fl lg) = (inr a, w') →
  (∃ nd, s !! Ref.resolve p = Some nd ∧ a = Ref.attrs_of "" nd) ∧
  w' = World s (cs ++ [Lstat p]) fl lg.
Proof.
  unfold sftp_lstat, issue. simpl. unfold Ref.lstat.
  destruct (s !! Ref.resolve p) as [nd|]; simpl; [|done].
  intros [= <- <-]. eauto.
Qed.

Lemma ref_rmdir_ok (p : string) (s : Ref.fs) cs fl lg w' :
  sftp_rmdir Ref.server p (World s cs fl lg) = (inr tt, w') →
  Ref.is_dir_at s (Ref.resolve p) = true ∧
  Ref.children s (Ref.resolve p) = [] ∧
  w' = World (delete (Ref.resolve p) s) (cs ++ [Rmdir p]) fl lg.
Proof.
  unfold sftp_rmdir, issue. simpl. unfold Ref.rmdir, Ref.is_dir_at.
  destruct (s !! Ref.resolve p) as [nd|]; simpl; [|done].
  destruct (S_ISDIR (Ref.n_mode nd)); simpl; [|done].
  destruct (Ref.children s (Ref.resolve p)); simpl; [|done].
  by intros [= <-].
Qed.

(** Removing a node that is there and is no directory raises nothing, so
    the handler of [remote_delete] does not run. *)
Lemma ref_remove_node (p : string) (s : Ref.fs) cs fl lg nd :
  s !! Ref.resolve p = Some nd → S_ISDIR (Ref.n_mode nd) = false →
  try_except (sftp_remove Ref.server p) is_FileNotFoundError
    (λ _, logger (Log_error p)) (World s cs fl lg)
  = (inr tt, World (delete (Ref.resolve p) s) (cs ++ [Remove p]) fl lg).
Proof.
  intros Hl Hd. unfold try_except, sftp_remove, issue. simpl. unfold Ref.remove.
  by rewrite Hl, Hd.
Qed.

(** ** Recursive removal on the reference server *)

(** What [remote_delete] may ask about the node at [k]: listings of
    directories at or below [k], removals at or below [k]. *)
Definition del_call_ok (s : Ref.fs) (k : list string) (c : call) : Prop :=
  match c with
  | Listdir_attr q =>
      k `prefix_of` Ref.resolve q ∧ Ref.is_dir_at s (Ref.resolve q) = true
  | Remove q | Rmdir q => k `prefix_of` Ref.resolve q
  | _ => False
  end.

(** [s'] is [s] without the subtree at [k]. *)
Definition subtree_removed (k : list string) (s s' : Ref.fs) : Prop :=
  (∀ ns, s' !! (k ++ ns) = None) ∧
  (∀ k', ¬ k `prefix_of` k' → s' !! k' = s !! k').

Lemma wf_subtree_removed k s s' : wf s → subtree_removed k s s' → wf s'.
Proof.
  intros Hwf [Hin Hout]. split.
  - intros k' nd Hl. destruct (decide (k `prefix_of` k')) as [[ns ->]|Hn].
    + by rewrite Hin in Hl.
    + rewrite Hout in Hl by done. by eapply (proj1 Hwf).
  - intros k' n nd Hl. destruct (decide (k `prefix_of` k' ++ [n])) as [[ns E]|Hn].
    + by rewrite E, Hin in Hl.
    + rewrite Hout in Hl by done. apply (proj2 Hwf) in Hl.
      unfold Ref.is_dir_at in *. rewrite Hout; [done|].
      intros [ns ->]. apply Hn. exists (ns ++ [n]). by rewrite app_assoc.
Qed.

Lemma del_call_ok_mono (s s' : Ref.fs) k k' c :
  (∀ q, Ref.is_dir_at s' q = true → Ref.is_dir_at s q = true) →
  k `prefix_of` k' → del_call_ok s' k' c → del_call_ok s k c.
Proof.
  intros Hs Hk. destruct c; simpl; try done.
  - intros [H1 H2]. split; [by etrans|auto].
  - intros H. by etrans.
  - intros H. by etrans.
Qed.

Lemma prefix_snoc_inv (k k' : list string) n m :
  (k ++ [n]) `prefix_of` (k ++ m :: k') → n = m.
Proof.
  intros [ns E]. rewrite <- app_assoc in E. apply app_inv_head in E.
  simpl in E. congruence.
Qed.

Lemma app_cons_ne (k : list string) n ns : k ++ n :: ns ≠ k.
Proof.
  intros H%(f_equal length). rewrite length_app in H. simpl in H. lia.
Qed.

Lemma prefix_snoc_trans (k k' : list string) n :
  (k ++ [n]) `prefix_of` k' → k `prefix_of` k'.
Proof. intros [ns ->]. exists ([n] ++ ns). by rewrite app_assoc. Qed.

Lemma remote_delete_S srv fuel p a :
  remote_delete srv (S fuel) p a
  = if S_ISDIR (r_mode a) then
      let* items := sftp_listdir_attr srv p in
      for_each items (λ item,
        remote_delete srv fuel (join p (filename item)) item) ;;;
      sftp_rmdir srv p
    else
      try_except (sftp_remove srv p) is_FileNotFoundError
        (λ e, logger (Log_error p)).
Proof. reflexivity. Qed.

(** The result of [remote_delete], when it returns: the node and everything
    below it are gone, nothing else has changed, no call has failed, and
    every call was a listing or a removal at or below the node. *)
Definition delete_result (p : string) (s : Ref.fs) (cs : list call)
    (fl : list (call * exn)) (lg : list log_record) (w' : world Ref.fs) : Prop :=
  subtree_removed (Ref.resolve p) s (remote w') ∧
  failed w' = fl ∧ logged w' = lg ∧
  ∃ tr, calls w' = cs ++ tr ∧ Forall (del_call_ok s (Ref.resolve p)) tr.

(** The state of the loop of [remote_delete] over the entries of the
    directory at [k], once the entries [done] are handled. *)
Definition children_deleted (k : list string) (s : Ref.fs) (cs : list call)
    (fl : list (call * exn)) (lg : list log_record)
    (done : list SFTPAttributes) (w_i : world Ref.fs) : Prop :=
  wf (remote w_i) ∧
  (∀ q, remote w_i !! q = None ∨ remote w_i !! q = s !! q) ∧
  (∀ x ns, x ∈ done → remote w_i !! (k ++ filename x :: ns) = None) ∧
  (∀ k', (∀ x, x ∈ done → ¬ (k ++ [filename x]) `prefix_of` k') →
         remote w_i !! k' = s !! k') ∧
  failed w_i = fl ∧ logged w_i = lg ∧
  ∃ tr, calls w_i = cs ++ tr ∧ Forall (del_call_ok s k) tr.

(** The entry [x] of the directory at [k], reached by the loop of
    [remote_delete] after the entries [done]: still as it was. *)
Lemma child_untouched (k : list string) (s : Ref.fs) cs fl lg done x rest
    (w1 : world Ref.fs) :
  wf s → Ref.children s k = done ++ x :: rest →
  children_deleted k s cs fl lg done w1 →
  ∃ n ndx, x = Ref.attrs_of n ndx ∧ simple n ∧
           s !! (k ++ [n]) = Some ndx ∧
           (n ∉ filename <$> done) ∧
           remote w1 !! (k ++ [n]) = Some ndx.
Proof.
  intros Hwf Hxs (Hwf1 & Hsub & Hgone & Hkept & _).
  assert (x ∈ Ref.children s k) as Hx
    by (rewrite Hxs; apply elem_of_app; right; left).
  apply elem_of_children in Hx as (n & ndx & Hn & ->).
  exists n, ndx. pose proof (wf_names _ _ _ _ Hwf Hn) as Hsimple.
  assert (n ∉ filename <$> done) as Hfresh.
  { pose proof (children_names_NoDup s k) as Hnd'. rewrite Hxs in Hnd'.
    rewrite fmap_app, fmap_cons in Hnd'. simpl in Hnd'.
    apply NoDup_app in Hnd' as (_ & Hd' & _). intros Hin.
    apply (Hd' _ Hin). left. }
  split_and!; try done.
  rewrite Hkept; [done|]. intros x Hx Hp.
  apply (prefix_snoc_inv k [] (filename x) n) in Hp.
  apply Hfresh. apply list_elem_of_fmap. eauto.
Qed.

(** One round of the loop of [remote_delete]. *)
Lemma delete_child_ok fuel (p : string) (s : Ref.fs) cs fl lg done x rest
    (w1 w3 : world Ref.fs) :
  (∀ (p : string) (a : SFTPAttributes) (s : Ref.fs) cs fl lg (nd : Ref.rnode)
     (w' : world Ref.fs),
     wf s → s !! Ref.resolve p = Some nd → r_mode a = Ref.n_mode nd →
     remote_delete Ref.server fuel p a (World s cs fl lg) = (inr tt, w') →
     delete_result p s cs fl lg w') →
  wf s →
  Ref.children s (Ref.resolve p) = done ++ x :: rest →
  children_deleted (Ref.resolve p) s cs fl lg done w1 →
  remote_delete Ref.server fuel (join p (filename x)) x w1 = (inr tt, w3) →
  children_deleted (Ref.resolve p) s cs fl lg (done ++ [x]) w3.
Proof.
  intros IH Hwf Hxs HI Hbody. set (k := Ref.resolve p) in *.
  destruct (child_untouched k s cs fl lg done x rest w1 Hwf Hxs HI)
    as (n & ndx & -> & Hsimple & Hn & Hfresh & Hn1).
  destruct w1 as [s1 cs1 fl1 lg1].
  destruct HI as (Hwf1 & Hsub & Hgone & Hkept & Hfl & Hlg & tr & Htr & Hok).
  simpl in *. subst fl1 lg1.
  assert (Ref.resolve (join p n) = k ++ [n]) as Hres
    by by apply resolve_join_simple.
  rewrite <- Hres in Hn1.
  destruct (IH (join p n) (Ref.attrs_of n ndx) s1 cs1 fl lg ndx w3
              Hwf1 Hn1 eq_refl Hbody)
    as ([Hin Hout] & Hfl3 & Hlg3 & tr3 & Htr3 & Hok3).
  rewrite Hres in Hin, Hout, Hok3.
  split; [by eapply wf_subtree_removed|].
  split; [|split; [|split; [|split; [done|split; [done|]]]]].
  + intros q. destruct (decide ((k ++ [n]) `prefix_of` q)) as [[ns ->]|Hq].
    * left. apply Hin.
    * rewrite (Hout q Hq). apply Hsub.
  + intros x ns [Hx| ->%list_elem_of_singleton]%elem_of_app.
    * destruct (decide ((k ++ [n]) `prefix_of` (k ++ filename x :: ns)))
        as [[ns' E]|Hq]; [rewrite E; apply Hin|].
      rewrite (Hout _ Hq). by apply Hgone.
    * simpl. change (k ++ n :: ns) with (k ++ [n] ++ ns).
      rewrite app_assoc. apply Hin.
  + intros k' Hk'. rewrite Hout.
    * apply Hkept. intros x Hx. apply Hk'. apply elem_of_app. by left.
    * apply (Hk' (Ref.attrs_of n ndx)). apply elem_of_app. right. left.
  + exists (tr ++ tr3). split; [by rewrite Htr3, Htr, <- !app_assoc|].
    apply Forall_app. split; [done|].
    eapply Forall_impl; [exact Hok3|]. intros c.
    apply del_call_ok_mono; [|by exists [n]].
    intros q. unfold Ref.is_dir_at. destruct (Hsub q) as [->| ->]; done.
Qed.

Lemma children_deleted_start (k : list string) (s : Ref.fs) cs fl lg :
  wf s → children_deleted k s cs fl lg [] (World s cs fl lg).
Proof.
  intros Hwf. unfold children_deleted. simpl.
  split_and!; try done; [by right| |exists []; by rewrite app_nil_r].
  intros x ns Hx. by apply elem_of_nil in Hx.
Qed.

Lemma delete_children_ok fuel (p : string) (s : Ref.fs) (cs : list call)
    (fl : list (call * exn)) (lg : list log_record) (w2 : world Ref.fs) :
  (∀ (p : string) (a : SFTPAttributes) (s : Ref.fs) cs fl lg (nd : Ref.rnode)
     (w' : world Ref.fs),
     wf s → s !! Ref.resolve p = Some nd → r_mode a = Ref.n_mode nd →
     remote_delete Ref.server fuel p a (World s cs fl lg) = (inr tt, w') →
     delete_result p s cs fl lg w') →
  wf s →
  for_each (Ref.children s (Ref.resolve p))
    (λ item, remote_delete Ref.server fuel (join p (filename item)) item)
    (World s cs fl lg) = (inr tt, w2) →
  children_deleted (Ref.resolve p) s cs fl lg (Ref.children s (Ref.resolve p)) w2.
Proof.
  intros IH Hwf Hloop.
  apply for_each_invariant with (I := children_deleted (Ref.resolve p) s cs fl lg)
    in Hloop; [done|by apply children_deleted_start|].
  intros done x rest w1 w3 Hxs HI Hbody. by eapply (delete_child_ok fuel p).
Qed.

(** Once the loop is over, nothing is left below the directory, and the
    directory itself is as before. *)
Lemma children_deleted_all (k : list string) (s : Ref.fs) (cs : list call)
    (fl : list (call * exn)) (lg : list log_record) (w2 : world Ref.fs) :
  wf s →
  children_deleted k s cs fl lg (Ref.children s k) w2 →
  (∀ ns, ns ≠ [] → remote w2 !! (k ++ ns) = None) ∧
  (∀ k', ¬ k `prefix_of` k' → remote w2 !! k' = s !! k') ∧
  remote w2 !! k = s !! k.
Proof.
  intros Hwf (Hwf2 & Hsub & Hgone & Hkept & _). split_and!.
  - intros [|n ns] Hns; [done|].
    destruct (s !! (k ++ [n])) as [ndn|] eqn:En.
    { apply (Hgone (Ref.attrs_of n ndn)). apply elem_of_children. eauto. }
    destruct (Hsub (k ++ n :: ns)) as [?|E]; [done|]. rewrite E.
    destruct ns as [|m ns]; [done|].
    destruct (s !! (k ++ n :: m :: ns)) as [nd'|] eqn:E'; [|done].
    change (k ++ n :: m :: ns) with (k ++ [n] ++ m :: ns) in E'.
    rewrite app_assoc in E'.
    apply wf_ancestor in E'; [|done..].
    apply is_dir_at_Some in E' as (? & ? & _). congruence.
  - intros k' Hk'. apply Hkept. intros x _ Hp.
    by apply Hk', (prefix_snoc_trans _ _ (filename x)).
  - apply Hkept. intros x _ [ms E].
    apply (app_cons_ne k (filename x) ms). by rewrite <- app_assoc in E.
Qed.

Lemma remote_delete_ok fuel :
  ∀ (p : string) (a : SFTPAttributes) (s : Ref.fs) cs fl lg (nd : Ref.rnode)
    (w' : world Ref.fs),
    wf s → s !! Ref.resolve p = Some nd → r_mode a = Ref.n_mode nd →
    remote_delete Ref.server fuel p a (World s cs fl lg) = (inr tt, w') →
    delete_result p s cs fl lg w'.
Proof.
  induction fuel as [|fuel IH]; intros p a s cs fl lg nd w' Hwf Hnd Hmode Hrun;
    [discriminate Hrun|].
  rewrite remote_delete_S in Hrun. unfold delete_result.
  set (k := Ref.resolve p) in *.
  destruct (S_ISDIR (r_mode a)) eqn:Hd.
  - (* a directory: empty it, then remove it *)
    bind_ok Hrun Hl.
    apply ref_listdir_attr_ok in Hl as (-> & Hdir & ->). fold k in Hdir, Hrun.
    bind_ok Hrun Hloop.
    match goal with w : world _ |- _ => rename w into w2 end.
    apply (delete_children_ok fuel p s _ fl lg w2 IH Hwf) in Hloop. fold k in Hloop.
    destruct (children_deleted_all _ _ _ _ _ _ Hwf Hloop) as (Hgone & Hkept & Hk).
    destruct Hloop as (_ & _ & _ & _ & Hfl & Hlg & tr & Htr & Hok).
    destruct w2 as [s2 cs2 fl2 lg2]. simpl in *. subst fl2 lg2.
    apply ref_rmdir_ok in Hrun as (_ & _ & ->). fold k. simpl.
    split_and!; try done; [split|exists ([Listdir_attr p] ++ tr ++ [Rmdir p])].
    + intros [|n ns].
      { rewrite app_nil_r. apply lookup_delete_eq. }
      rewrite lookup_delete_ne by (symmetry; apply app_cons_ne).
      by apply Hgone.
    + intros k' Hk'. rewrite lookup_delete_ne by (intros <-; by apply Hk').
      by apply Hkept.
    + split.
      { rewrite Htr, <- !app_assoc. done. }
      apply Forall_app. split; [|apply Forall_app; split; [done|]].
      * constructor; [by split|constructor].
      * constructor; [simpl; done|constructor].
  - (* anything else: one removal *)
    assert (S_ISDIR (Ref.n_mode nd) = false) as Hd' by by rewrite <- Hmode.
    rewrite (ref_remove_node p s cs fl lg nd Hnd Hd') in Hrun.
    injection Hrun as <-. simpl. fold k.
    split_and!; try done;
      [split|exists [Remove p]; split; [done|constructor; [simpl; done|constructor]]].
    + intros [|n ns].
      * rewrite app_nil_r. apply lookup_delete_eq.
      * rewrite lookup_delete_ne by (symmetry; apply app_cons_ne).
        by eapply wf_leaf.
    + intros k' Hk'. apply lookup_delete_ne. intros <-. by apply Hk'.
Qed.

(** The recursion budget covers the subtree at [k]. *)
Definition fits (s : Ref.fs) (k : list string) (fuel : nat) : Prop :=
  ∀ k', k `prefix_of` k' → is_Some (s !! k') → (length k' < length k + fuel)%nat.

Lemma fits_child (s s1 : Ref.fs) k n fuel :
  fits s k (S fuel) →
  (∀ q, s1 !! q = None ∨ s1 !! q = s !! q) →
  fits s1 (k ++ [n]) fuel.
Proof.
  intros Hf Hsub k' Hp Hk'. rewrite length_app. simpl.
  assert (is_Some (s !! k')) as Hs.
  { destruct (Hsub k') as [E|E]; rewrite E in Hk'; [by destruct Hk'|done]. }
  specialize (Hf k' (prefix_snoc_trans _ _ _ Hp) Hs). lia.
Qed.

(** With budget for the subtree, the removal of a node of a well-formed
    store returns normally. *)
Lemma remote_delete_returns fuel :
  ∀ (p : string) (a : SFTPAttributes) (s : Ref.fs) cs fl lg (nd : Ref.rnode),
    wf s → s !! Ref.resolve p = Some nd → r_mode a = Ref.n_mode nd →
    fits s (Ref.resolve p) fuel →
    ∃ w', remote_delete Ref.server fuel p a (World s cs fl lg) = (inr tt, w').
Proof.
  induction fuel as [|fuel IH]; intros p a s cs fl lg nd Hwf Hnd Hmode Hfit.
  { specialize (Hfit (Ref.resolve p) (reflexivity _) (mk_is_Some _ _ Hnd)). lia. }
  rewrite remote_delete_S. set (k := Ref.resolve p) in *.
  destruct (S_ISDIR (r_mode a)) eqn:Hd.
  - assert (S_ISDIR (Ref.n_mode nd) = true) as Hd' by by rewrite <- Hmode.
    unfold bind at 1, sftp_listdir_attr, issue.
    cbn [srv_listdir_attr Ref.server remote]. unfold Ref.listdir_attr.
    fold k. rewrite Hnd, Hd'. world_red. unfold bind.
    edestruct (for_each_returns
                 (λ item, remote_delete Ref.server fuel (join p (filename item)) item)
                 (children_deleted k s (cs ++ [Listdir_attr p]) fl lg)
                 (Ref.children s k)) as (w2 & -> & HI).
    + by apply children_deleted_start.
    + intros done x rest w1 Hxs HI.
      destruct (child_untouched k s _ fl lg done x rest w1 Hwf Hxs HI)
        as (n & ndx & -> & Hsimple & Hn & Hfresh & Hn1).
      assert (Ref.resolve (join p n) = k ++ [n]) as Hres
        by by apply resolve_join_simple.
      destruct w1 as [s1 cs1 fl1 lg1]. simpl in Hn1.
      destruct (IH (join p n) (Ref.attrs_of n ndx) s1 cs1 fl1 lg1 ndx)
        as [w3 Hw3]; [apply HI|by rewrite Hres|done| |].
      { rewrite Hres. eapply fits_child; [done|]. apply HI. }
      exists w3. split; [done|].
      eapply (delete_child_ok fuel p); [apply remote_delete_ok|done..].
    + destruct (children_deleted_all _ _ _ _ _ _ Hwf HI) as (Hgone & _ & Hk).
      destruct w2 as [s2 cs2 fl2 lg2]. simpl in *.
      unfold sftp_rmdir, issue. cbn [srv_rmdir Ref.server remote].
      unfold Ref.rmdir. fold k. rewrite Hk, Hnd, Hd'.
      rewrite (proj2 (children_nil s2 k)); [by eexists|].
      intros n. by apply Hgone.
  - assert (S_ISDIR (Ref.n_mode nd) = false) as Hd' by by rewrite <- Hmode.
    rewrite (ref_remove_node p s cs fl lg nd Hnd Hd'). by eexists.
Qed.

(** ** The deletion pass on the reference server *)

Definition root_key (self : SFTPClone) : list string :=
  Ref.resolve (remote_path self).

(** The local counterpart of the entry [n] of the directory [ds]. *)
Definition entry_lpath (self : SFTPClone) (ds : list string) (n : string) : string :=
  join (join (local_path self) (rel_of ds)) n.

Definition must_delete (self : SFTPClone) (ds : list string) (n : string)
    (nd : Ref.rnode) : bool :=
  _must_be_deleted self (entry_lpath self ds n) (Ref.attrs_of n nd).

(** The node reached from the directory [ds] through the names [ns] is to
    go: it, or a node on the way to it, must be deleted. *)
Fixpoint doomed (self : SFTPClone) (s : Ref.fs) (ds ns : list string) : bool :=
  match ns with
  | [] => false
  | n :: ns' =>
      match s !! ((root_key self ++ ds) ++ [n]) with
      | Some nd => must_delete self ds n nd || doomed self s (ds ++ [n]) ns'
      | None => false
      end
  end.

(** [s'] is [s] after the deletion pass over the directory [ds]. *)
Definition pass_result (self : SFTPClone) (ds : list string) (s s' : Ref.fs) : Prop :=
  (∀ ns, s' !! ((root_key self ++ ds) ++ ns)
         = if doomed self s ds ns then None else s !! ((root_key self ++ ds) ++ ns)) ∧
  (∀ k', ¬ (root_key self ++ ds) `prefix_of` k' → s' !! k' = s !! k').

(** What the pass over the directory at [d] may ask: listings of directories
    at or below [d]; [lstat] and removals strictly below [d]. *)
Definition walk_call_ok (s : Ref.fs) (d : list string) (c : call) : Prop :=
  match c with
  | Listdir_attr q =>
      d `prefix_of` Ref.resolve q ∧ Ref.is_dir_at s (Ref.resolve q) = true
  | Lstat q | Remove q | Rmdir q => ∃ n ns, Ref.resolve q = d ++ n :: ns
  | _ => False
  end.

Lemma check_for_deletion_S srv self fuel relative_path :
  check_for_deletion srv self (S fuel) relative_path
  = let rpath := join (remote_path self) relative_path in
    let lpath := join (local_path self) relative_path in
    let* listing := sftp_listdir_attr srv rpath in
    for_each listing (λ remote_st,
      let* r_lstat := sftp_lstat srv (join rpath (filename remote_st)) in
      let inner_remote_path := join rpath (filename remote_st) in
      let inner_local_path := join lpath (filename remote_st) in
      if S_ISLNK (r_mode r_lstat) then
        if _must_be_deleted self inner_local_path r_lstat
        then remote_delete srv fuel inner_remote_path r_lstat
        else ret tt
      else if _must_be_deleted self inner_local_path remote_st then
        remote_delete srv fuel inner_remote_path remote_st
      else if S_ISDIR (r_mode remote_st) then
        check_for_deletion srv self fuel (join relative_path (filename remote_st))
      else ret tt).
Proof. reflexivity. Qed.

Lemma must_be_deleted_mode self lp a b :
  r_mode a = r_mode b → _must_be_deleted self lp a = _must_be_deleted self lp b.
Proof. intros E. unfold _must_be_deleted. by rewrite E. Qed.

Lemma doomed_ext (self : SFTPClone) (s s' : Ref.fs) (ds ns : list string) :
  (∀ ms, ms ≠ [] → s' !! ((root_key self ++ ds) ++ ms) = s !! ((root_key self ++ ds) ++ ms)) →
  doomed self s' ds ns = doomed self s ds ns.
Proof.
  revert ds. induction ns as [|n ns IH]; intros ds H; simpl; [done|].
  rewrite (H [n]) by done.
  destruct (s !! ((root_key self ++ ds) ++ [n])) as [nd|]; [|done].
  f_equal. apply IH. intros ms Hms.
  rewrite !(app_assoc _ ds [n]), <- !(app_assoc _ [n] ms). by apply H.
Qed.

Lemma doomed_leaf (self : SFTPClone) (s : Ref.fs) (ds ns : list string) nd :
  wf s → s !! (root_key self ++ ds) = Some nd → S_ISDIR (Ref.n_mode nd) = false →
  doomed self s ds ns = false.
Proof.
  intros Hwf Hl Hd. destruct ns as [|n ns]; simpl; [done|].
  by rewrite (wf_leaf s _ [n] nd Hwf Hl Hd).
Qed.

Lemma walk_call_ok_del (s s' : Ref.fs) d n c :
  (∀ q, Ref.is_dir_at s' q = true → Ref.is_dir_at s q = true) →
  del_call_ok s' (d ++ [n]) c → walk_call_ok s d c.
Proof.
  intros Hs. destruct c; simpl; try done.
  - intros [H1 H2]. split; [by eapply prefix_snoc_trans|auto].
  - intros [ns E]. exists n, ns. by rewrite E, <- app_assoc.
  - intros [ns E]. exists n, ns. by rewrite E, <- app_assoc.
Qed.

Lemma walk_call_ok_sub (s s' : Ref.fs) d n c :
  (∀ q, Ref.is_dir_at s' q = true → Ref.is_dir_at s q = true) →
  walk_call_ok s' (d ++ [n]) c → walk_call_ok s d c.
Proof.
  intros Hs. destruct c; simpl; try done.
  - intros [H1 H2]. split; [by eapply prefix_snoc_trans|auto].
  - intros (m & ns & E). exists n, (m :: ns). by rewrite E, <- app_assoc.
  - intros (m & ns & E). exists n, (m :: ns). by rewrite E, <- app_assoc.
  - intros (m & ns & E). exists n, (m :: ns). by rewrite E, <- app_assoc.
Qed.

Lemma doomed_app_false (self : SFTPClone) (s : Ref.fs) (ds ms ms' : list string) :
  doomed self s ds (ms ++ ms') = false → doomed self s ds ms = false.
Proof.
  revert ds. induction ms as [|m ms IH]; intros ds; simpl; [done|].
  destruct (s !! ((root_key self ++ ds) ++ [m])); [|done].
  intros [-> ?]%orb_false_iff. simpl. by apply IH.
Qed.

Lemma wf_pass_result (self : SFTPClone) (ds : list string) (s s' : Ref.fs) :
  wf s → pass_result self ds s s' → wf s'.
Proof.
  intros Hwf [Hin Hout]. set (d := root_key self ++ ds) in *. split.
  - intros k nd Hl. destruct (decide (d `prefix_of` k)) as [[ns ->]|Hk].
    + rewrite Hin in Hl. destruct (doomed self s ds ns); [done|].
      by eapply (proj1 Hwf).
    + rewrite Hout in Hl by done. by eapply (proj1 Hwf).
  - intros k m nd Hl. unfold Ref.is_dir_at.
    destruct (decide (d `prefix_of` k)) as [[ms ->]|Hk].
    + rewrite <- app_assoc in Hl. rewrite Hin in Hl.
      destruct (doomed self s ds (ms ++ [m])) eqn:Hdm; [done|].
      rewrite Hin, (doomed_app_false _ _ _ _ _ Hdm).
      rewrite app_assoc in Hl. by apply (proj2 Hwf) in Hl.
    + rewrite Hout by done.
      destruct (decide (d `prefix_of` (k ++ [m]))) as [[ns E]|Hkm].
      * destruct ns as [|m' ns _] using rev_ind.
        -- rewrite app_nil_r in E. rewrite E in Hl.
           specialize (Hin []). rewrite app_nil_r in Hin. simpl in Hin.
           rewrite Hin, <- E in Hl. by apply (proj2 Hwf) in Hl.
        -- rewrite app_assoc in E. apply app_inj_tail in E as [-> ->].
           exfalso. apply Hk. by exists ns.
      * rewrite Hout in Hl by done. by apply (proj2 Hwf) in Hl.
Qed.

(** What handling one listed entry does to the store. *)
Definition entry_result (self : SFTPClone) (ds : list string) (n : string)
    (s0 s1 s2 : Ref.fs) : Prop :=
  (∀ ns, s2 !! ((root_key self ++ ds) ++ n :: ns)
         = if doomed self s0 ds (n :: ns) then None
           else s0 !! ((root_key self ++ ds) ++ n :: ns)) ∧
  (∀ k', ¬ ((root_key self ++ ds) ++ [n]) `prefix_of` k' → s2 !! k' = s1 !! k').

(** The body of the loop of [check_for_deletion]. *)
Definition check_entry srv (self : SFTPClone) (fuel : nat) (relative_path : string)
    (remote_st : SFTPAttributes) : M (srv_state srv) unit :=
  let rpath := join (remote_path self) relative_path in
  let lpath := join (local_path self) relative_path in
  let* r_lstat := sftp_lstat srv (join rpath (filename remote_st)) in
  let inner_remote_path := join rpath (filename remote_st) in
  let inner_local_path := join lpath (filename remote_st) in
  if S_ISLNK (r_mode r_lstat) then
    if _must_be_deleted self inner_local_path r_lstat
    then remote_delete srv fuel inner_remote_path r_lstat
    else ret tt
  else if _must_be_deleted self inner_local_path remote_st then
    remote_delete srv fuel inner_remote_path remote_st
  else if S_ISDIR (r_mode remote_st) then
    check_for_deletion srv self fuel (join relative_path (filename remote_st))
  else ret tt.

Lemma check_for_deletion_loop srv self fuel relative_path :
  check_for_deletion srv self (S fuel) relative_path
  = (let* listing := sftp_listdir_attr srv (join (remote_path self) relative_path) in
     for_each listing (check_entry srv self fuel relative_path)).
Proof. reflexivity. Qed.

(** The state of the loop of [check_for_deletion] over the entries of the
    directory [ds], once the entries [done] are handled. *)
Definition entries_checked (self : SFTPClone) (ds : list string) (s : Ref.fs)
    (cs : list call) (fl : list (call * exn)) (lg : list log_record)
    (done : list SFTPAttributes) (w_i : world Ref.fs) : Prop :=
  let d := root_key self ++ ds in
  wf (remote w_i) ∧
  (∀ q, remote w_i !! q = None ∨ remote w_i !! q = s !! q) ∧
  (∀ x ns, x ∈ done →
     remote w_i !! (d ++ filename x :: ns)
     = if doomed self s ds (filename x :: ns) then None
       else s !! (d ++ filename x :: ns)) ∧
  (∀ k', (∀ x, x ∈ done → ¬ (d ++ [filename x]) `prefix_of` k') →
         remote w_i !! k' = s !! k') ∧
  failed w_i = fl ∧ logged w_i = lg ∧
  ∃ tr, calls w_i = cs ++ tr ∧ Forall (walk_call_ok s d) tr.

Lemma entries_checked_start self ds (s : Ref.fs) cs fl lg :
  wf s → entries_checked self ds s cs fl lg [] (World s cs fl lg).
Proof.
  intros Hwf. unfold entries_checked. simpl.
  split_and!; try done; [by right| |exists []; by rewrite app_nil_r].
  intros x ns Hx. by apply elem_of_nil in Hx.
Qed.

(** The entry the loop comes to is as it was, with all below it. *)
Lemma entry_untouched self ds (s : Ref.fs) cs fl lg done x rest
    (w1 : world Ref.fs) :
  let d := root_key self ++ ds in
  wf s → Ref.children s d = done ++ x :: rest →
  entries_checked self ds s cs fl lg done w1 →
  ∃ n ndx, x = Ref.attrs_of n ndx ∧ simple n ∧
           s !! (d ++ [n]) = Some ndx ∧
           (n ∉ filename <$> done) ∧
           ∀ ms, remote w1 !! ((d ++ [n]) ++ ms) = s !! ((d ++ [n]) ++ ms).
Proof.
  intros d Hwf Hxs HI. unfold entries_checked in HI. cbv zeta in HI.
  fold d in HI. destruct HI as (Hwf1 & Hsub & Hdone & Hkept & _).
  assert (x ∈ Ref.children s d) as Hx
    by (rewrite Hxs; apply elem_of_app; right; left).
  apply elem_of_children in Hx as (n & ndx & Hn & ->).
  exists n, ndx. pose proof (wf_names _ _ _ _ Hwf Hn) as Hsimple.
  assert (n ∉ filename <$> done) as Hfresh.
  { pose proof (children_names_NoDup s d) as Hnd'. rewrite Hxs in Hnd'.
    rewrite fmap_app, fmap_cons in Hnd'. simpl in Hnd'.
    apply NoDup_app in Hnd' as (_ & Hd' & _). intros Hin.
    apply (Hd' _ Hin). left. }
  split_and!; try done.
  intros ms. apply Hkept. intros x Hx Hp.
  rewrite <- app_assoc in Hp.
  apply (prefix_snoc_inv d ms (filename x) n) in Hp.
  apply Hfresh. apply list_elem_of_fmap. eauto.
Qed.

(** One round of the loop of [check_for_deletion]. *)
Lemma check_entry_ok (self : SFTPClone) fuel (ds : list string) (s : Ref.fs)
    cs fl lg done x rest (w1 w3 : world Ref.fs) :
  (∀ (ds : list string) (s : Ref.fs) cs fl lg (w' : world Ref.fs),
     wf s → Forall simple ds →
     check_for_deletion Ref.server self fuel (rel_of ds) (World s cs fl lg)
     = (inr tt, w') →
     pass_result self ds s (remote w') ∧
     failed w' = fl ∧ logged w' = lg ∧
     ∃ tr, calls w' = cs ++ tr ∧ Forall (walk_call_ok s (root_key self ++ ds)) tr) →
  wf s → Forall simple ds →
  Ref.children s (root_key self ++ ds) = done ++ x :: rest →
  entries_checked self ds s cs fl lg done w1 →
  check_entry Ref.server self fuel (rel_of ds) x w1 = (inr tt, w3) →
  entries_checked self ds s cs fl lg (done ++ [x]) w3.
Proof.
  intros IH Hwf Hds Hxs HI Hbody.
  destruct (entry_untouched self ds s cs fl lg done x rest w1 Hwf Hxs HI)
    as (n & ndx & -> & Hsimple & Hn & Hfresh & Hagree).
  unfold entries_checked in *. cbv zeta in *.
  set (d := root_key self ++ ds) in *.
  set (rp := join (remote_path self) (rel_of ds)) in *.
  assert (Ref.resolve rp = d) as Hrp by by apply resolve_dir.
  destruct w1 as [s1 cs1 fl1 lg1].
  destruct HI as (Hwf1 & Hsub & Hdone & Hkept & Hfl & Hlg & tr & Htr & Hok).
  unfold check_entry in Hbody. cbv zeta in Hbody. fold rp in Hbody.
  simpl in *. subst fl1 lg1.
  assert (s1 !! (d ++ [n]) = Some ndx) as Hn1.
  { specialize (Hagree []). rewrite !app_nil_r in Hagree. by rewrite Hagree. }
  assert (Ref.resolve (join rp n) = d ++ [n]) as Hres
    by (rewrite resolve_join_simple by done; by rewrite Hrp).
  assert (∀ q, Ref.is_dir_at s1 q = true → Ref.is_dir_at s q = true) as Hdirs.
  { intros q. unfold Ref.is_dir_at. destruct (Hsub q) as [->| ->]; done. }
  (* the entry's own attributes *)
  bind_ok Hbody Hls.
  apply ref_lstat_ok in Hls as ((nd1 & Hnd1 & ->) & ->).
  rewrite Hres, Hn1 in Hnd1. injection Hnd1 as <-.
  rewrite (must_be_deleted_mode self _ (Ref.attrs_of "" ndx) (Ref.attrs_of n ndx))
    in Hbody by done.
  change (_must_be_deleted self (join (join (local_path self) (rel_of ds)) n)
            (Ref.attrs_of n ndx)) with (must_delete self ds n ndx) in Hbody.
  simpl in Hbody.
  (* what happens to the store below the entry *)
  assert (entry_result self ds n s s1 (remote w3) ∧ wf (remote w3) ∧
          failed w3 = fl ∧ logged w3 = lg ∧
          ∃ tr3, calls w3 = (cs1 ++ [Lstat (join rp n)]) ++ tr3
                 ∧ Forall (walk_call_ok s d) tr3) as (Hent & Hwf3 & ? & ? & tr3 & Htr3 & Hok3).
  { unfold entry_result. fold d. simpl. fold d. rewrite Hn.
    destruct (must_delete self ds n ndx) eqn:Hmust; simpl.
    - (* to be deleted, link or not *)
      assert (∃ a, r_mode a = Ref.n_mode ndx ∧
                remote_delete Ref.server fuel (join rp n) a
                  (World s1 (cs1 ++ [Lstat (join rp n)]) fl lg) = (inr tt, w3))
        as (a & Ha & Hdel).
      { destruct (S_ISLNK (Ref.n_mode ndx));
          [exists (Ref.attrs_of "" ndx)|exists (Ref.attrs_of n ndx)]; by split. }
      rewrite <- Hres in Hn1.
      destruct (remote_delete_ok fuel _ _ _ _ _ _ _ _ Hwf1 Hn1 Ha Hdel)
        as (Hrem & ? & ? & tr3 & Htr3 & Hok3).
      rewrite Hres in Hrem, Hok3.
      split_and!; try done.
      + intros ns. change (d ++ n :: ns) with (d ++ [n] ++ ns).
        rewrite app_assoc. apply Hrem.
      + apply Hrem.
      + by eapply wf_subtree_removed.
      + exists tr3. split; [done|].
        eapply Forall_impl; [exact Hok3|]. intros c. by apply walk_call_ok_del.
    - destruct (S_ISLNK (Ref.n_mode ndx)) eqn:Hlnk;
        [|destruct (S_ISDIR (Ref.n_mode ndx)) eqn:Hisdir].
      + (* a link that stays *)
        injection Hbody as <-. simpl.
        split_and!; try done; [|exists []; by rewrite app_nil_r].
        intros ns. change (d ++ n :: ns) with (d ++ [n] ++ ns).
        rewrite app_assoc, Hagree.
        erewrite (doomed_leaf self s (ds ++ [n])); [done|done| |].
        * rewrite app_assoc. exact Hn.
        * destruct (S_ISDIR (Ref.n_mode ndx)) eqn:Hisdir; [|done].
          by rewrite (S_ISDIR_not_lnk _ Hisdir) in Hlnk.
      + (* a directory that stays: go down *)
        rewrite <- rel_of_snoc in Hbody.
        assert (Forall simple (ds ++ [n])) as Hds'
          by (apply Forall_app; split; [done|by constructor]).
        destruct (IH _ _ _ _ _ _ Hwf1 Hds' Hbody)
          as ([Hin Hout] & ? & ? & tr3 & Htr3 & Hok3).
        rewrite (app_assoc _ ds [n]) in Hin, Hout, Hok3. fold d in Hin, Hout, Hok3.
        assert (wf (remote w3)) as Hwf3.
        { apply (wf_pass_result self (ds ++ [n]) s1); [done|].
          split; rewrite (app_assoc _ ds [n]); by fold d. }
        split_and!; try done.
        * intros ns. change (d ++ n :: ns) with (d ++ [n] ++ ns).
          rewrite app_assoc, Hin, Hagree.
          erewrite doomed_ext; [done|]. intros ms _.
          rewrite (app_assoc _ ds [n]). fold d. apply Hagree.
        * exists tr3. split; [done|].
          eapply Forall_impl; [exact Hok3|]. intros c. by apply walk_call_ok_sub.
      + (* any other node that stays *)
        injection Hbody as <-. simpl.
        split_and!; try done; [|exists []; by rewrite app_nil_r].
        intros ns. change (d ++ n :: ns) with (d ++ [n] ++ ns).
        rewrite app_assoc, Hagree.
        erewrite (doomed_leaf self s (ds ++ [n])); [done|done| |done].
        rewrite app_assoc. exact Hn. }
  destruct Hent as [Hin Hout].
  split; [done|].
  split; [|split; [|split; [|split; [done|split; [done|]]]]].
  + intros q. destruct (decide ((d ++ [n]) `prefix_of` q)) as [[ns ->]|Hq].
    * rewrite <- app_assoc. simpl. rewrite Hin.
      destruct (doomed self s ds (n :: ns)); auto.
    * rewrite (Hout q Hq). apply Hsub.
  + intros x ns [Hx| ->%list_elem_of_singleton]%elem_of_app.
    * destruct (decide ((d ++ [n]) `prefix_of` (d ++ filename x :: ns)))
        as [Hp|Hq].
      -- apply prefix_snoc_inv in Hp. subst n. apply Hin.
      -- rewrite (Hout _ Hq). by apply Hdone.
    * simpl. apply Hin.
  + intros k' Hk'. rewrite Hout.
    * apply Hkept. intros x Hx. apply Hk'. apply elem_of_app. by left.
    * apply (Hk' (Ref.attrs_of n ndx)). apply elem_of_app. right. left.
  + exists (tr ++ [Lstat (join rp n)] ++ tr3).
    split; [by rewrite Htr3, Htr, <- !app_assoc|].
    apply Forall_app. split; [done|].
    apply Forall_app. split; [|done].
    constructor; [|constructor]. simpl. exists n, []. done.
Qed.

(** The deletion pass over one directory, when it returns. *)
Lemma check_for_deletion_ok (self : SFTPClone) fuel :
  ∀ (ds : list string) (s : Ref.fs) cs fl lg (w' : world Ref.fs),
    wf s → Forall simple ds →
    check_for_deletion Ref.server self fuel (rel_of ds) (World s cs fl lg)
    = (inr tt, w') →
    pass_result self ds s (remote w') ∧
    failed w' = fl ∧ logged w' = lg ∧
    ∃ tr, calls w' = cs ++ tr ∧ Forall (walk_call_ok s (root_key self ++ ds)) tr.
Proof.
  induction fuel as [|fuel IH]; intros ds s cs fl lg w' Hwf Hds Hrun;
    [discriminate Hrun|].
  rewrite check_for_deletion_loop in Hrun.
  set (d := root_key self ++ ds) in *.
  set (rp := join (remote_path self) (rel_of ds)) in *.
  assert (Ref.resolve rp = d) as Hrp by by apply resolve_dir.
  bind_ok Hrun Hl.
  apply ref_listdir_attr_ok in Hl as (-> & Hdir & ->). rewrite Hrp in Hdir, Hrun.
  apply for_each_invariant with
    (I := entries_checked self ds s (cs ++ [Listdir_attr rp]) fl lg) in Hrun;
    [|by apply entries_checked_start
     |intros done x rest w1 w3 Hxs HI Hbody; by eapply (check_entry_ok self fuel ds)].
  unfold entries_checked in Hrun. cbv zeta in Hrun. fold d in Hrun.
  destruct Hrun as (Hwf2 & Hsub & Hdone & Hkept & Hfl & Hlg & tr & Htr & Hok).
  split_and!; try done; [split|exists ([Listdir_attr rp] ++ tr)].
  + intros [|n ns].
    * simpl. rewrite app_nil_r. apply Hkept. intros x _ Hp.
      destruct Hp as [ms E]. apply (app_cons_ne d (filename x) ms).
      fold d in E. rewrite <- app_assoc in E. done.
    * destruct (s !! (d ++ [n])) as [ndn|] eqn:En.
      { apply (Hdone (Ref.attrs_of n ndn)). apply elem_of_children. eauto. }
      simpl. fold d. rewrite En.
      destruct (Hsub (d ++ n :: ns)) as [E|E]; rewrite E; [|done].
      destruct ns as [|m ns]; [done|].
      destruct (s !! (d ++ n :: m :: ns)) as [nd'|] eqn:E'; [|done].
      change (d ++ n :: m :: ns) with (d ++ [n] ++ m :: ns) in E'.
      rewrite app_assoc in E'.
      apply wf_ancestor in E'; [|done..].
      apply is_dir_at_Some in E' as (? & ? & _). congruence.
  + intros k' Hk'. apply Hkept. intros x _ Hp.
    by apply Hk', (prefix_snoc_trans _ _ (filename x)).
  + split; [by rewrite Htr, <- !app_assoc|].
    apply Forall_app. split; [|done].
    constructor; [|constructor]. simpl. by rewrite Hrp.
Qed.

(** [_must_be_deleted], in words: no local entry, or one whose file type
    bits differ. *)
Lemma must_be_deleted_spec (self : SFTPClone) lp a :
  _must_be_deleted self lp a = true ↔
  os_lstat (os self) lp = None ∨
  ∃ l_st, os_lstat (os self) lp = Some l_st ∧ S_IFMT (st_mode l_st) ≠ S_IFMT (r_mode a).
Proof.
  unfold _must_be_deleted, os_lexists.
  destruct (os_lstat (os self) lp) as [l_st|] eqn:E.
  - rewrite bool_decide_eq_true_2 by eauto. simpl.
    destruct (Z.eqb_spec (S_IFMT (r_mode a)) (S_IFMT (st_mode l_st))) as [Heq|Hne]; simpl.
    + split; [done|]. intros [?|(? & [= <-] & ?)]; [done|congruence].
    + split; [|done]. intros _. right. exists l_st. split; [done|congruence].
  - rewrite bool_decide_eq_false_2 by (by intros [? ?]). simpl. split; auto.
Qed.

Lemma doomed_snoc (self : SFTPClone) (s : Ref.fs) (ds0 ds : list string) n nd :
  wf s → s !! ((root_key self ++ ds0 ++ ds) ++ [n]) = Some nd →
  doomed self s ds0 (ds ++ [n])
  = doomed self s ds0 ds || must_delete self (ds0 ++ ds) n nd.
Proof.
  intros Hwf. revert ds0. induction ds as [|m ds IH]; intros ds0 Hl; simpl.
  - rewrite app_nil_r in *. rewrite Hl. by rewrite orb_false_r.
  - assert (Ref.is_dir_at s ((root_key self ++ ds0) ++ [m]) = true) as Hm.
    { apply (wf_ancestor s _ (ds ++ [n]) nd Hwf); [by destruct ds|].
      rewrite <- Hl. f_equal. by rewrite <- !app_assoc. }
    apply is_dir_at_Some in Hm as (ndm & -> & _).
    rewrite IH.
    + rewrite orb_assoc. do 2 f_equal. by rewrite <- app_assoc.
    + rewrite <- Hl. f_equal. by rewrite <- !app_assoc.
Qed.


(** With budget for the subtree, the deletion pass over a directory of a
    well-formed store returns normally. *)
Lemma check_for_deletion_returns (self : SFTPClone) fuel :
  ∀ (ds : list string) (s : Ref.fs) cs fl lg,
    wf s → Forall simple ds →
    Ref.is_dir_at s (root_key self ++ ds) = true →
    fits s (root_key self ++ ds) fuel →
    ∃ w', check_for_deletion Ref.server self fuel (rel_of ds) (World s cs fl lg)
          = (inr tt, w').
Proof.
  induction fuel as [|fuel IH]; intros ds s cs fl lg Hwf Hds Hdir Hfit.
  { apply is_dir_at_Some in Hdir as (nd & Hnd & _).
    specialize (Hfit _ (reflexivity _) (mk_is_Some _ _ Hnd)). lia. }
  rewrite check_for_deletion_loop.
  set (d := root_key self ++ ds) in *.
  set (rp := join (remote_path self) (rel_of ds)) in *.
  assert (Ref.resolve rp = d) as Hrp by by apply resolve_dir.
  apply is_dir_at_Some in Hdir as (nd & Hnd & Hd).
  unfold bind at 1, sftp_listdir_attr, issue.
  cbn [srv_listdir_attr Ref.server remote]. unfold Ref.listdir_attr.
  rewrite Hrp, Hnd, Hd. world_red.
  edestruct (for_each_returns (S := Ref.fs)
               (check_entry Ref.server self fuel (rel_of ds))
               (entries_checked self ds s (cs ++ [Listdir_attr rp]) fl lg)
               (Ref.children s d)) as (w2 & -> & HI); [| |by eexists].
  { by apply entries_checked_start. }
  intros done x rest w1 Hxs HI.
  destruct (entry_untouched self ds s _ fl lg done x rest w1 Hwf Hxs HI)
    as (n & ndx & -> & Hsimple & Hn & Hfresh & Hagree).
  fold d in Hn, Hagree.
  assert (∃ w3, check_entry Ref.server self fuel (rel_of ds) (Ref.attrs_of n ndx) w1
                = (inr tt, w3)) as [w3 Hw3];
    [|exists w3; split; [done|];
      by eapply (check_entry_ok self fuel ds);
        [apply check_for_deletion_ok|..]].
  destruct w1 as [s1 cs1 fl1 lg1].
  destruct HI as (Hwf1 & Hsub & _). simpl in Hwf1, Hsub, Hagree.
  assert (s1 !! (d ++ [n]) = Some ndx) as Hn1.
  { specialize (Hagree []). rewrite !app_nil_r in Hagree. by rewrite Hagree. }
  assert (Ref.resolve (join rp n) = d ++ [n]) as Hres
    by (rewrite resolve_join_simple by done; by rewrite Hrp).
  assert (fits s1 (d ++ [n]) fuel) as Hfit1 by by eapply fits_child.
  unfold check_entry. cbv zeta. fold rp.
  unfold bind, sftp_lstat, issue. cbn [srv_lstat Ref.server remote].
  unfold Ref.lstat. cbn [filename Ref.attrs_of]. rewrite Hres, Hn1. world_red.
  cbn [r_mode filename Ref.attrs_of].
  assert (∀ a cs', r_mode a = Ref.n_mode ndx →
            ∃ w3, remote_delete Ref.server fuel (join rp n) a (World s1 cs' fl1 lg1)
                  = (inr tt, w3)) as Hdel.
  { intros a cs' Ha. eapply remote_delete_returns; [done| |done|];
      by rewrite Hres. }
  destruct (S_ISLNK (Ref.n_mode ndx)).
  { destruct (_must_be_deleted _ _ _); [by apply Hdel|by eexists]. }
  destruct (_must_be_deleted _ _ _); [by apply Hdel|].
  destruct (S_ISDIR (Ref.n_mode ndx)) eqn:Hdx; [|by eexists].
  rewrite <- rel_of_snoc. apply IH; [done| | |].
  - apply Forall_app. split; [done|by constructor].
  - rewrite app_assoc. fold d. apply is_dir_at_Some. eauto.
  - rewrite app_assoc. by fold d.
Qed.

(** Every store is of bounded depth. *)
Lemma store_height (s : Ref.fs) :
  ∃ h, ∀ k, is_Some (s !! k) → (length k < h)%nat.
Proof.
  induction s as [|k nd s Hk _ [h IH]] using map_first_key_ind.
  - exists O. intros k [? Hl]. by rewrite lookup_empty in Hl.
  - exists (h `max` S (length k))%nat. intros k' Hl.
    destruct (decide (k' = k)) as [->|Hne]; [lia|].
    rewrite lookup_insert_ne in Hl by done. specialize (IH k' Hl). lia.
Qed.

(** The deletion pass returns normally on every well-formed store with a
    directory at the remote root, given enough recursion budget; the store
    it leaves is the one described by [pass_result]. *)
Lemma deletion_pass_returns (self : SFTPClone) (s : Ref.fs) cs fl lg :
  wf s → Ref.is_dir_at s (root_key self) = true →
  ∃ fuel0, ∀ fuel, (fuel0 ≤ fuel)%nat →
    ∃ w', check_for_deletion Ref.server self fuel "" (World s cs fl lg) = (inr tt, w').
Proof.
  intros Hwf Hdir. destruct (store_height s) as [h Hh]. exists h.
  intros fuel Hfuel.
  apply (check_for_deletion_returns self fuel [] s cs fl lg Hwf (Forall_nil_2 _)).
  - by rewrite app_nil_r.
  - intros k' _ Hk'. specialize (Hh k' Hk'). lia.
Qed.

(** The directory at [p] is removed last: it is listed, its entries are
    removed one after the other, and [rmdir] is requested in the store
    [remote w2], where the directory is still there and nothing is left
    below it. *)
Definition children_first (fuel : nat) (p : string) (s : Ref.fs) (cs : list call)
    (fl : list (call * exn)) (lg : list log_record) (nd : Ref.rnode)
    (w' : world Ref.fs) : Prop :=
  ∃ fuel' (w2 : world Ref.fs),
    fuel = S fuel' ∧
    for_each (Ref.children s (Ref.resolve p))
      (λ item, remote_delete Ref.server fuel' (join p (filename item)) item)
      (World s (cs ++ [Listdir_attr p]) fl lg) = (inr tt, w2) ∧
    (∀ ns, ns ≠ [] → remote w2 !! (Ref.resolve p ++ ns) = None) ∧
    remote w2 !! Ref.resolve p = Some nd ∧
    calls w' = calls w2 ++ [Rmdir p] ∧
    remote w' = delete (Ref.resolve p) (remote w2) ∧
    failed w' = fl.

(** C8.  Recursive removal of a remote directory on the reference server
    returns normally, given enough recursion budget; and whenever it
    returns, the directory was listed, its entries were removed one after
    the other, and only then was [rmdir] requested, in a store where the
    directory is still there and nothing is left below it; no call of the
    removal has failed.  The same holds, level by level, for the
    directories removed on the way, which are removed by the same
    function. *)
Theorem remote_delete_children_first
    (p : string) (a : SFTPAttributes) (s : Ref.fs) (cs : list call)
    (fl : list (call * exn)) (lg : list log_record) (nd : Ref.rnode) :
  wf s → s !! Ref.resolve p = Some nd → r_mode a = Ref.n_mode nd →
  S_ISDIR (Ref.n_mode nd) = true →
  (∃ fuel0, ∀ fuel, (fuel0 ≤ fuel)%nat →
     ∃ w', remote_delete Ref.server fuel p a (World s cs fl lg) = (inr tt, w')) ∧
  ∀ fuel (w' : world Ref.fs),
    remote_delete Ref.server fuel p a (World s cs fl lg) = (inr tt, w') →
    children_first fuel p s cs fl lg nd w'.
Proof.
  intros Hwf Hnd Hmode Hdir. split.
  { destruct (store_height s) as [h Hh]. exists h. intros fuel Hfuel.
    apply (remote_delete_returns fuel p a s cs fl lg nd Hwf Hnd Hmode).
    intros k' _ Hk'. specialize (Hh k' Hk'). lia. }
  intros fuel w' Hrun.
  destruct fuel as [|fuel]; [discriminate Hrun|].
  rewrite remote_delete_S in Hrun. rewrite Hmode, Hdir in Hrun.
  bind_ok Hrun Hl.
  apply ref_listdir_attr_ok in Hl as (-> & _ & ->).
  bind_ok Hrun Hloop.
  match goal with w : world _ |- _ => rename w into w2 end.
  exists fuel, w2. split; [done|]. split; [done|].
  apply (delete_children_ok fuel p s _ fl lg w2 (remote_delete_ok fuel) Hwf) in Hloop.
  destruct (children_deleted_all _ _ _ _ _ _ Hwf Hloop) as (Hgone & _ & Hk).
  destruct Hloop as (_ & _ & _ & _ & Hfl & _).
  destruct w2 as [s2 cs2 fl2 lg2]. simpl in *.
  apply ref_rmdir_ok in Hrun as (_ & _ & ->). simpl.
  split_and!; try done. congruence.
Qed.

(** ** Which entries the deletion pass removes *)

(** An entry the walk reaches (no node on the way to it is deleted) is gone
    after the pass exactly when [_must_be_deleted] says so. *)
Lemma entry_deleted_iff (self : SFTPClone) (fuel : nat) (s : Ref.fs)
    (cs : list call) (fl : list (call * exn)) (lg : list log_record)
    (w' : world Ref.fs) (ds : list string) (n : string) (nd : Ref.rnode) :
  wf s →
  check_for_deletion Ref.server self fuel "" (World s cs fl lg) = (inr tt, w') →
  s !! (root_key self ++ ds ++ [n]) = Some nd →
  doomed self s [] ds = false →
  remote w' !! (root_key self ++ ds ++ [n])
  = if must_delete self ds n nd then None else Some nd.
Proof.
  intros Hwf Hrun Hnd Hreach.
  destruct (check_for_deletion_ok self fuel [] s cs fl lg w' Hwf
              (Forall_nil_2 simple) Hrun) as ([Hin _] & _).
  specialize (Hin (ds ++ [n])). rewrite app_nil_r in Hin. rewrite Hin.
  rewrite (doomed_snoc self s [] ds n nd Hwf) by (by rewrite app_assoc in Hnd).
  rewrite Hreach. simpl. by rewrite Hnd.
Qed.

(** C1 (as amended).  On a well-formed store with a directory at the
    remote root the deletion pass returns normally, given enough recursion
    budget; and whenever it returns, every entry it has reached while
    walking the remote tree is deleted if and only if no local entry exists
    at the corresponding local path ([lexists], so a dangling local link
    counts as existing), or one exists whose file-type bits ([S_IFMT])
    differ from the remote entry's. *)
Theorem deletion_decision (self : SFTPClone) (s : Ref.fs)
    (cs : list call) (fl : list (call * exn)) (lg : list log_record)
    (ds : list string) (n : string) (nd : Ref.rnode) :
  wf s → Ref.is_dir_at s (root_key self) = true →
  s !! (root_key self ++ ds ++ [n]) = Some nd →
  doomed self s [] ds = false →
  (∃ fuel0, ∀ fuel, (fuel0 ≤ fuel)%nat →
     ∃ w', check_for_deletion Ref.server self fuel "" (World s cs fl lg)
           = (inr tt, w')) ∧
  ∀ fuel (w' : world Ref.fs),
    check_for_deletion Ref.server self fuel "" (World s cs fl lg) = (inr tt, w') →
    remote w' !! (root_key self ++ ds ++ [n]) = None ↔
    os_lexists (os self) (entry_lpath self ds n) = false ∨
    ∃ l_st, os_lstat (os self) (entry_lpath self ds n) = Some l_st ∧
            S_IFMT (st_mode l_st) ≠ S_IFMT (Ref.n_mode nd).
Proof.
  intros Hwf Hroot Hnd Hreach.
  split; [by apply deletion_pass_returns|]. intros fuel w' Hrun.
  rewrite (entry_deleted_iff self fuel s cs fl lg w' ds n nd Hwf Hrun Hnd Hreach).
  pose proof (must_be_deleted_spec self (entry_lpath self ds n) (Ref.attrs_of n nd))
    as Hspec. fold (must_delete self ds n nd) in Hspec. simpl in Hspec.
  assert (os_lexists (os self) (entry_lpath self ds n) = false
          ↔ os_lstat (os self) (entry_lpath self ds n) = None) as ->.
  { unfold os_lexists. destruct (os_lstat _ _) as [l|].
    - rewrite bool_decide_eq_true_2 by eauto. done.
    - rewrite bool_decide_eq_false_2 by (by intros [? ?]). done. }
  destruct (must_delete self ds n nd).
  - split; [intros _; by apply Hspec|done].
  - split; [done|]. intros H. apply Hspec in H. done.
Qed.

(** What the deletion pass leaves of the links and of the rest of the
    store: [tr] are the calls of the pass, [s] and [s'] the store before and
    after. *)
Definition links_untouched (self : SFTPClone) (s : Ref.fs) (tr : list call)
    (s' : Ref.fs) : Prop :=
  (∀ q nd, Listdir_attr q ∈ tr → s !! Ref.resolve q = Some nd →
           S_ISLNK (Ref.n_mode nd) = false) ∧
  (∀ ds n nd,
     s !! (root_key self ++ ds ++ [n]) = Some nd →
     S_ISLNK (Ref.n_mode nd) = true →
     doomed self s [] ds = false →
     s' !! (root_key self ++ ds ++ [n]) = None ↔
     os_lexists (os self) (entry_lpath self ds n) = false ∨
     ∃ l_st, os_lstat (os self) (entry_lpath self ds n) = Some l_st ∧
             S_ISLNK (st_mode l_st) = false) ∧
  (∀ q, Remove q ∈ tr ∨ Rmdir q ∈ tr →
        ∃ n ns, Ref.resolve q = root_key self ++ n :: ns) ∧
  (∀ k, (∀ n ns, k ≠ root_key self ++ n :: ns) → s' !! k = s !! k).

(** A local node that is a symbolic link. *)
Definition local_is_link (self : SFTPClone) (lp : string) : bool :=
  match os_lstat (os self) lp with
  | Some l_st => S_ISLNK (st_mode l_st)
  | None => false
  end.

(** A remote link is to be deleted exactly when its local counterpart is
    missing or is no link. *)
Lemma must_be_deleted_link self lp r_lstat :
  S_ISLNK (r_mode r_lstat) = true →
  _must_be_deleted self lp r_lstat = negb (local_is_link self lp).
Proof.
  unfold _must_be_deleted, os_lexists, local_is_link, S_ISLNK.
  intros H%Z.eqb_eq. destruct (os_lstat (os self) lp) as [l_st|].
  - rewrite bool_decide_eq_true_2 by eauto. simpl. rewrite H, Z.eqb_sym.
    by destruct (_ =? _).
  - by rewrite bool_decide_eq_false_2 by (by intros [? ?]).
Qed.

(** X15.  On any server, for an entry of a directory the deletion pass
    walks whose own [lstat] says "symbolic link": whatever the listing
    reports of it, the entry is neither listed nor recursed into; nothing
    more is asked when its local counterpart is a link, and otherwise one
    [remove] of the link's own path is, a "not found" of which is logged
    and not raised. *)
Theorem link_entry_guarded srv self fuel relative_path remote_st r_lstat s1
    (w : world (srv_state srv)) :
  let p := join (join (remote_path self) relative_path) (filename remote_st) in
  let lp := join (join (local_path self) relative_path) (filename remote_st) in
  srv_lstat srv p (remote w) = (inr r_lstat, s1) →
  S_ISLNK (r_mode r_lstat) = true →
  check_entry srv self (S fuel) relative_path remote_st w
  = (if local_is_link self lp then ret tt
     else try_except (sftp_remove srv p) is_FileNotFoundError
            (λ _, logger (Log_error p)))
      (World s1 (calls w ++ [Lstat p]) (failed w) (logged w)).
Proof.
  intros p lp El Hl. unfold check_entry. cbv zeta. fold p lp.
  unfold bind, sftp_lstat, issue. rewrite El. world_red. rewrite Hl.
  rewrite (must_be_deleted_link self lp r_lstat Hl).
  destruct (local_is_link self lp); [done|]. simpl negb. cbv iota.
  by rewrite remote_delete_S, (S_ISLNK_not_dir _ Hl).
Qed.

(** X14.  On the reference server, whose listings report each entry's own
    attributes and which resolves no link inside a path, the deletion pass
    returns normally on a well-formed store with a directory at the remote
    root, given enough recursion budget; and whenever it returns: no link
    was listed, a link the walk has reached is deleted exactly when its
    local counterpart is missing or is no link, every removal asked for
    names a path strictly below the remote root, and the store is unchanged
    everywhere else. *)
Theorem reference_server_links_untouched (self : SFTPClone) (s : Ref.fs)
    (cs : list call) (fl : list (call * exn)) (lg : list log_record) :
  wf s → Ref.is_dir_at s (root_key self) = true →
  (∃ fuel0, ∀ fuel, (fuel0 ≤ fuel)%nat →
     ∃ w', check_for_deletion Ref.server self fuel "" (World s cs fl lg)
           = (inr tt, w')) ∧
  ∀ fuel (w' : world Ref.fs),
    check_for_deletion Ref.server self fuel "" (World s cs fl lg) = (inr tt, w') →
    links_untouched self s (calls_since (World s cs fl lg) w') (remote w').
Proof.
  intros Hwf Hroot. split; [by apply deletion_pass_returns|].
  intros fuel w' Hrun. unfold links_untouched.
  destruct (check_for_deletion_ok self fuel [] s cs fl lg w' Hwf
              (Forall_nil_2 simple) Hrun) as ([Hin Hout] & _ & _ & tr' & Htr & Hok).
  rewrite app_nil_r in Hin, Hout, Hok.
  rewrite (calls_since_app (World s cs fl lg) w' tr') by done.
  rewrite Forall_forall in Hok.
  split_and!.
  - intros q nd Hq Hnd. apply Hok in Hq as [_ Hd].
    apply is_dir_at_Some in Hd as (nd' & Hnd' & Hd).
    rewrite Hnd in Hnd'. injection Hnd' as <-. by apply S_ISDIR_not_lnk.
  - intros ds n nd Hnd Hlnk Hreach.
    rewrite (entry_deleted_iff self fuel s cs fl lg w' ds n nd Hwf Hrun Hnd Hreach).
    pose proof (must_be_deleted_spec self (entry_lpath self ds n) (Ref.attrs_of n nd))
      as Hspec. fold (must_delete self ds n nd) in Hspec. simpl in Hspec.
    assert (S_IFMT (Ref.n_mode nd) = S_IFLNK) as Hfmt by by apply Z.eqb_eq.
    unfold os_lexists.
    destruct (must_delete self ds n nd).
    + split; [intros _|done].
      destruct (proj1 Hspec eq_refl) as [E|(l_st & E & Hne)].
      * left. rewrite E. by rewrite bool_decide_eq_false_2 by (by intros [? ?]).
      * right. exists l_st. split; [done|]. unfold S_ISLNK.
        apply Z.eqb_neq. congruence.
    + split; [done|]. intros H. cut (false = true); [done|]. apply Hspec.
      destruct H as [H|(l_st & E & Hl)].
      * left. destruct (os_lstat _ _); [|done].
        by rewrite bool_decide_eq_true_2 in H by eauto.
      * right. exists l_st. split; [done|]. apply Z.eqb_neq in Hl. congruence.
  - intros q [Hq|Hq]; by apply Hok in Hq.
  - intros k Hk. destruct (decide (root_key self `prefix_of` k)) as [[ns ->]|Hp].
    + destruct ns as [|n ns]; [|by destruct (Hk n ns)].
      specialize (Hin []). simpl in Hin. by rewrite app_nil_r in *.
    + by apply Hout.
Qed.

(** ** Checking a concrete store *)

Definition simpleb (n : string) : bool := negb (String.eqb n "") && no_sep n.

Definition wfb (s : Ref.fs) : bool :=
  forallb (λ '(k, _),
     forallb simpleb k &&
     match k with
     | [] => true
     | _ :: _ => Ref.is_dir_at s (removelast k)
     end) (map_to_list s).

Lemma simpleb_sound n : simpleb n = true → simple n.
Proof.
  unfold simpleb, simple. intros [H1 H2]%andb_true_iff. split; [|done].
  apply negb_true_iff in H1. by destruct (String.eqb_spec n "").
Qed.

Lemma wfb_sound (s : Ref.fs) : wfb s = true → wf s.
Proof.
  unfold wfb. rewrite forallb_forall. intros H. split.
  - intros k nd Hl.
    assert (In (k, nd) (map_to_list s)) as Hin
      by by apply list_elem_of_In, elem_of_map_to_list.
    apply H in Hin. apply andb_true_iff in Hin as [Hk _].
    rewrite forallb_forall in Hk. apply Forall_forall. intros n Hn.
    apply simpleb_sound, Hk. by apply list_elem_of_In.
  - intros k n nd Hl.
    assert (In (k ++ [n], nd) (map_to_list s)) as Hin
      by by apply list_elem_of_In, elem_of_map_to_list.
    apply H in Hin. apply andb_true_iff in Hin as [_ Hk].
    rewrite removelast_last in Hk. by destruct k.
Qed.

(** ** A deletion pass, step by step

    Local tree [/a]: a file [keep], a socket [sock], a link [lnk].
    Remote tree [/r]: [keep] (a file), [gone] (a directory holding [x]),
    [sock] (a FIFO), [lnk] and [stale] (links). *)
Definition del_local : list (string * Sample.entry) :=
  [("/a", Sample.dir ["keep"; "sock"; "lnk"]);
   ("/a/keep", Sample.file 1 (Sample.Qz 1));
   ("/a/sock", Sample.special S_IFSOCK);
   ("/a/lnk", Sample.link "keep")].
Definition del_remote : Ref.fs :=
  list_to_map
    [([], Sample.rdir);
     (["r"], Sample.rdir); (["r"; "keep"], Sample.rfile 1 1);
     (["r"; "gone"], Sample.rdir); (["r"; "gone"; "x"], Sample.rfile 1 1);
     (["r"; "sock"], Sample.rspecial S_IFIFO);
     (["r"; "lnk"], Sample.rlink "/elsewhere");
     (["r"; "stale"], Sample.rlink "/r/keep")].
Definition del_engine : SFTPClone := Sample.engine del_local id [] false.
Definition del_world : world Ref.fs :=
  (check_for_deletion Ref.server del_engine 3 "" (Sample.start del_remote)).2.

Example del_world_store :
  dom (remote del_world) = {[ []; ["r"]; ["r"; "keep"]; ["r"; "lnk"] ]}.
Proof. vm_compute. reflexivity. Qed.

Example del_world_calls :
  filter (λ c, is_deletion c = true) (calls del_world)
  = [Remove "/r/sock"; Remove "/r/gone/x"; Rmdir "/r/gone"; Remove "/r/stale"].
Proof. vm_compute. reflexivity. Qed.

(** The spec's node types. *)
Inductive spec_type := Directory | Symbolic_link | Regular_file | Other.

Definition spec_type_of (mode : Z) : spec_type :=
  if S_ISDIR mode then Directory
  else if S_ISLNK mode then Symbolic_link
  else if S_ISREG mode then Regular_file
  else Other.

(** C1 as stated fails where both nodes are of type "other": a local socket
    exists, the remote FIFO has the same type in the spec's terms, and the
    pass deletes the FIFO all the same. *)
Lemma deletion_decision_counterexample :
  del_remote !! ["r"; "sock"] = Some (Sample.rspecial S_IFIFO) ∧
  os_lexists (os del_engine) "/a/sock" = true ∧
  (∃ l_st, os_lstat (os del_engine) "/a/sock" = Some l_st ∧
           spec_type_of (st_mode l_st)
           = spec_type_of (Ref.n_mode (Sample.rspecial S_IFIFO))) ∧
  remote del_world !! ["r"; "sock"] = None.
Proof.
  split_and!; try (vm_compute; reflexivity).
  eexists. split; vm_compute; reflexivity.
Qed.

Lemma deletion_decision_witness :
  remote del_world !! (root_key del_engine ++ [] ++ ["gone"]) = None ↔
  os_lexists (os del_engine) (entry_lpath del_engine [] "gone") = false ∨
  ∃ l_st, os_lstat (os del_engine) (entry_lpath del_engine [] "gone") = Some l_st ∧
          S_IFMT (st_mode l_st) ≠ S_IFMT (Ref.n_mode Sample.rdir).
Proof.
  refine (proj2 (deletion_decision del_engine del_remote [] [] []
                   [] "gone" Sample.rdir _ _ _ _) 3%nat del_world _).
  - apply wfb_sound. vm_compute. reflexivity.
  - vm_compute. reflexivity.
  - vm_compute. reflexivity.
  - vm_compute. reflexivity.
  - vm_compute. reflexivity.
Defined.

Lemma reference_server_links_untouched_witness :
  links_untouched del_engine del_remote
    (calls_since (Sample.start del_remote) del_world) (remote del_world).
Proof.
  refine (proj2 (reference_server_links_untouched del_engine del_remote [] [] [] _ _)
            3%nat del_world _).
  - apply wfb_sound. vm_compute. reflexivity.
  - vm_compute. reflexivity.
  - vm_compute. reflexivity.
Defined.

(** A remote directory [/r/gone] with no local counterpart, holding a link
    [esc] to the directory [/out], outside the remote root [/r]. *)
Definition escape_remote : Ref.fs :=
  list_to_map
    [([], Sample.rdir);
     (["out"], Sample.rdir); (["out"; "keep"], Sample.rfile 1 1);
     (["r"], Sample.rdir); (["r"; "gone"], Sample.rdir);
     (["r"; "gone"; "esc"], Sample.rlink "/out")].

Definition escape_engine : SFTPClone :=
  Sample.engine [("/a", Sample.dir [])] id [] false.

Definition escape_run : (exn + unit) * world Ref.fs :=
  check_for_deletion Following.server escape_engine 5 "" (Sample.start escape_remote).

(** C7.  The deletion pass on a server whose listings follow links.  The
    directory [/r/gone] has no local counterpart; its entry [esc] is a link
    for [lstat], and the listing of [/r/gone] reports it as the directory
    it leads to, [/out].  [check_for_deletion] asks [lstat] of every entry
    it meets, [remote_delete] of none: it takes the listing's word, lists
    the link, removes [/out/keep] through it, outside the remote root, and
    ends on the [rmdir] of the link, which fails. *)
Theorem symlink_followed_through_listing :
  (Following.lstat "/r/gone/esc" escape_remote).1
  = inr (Ref.attrs_of "" (Sample.rlink "/out")) ∧
  S_ISLNK (Ref.n_mode (Sample.rlink "/out")) = true ∧
  escape_remote !! ["out"; "keep"] = Some (Sample.rfile 1 1) ∧
  escape_run.1 = inl (OSError None) ∧
  calls escape_run.2
  = [Listdir_attr "/r/"; Lstat "/r/gone"; Listdir_attr "/r/gone";
     Listdir_attr "/r/gone/esc"; Remove "/r/gone/esc/keep";
     Rmdir "/r/gone/esc"] ∧
  remote escape_run.2 !! ["out"; "keep"] = None.
Proof. split_and!; vm_compute; reflexivity. Qed.

(** The same link as an entry of the remote root, which the pass walks: the
    listing reports a directory, [lstat] a link, and the link alone is
    removed, [/out/keep] staying where it is. *)
Definition guarded_remote : Ref.fs :=
  list_to_map
    [([], Sample.rdir);
     (["out"], Sample.rdir); (["out"; "keep"], Sample.rfile 1 1);
     (["r"], Sample.rdir); (["r"; "esc"], Sample.rlink "/out")].

Example link_entry_on_following_server :
  (Following.listdir_attr "/r/" guarded_remote).1
  = inr [Ref.attrs_of "esc" Sample.rdir] ∧
  check_for_deletion Following.server escape_engine 5 "" (Sample.start guarded_remote)
  = (inr tt,
     World (delete ["r"; "esc"] guarded_remote)
       [Listdir_attr "/r/"; Lstat "/r/esc"; Remove "/r/esc"] [] []).
Proof. split; vm_compute; reflexivity. Qed.

Lemma link_entry_guarded_witness :
  check_entry Following.server escape_engine 1 "" (Ref.attrs_of "esc" Sample.rdir)
    (Sample.start guarded_remote)
  = (if local_is_link escape_engine "/a/esc" then ret tt
     else try_except (sftp_remove Following.server "/r/esc") is_FileNotFoundError
            (λ _, logger (Log_error "/r/esc")))
      (World guarded_remote [Lstat "/r/esc"] [] []).
Proof.
  apply (link_entry_guarded Following.server escape_engine 0 ""
           (Ref.attrs_of "esc" Sample.rdir)
           (Ref.attrs_of "" (Sample.rlink "/out")) guarded_remote
           (Sample.start guarded_remote)).
  - vm_compute. reflexivity.
  - reflexivity.
Defined.


Definition del_gone_world : world Ref.fs :=
  (remote_delete Ref.server 2 "/r/gone" (Ref.attrs_of "gone" Sample.rdir)
     (Sample.start del_remote)).2.

Example del_gone_calls :
  calls del_gone_world
  = [Listdir_attr "/r/gone"; Remove "/r/gone/x"; Rmdir "/r/gone"].
Proof. vm_compute. reflexivity. Qed.

Lemma remote_delete_children_first_witness :
  children_first 2 "/r/gone" del_remote [] [] [] Sample.rdir del_gone_world.
Proof.
  refine (proj2 (remote_delete_children_first "/r/gone"
                   (Ref.attrs_of "gone" Sample.rdir) del_remote [] [] []
                   Sample.rdir _ _ _ _) 2%nat del_gone_world _).
  - apply wfb_sound. vm_compute. reflexivity.
  - vm_compute. reflexivity.
  - reflexivity.
  - vm_compute. reflexivity.
  - vm_compute. reflexivity.
Defined.

(** ** Where the creation pass writes *)

(** The remote path a call is about. *)
Definition call_path (c : call) : string :=
  match c with
  | Listdir_attr p | Lstat p | Stat p | Readlink p | Mkdir p | Rmdir p
  | Remove p | Chmod p _ | Utime p _ _ | Chown p _ _ => p
  | Symlink _ dest => dest
  | Put _ remotepath _ => remotepath
  end.

Section Emits.
Context {S : Type}.

(** Whatever [m] returns, the calls it issues all satisfy [P]. *)
Definition emits {A} (P : call → Prop) (m : M S A) : Prop :=
  ∀ w, ∃ tr, calls (m w).2 = calls w ++ tr ∧ Forall P tr.

Lemma emits_ret {A} P (a : A) : emits P (ret a).
Proof. intros w. exists []. by rewrite app_nil_r. Qed.

Lemma emits_raise {A} P e : emits P (@raise S A e).
Proof. intros w. exists []. by rewrite app_nil_r. Qed.

Lemma emits_logger P r : emits P (@logger S r).
Proof. intros w. exists []. simpl. by rewrite app_nil_r. Qed.

Lemma emits_issue {A} (P : call → Prop) c (op : S → (exn + A) * S) :
  P c → emits P (issue c op).
Proof.
  intros Hc w. exists [c]. unfold issue.
  destruct (op (remote w)) as [[e|a] s]; simpl; (split; [done|by constructor]).
Qed.

Lemma emits_bind {A B} P (m : M S A) (k : A → M S B) :
  emits P m → (∀ a, emits P (k a)) → emits P (bind m k).
Proof.
  intros Hm Hk w. unfold bind.
  destruct (Hm w) as (tr1 & E1 & H1).
  destruct (m w) as [[e|a] w1]; simpl in *; [eauto|].
  destruct (Hk a w1) as (tr2 & E2 & H2).
  exists (tr1 ++ tr2). rewrite E2, E1, <- app_assoc. split; [done|].
  by apply Forall_app.
Qed.

(** The same, knowing that the value passed on was returned by [m]. *)
Lemma emits_bind_returned {A B} P (m : M S A) (k : A → M S B) :
  emits P m → (∀ a, (∃ w, (m w).1 = inr a) → emits P (k a)) → emits P (bind m k).
Proof.
  intros Hm Hk w. unfold bind.
  destruct (Hm w) as (tr1 & E1 & H1).
  destruct (m w) as [[e|a] w1] eqn:Em; simpl in *; [eauto|].
  destruct (Hk a (ex_intro _ w (f_equal fst Em)) w1) as (tr2 & E2 & H2).
  exists (tr1 ++ tr2). rewrite E2, E1, <- app_assoc. split; [done|].
  by apply Forall_app.
Qed.

Lemma emits_try {A} P (m : M S A) handles (h : exn → M S A) :
  emits P m → (∀ e, emits P (h e)) → emits P (try_except m handles h).
Proof.
  intros Hm Hh w. unfold try_except.
  destruct (Hm w) as (tr1 & E1 & H1).
  destruct (m w) as [[e|a] w1]; simpl in *; [|eauto].
  destruct (handles e); simpl; [|eauto].
  destruct (Hh e w1) as (tr2 & E2 & H2).
  exists (tr1 ++ tr2). rewrite E2, E1, <- app_assoc. split; [done|].
  by apply Forall_app.
Qed.

Lemma emits_for_each {A} P (xs : list A) (body : A → M S unit) :
  (∀ x, x ∈ xs → emits P (body x)) → emits P (for_each xs body).
Proof.
  induction xs as [|x xs IH]; intros Hb; simpl.
  - apply emits_ret.
  - apply emits_bind; [apply Hb; left|]. intros _. apply IH.
    intros y Hy. apply Hb. by right.
Qed.

Lemma emits_calls_since {A} P (m : M S A) w c :
  emits P m → c ∈ calls_since w (m w).2 → P c.
Proof.
  intros Hm Hc. destruct (Hm w) as (tr & E & Htr).
  rewrite (calls_since_app _ _ _ E) in Hc.
  rewrite Forall_forall in Htr. auto.
Qed.
End Emits.

(** Names as [os.listdir] gives them. *)
Definition local_names_simple (self : SFTPClone) : Prop :=
  ∀ p names, os_listdir (os self) p = Some names → Forall simple names.

(** The directory [ds] is walked by the creation pass only if no node on
    the way to it is excluded. *)
Definition not_excluded (self : SFTPClone) (ds : list string) : Prop :=
  ∀ ds1 n1 rest, ds = ds1 ++ n1 :: rest →
                 entry_lpath self ds1 n1 ∉ exclude_list self.

(** A call about the entry [n] of a directory [ds], neither it nor a node
    on the way to it being excluded. *)
Definition about_visited (self : SFTPClone) (c : call) : Prop :=
  ∃ ds n, Forall simple (ds ++ [n]) ∧ not_excluded self (ds ++ [n]) ∧
          call_path c = join3 (remote_path self) (rel_of ds) n.

Lemma emits_match_modes srv self P p l_st :
  (∀ c, call_path c = p → P c) →
  emits P (_match_modes srv self p l_st).
Proof.
  intros HP. unfold _match_modes.
  repeat (apply emits_bind; [apply emits_issue; by apply HP | intros _]).
  destruct (chown self); [apply emits_issue; by apply HP | apply emits_ret].
Qed.

Lemma emits_file_upload srv self P lp p l_st :
  (∀ c, call_path c = p → P c) →
  emits P (file_upload srv self lp p l_st).
Proof.
  intros HP. unfold file_upload, sftp_put.
  apply emits_bind; [|intros _; by apply emits_match_modes].
  destruct (os_lstat (os self) lp); [apply emits_issue; by apply HP|apply emits_raise].
Qed.

Lemma emits_create_update_symlink srv P x p :
  (∀ c, call_path c = p → P c) →
  emits P (create_update_symlink srv x p).
Proof.
  intros HP. unfold create_update_symlink.
  apply emits_try; [|intros; apply emits_logger].
  apply emits_try; [|intros; apply emits_issue; by apply HP].
  apply emits_bind; [apply emits_issue; by apply HP|]. intros y.
  destruct (negb _); [|apply emits_ret].
  apply emits_bind; [apply emits_issue; by apply HP|]. intros _.
  apply emits_issue; by apply HP.
Qed.

(** The calls of the node function are about the node, then about what
    the recursion visits. *)
Lemma emits_node_body srv self P recurse relative_path f :
  (join3 (local_path self) relative_path f ∉ exclude_list self →
   (∀ c, call_path c = join3 (remote_path self) relative_path f → P c) ∧
   emits P (recurse (join relative_path f))) →
  emits P (node_body srv self recurse relative_path f).
Proof.
  intros H. unfold node_body, lstat_local.
  apply emits_bind.
  { destruct (os_lstat _ _); [apply emits_ret|apply emits_raise]. }
  intros l_st. case_bool_decide as Hex; [apply emits_logger|].
  destruct (H Hex) as [HP Hrec].
  destruct (S_ISDIR (st_mode l_st)).
  { apply emits_bind.
    - apply emits_try; [|intros; by apply emits_issue, HP].
      apply emits_bind; [by apply emits_issue, HP|intros; apply emits_ret].
    - intros _. apply emits_bind; [by apply emits_match_modes|]. by intros _. }
  destruct (S_ISLNK (st_mode l_st)).
  { destruct (os_readlink _ _); [|apply emits_raise].
    destruct (_ && _); [destruct (fix_symlinks self); [|apply emits_ret]|];
      by apply emits_create_update_symlink. }
  destruct (S_ISREG (st_mode l_st)); [|apply emits_logger].
  apply emits_try.
  - apply emits_bind; [by apply emits_issue, HP|]. intros r_st.
    destruct (_file_need_upload _ _); [by apply emits_file_upload|apply emits_ret].
  - intros e. destruct (is_FileNotFoundError e);
      [by apply emits_file_upload|apply emits_ret].
Qed.

Lemma not_excluded_nil self : not_excluded self [].
Proof. intros ds1 n1 rest E. by destruct ds1. Qed.

Lemma not_excluded_snoc self ds f :
  not_excluded self ds →
  join3 (local_path self) (rel_of ds) f ∉ exclude_list self →
  not_excluded self (ds ++ [f]).
Proof.
  intros Hds Hf ds1 n1 rest E.
  destruct rest as [|m rest _] using rev_ind.
  - apply app_inj_tail in E as [<- <-]. exact Hf.
  - change (ds1 ++ n1 :: rest ++ [m]) with (ds1 ++ (n1 :: rest) ++ [m]) in E.
    rewrite app_assoc in E. apply app_inj_tail in E as [-> _]. by eapply Hds.
Qed.

Lemma emits_check_for_upload_create srv self fuel :
  local_names_simple self →
  ∀ ds, Forall simple ds → not_excluded self ds →
        emits (about_visited self) (check_for_upload_create srv self fuel (rel_of ds)).
Proof.
  intros Hnames. induction fuel as [|fuel IH]; intros ds Hds Hex; simpl.
  - apply emits_raise.
  - apply emits_bind_returned.
    { unfold listdir_local. destruct (os_listdir _ _); [apply emits_ret|apply emits_raise]. }
    intros names [w Hw]. apply emits_for_each. intros f Hf.
    assert (simple f) as Hsimple.
    { unfold listdir_local in Hw.
      destruct (os_listdir _ _) as [names'|] eqn:El; [|done].
      injection Hw as ->. apply Hnames in El. rewrite Forall_forall in El. auto. }
    assert (Forall simple (ds ++ [f])) as Hds'
      by (apply Forall_app; split; [done|by constructor]).
    apply emits_node_body. intros Hf'. split.
    + intros c Hc. exists ds, f. split_and!; try done.
      by apply not_excluded_snoc.
    + rewrite <- rel_of_snoc. apply IH; [done|]. by apply not_excluded_snoc.
Qed.

Lemma about_visited_resolve self c :
  about_visited self c →
  ∃ ds n, not_excluded self (ds ++ [n]) ∧
          Ref.resolve (call_path c) = root_key self ++ ds ++ [n].
Proof.
  intros (ds & n & Hs & Hex & ->). exists ds, n. split; [done|].
  apply Forall_app in Hs as [Hds Hn]. inversion_clear Hn.
  by apply resolve_entry.
Qed.

(** ** Exclusion *)

Definition with_exclude (self : SFTPClone) (x : gset string) : SFTPClone :=
  {| local_path := local_path self; remote_path := remote_path self;
     exclude_list := x; chown := chown self;
     fix_symlinks := fix_symlinks self; os := os self |}.

Lemma for_each_ext {S A} (xs : list A) (b1 b2 : A → M S unit) w :
  (∀ x w, b1 x w = b2 x w) → for_each xs b1 w = for_each xs b2 w.
Proof.
  intros H. revert w. induction xs as [|x xs IH]; intros w; simpl; [done|].
  unfold bind. rewrite H. destruct (b2 x w) as [[e|[]] w1]; [done|apply IH].
Qed.

(** The deletion pass never reads the exclusion set. *)
Lemma check_for_deletion_ignores_exclusion srv self x fuel :
  ∀ relative_path w,
    check_for_deletion srv (with_exclude self x) fuel relative_path w
    = check_for_deletion srv self fuel relative_path w.
Proof.
  induction fuel as [|fuel IH]; intros rel w; [done|].
  rewrite !check_for_deletion_S. cbv zeta. unfold bind. simpl.
  destruct (sftp_listdir_attr srv _ w) as [[e|l] w1]; [done|].
  apply for_each_ext. intros a w2.
  destruct (sftp_lstat srv _ w2) as [[e|r] w3]; [done|].
  change (_must_be_deleted (with_exclude self x)) with (_must_be_deleted self).
  destruct (S_ISLNK (r_mode r)); [done|].
  destruct (_must_be_deleted self _ a); [done|].
  destruct (S_ISDIR (r_mode a)); [apply IH|done].
Qed.

(** What exclusion gives the node [n] of the directory [ds]: the node
    function logs and returns, whatever it would have gone on with; no call
    of a whole creation pass is about the node's remote path or a path
    below it; the deletion pass is the one of an engine that excludes
    nothing. *)
Definition creation_skips srv (self : SFTPClone) (ds : list string) (n : string)
  : Prop :=
  (∀ recurse l_st (w : world (srv_state srv)),
     os_lstat (os self) (entry_lpath self ds n) = Some l_st →
     node_body srv self recurse (rel_of ds) n w
     = (inr tt, World (remote w) (calls w) (failed w)
                  (logged w ++ [Log_info (entry_lpath self ds n)]))) ∧
  (∀ fuel (w : world (srv_state srv)) c,
     c ∈ calls_since w (check_for_upload_create srv self fuel "" w).2 →
     ¬ (root_key self ++ ds ++ [n]) `prefix_of` Ref.resolve (call_path c)) ∧
  (∀ fuel relative_path (w : world (srv_state srv)),
     check_for_deletion srv self fuel relative_path w
     = check_for_deletion srv (with_exclude self ∅) fuel relative_path w).

(** C5 (as amended).  For a local node whose absolute path is in the
    exclusion set, the creation pass performs no remote operation: the
    node is neither created nor updated, and nothing below it is visited.
    The deletion pass does not look at the exclusion set. *)
Theorem excluded_node_skipped_by_creation
    srv (self : SFTPClone) (ds : list string) (n : string) :
  local_names_simple self →
  Forall simple (ds ++ [n]) →
  entry_lpath self ds n ∈ exclude_list self →
  creation_skips srv self ds n.
Proof.
  intros Hnames Hs Hex. split_and!.
  - intros recurse l_st w E.
    unfold node_body, bind, lstat_local.
    change (join3 (local_path self) (rel_of ds) n) with (entry_lpath self ds n).
    rewrite E. simpl. by rewrite bool_decide_eq_true_2.
  - intros fuel w c Hc Hp.
    apply (emits_calls_since (about_visited self)) in Hc;
      [|apply (emits_check_for_upload_create srv self fuel Hnames []);
        [constructor|apply not_excluded_nil]].
    apply about_visited_resolve in Hc as (ds' & n' & Hne & E).
    rewrite E in Hp. destruct Hp as [rest Hp].
    rewrite <- !app_assoc in Hp. apply app_inv_head in Hp.
    by apply (Hne ds n rest).
  - intros fuel rel w. symmetry.
    apply (check_for_deletion_ignores_exclusion srv self ∅).
Qed.

(** Names of a sample local tree, checked by computation. *)
Definition sample_names_ok (tbl : list (string * Sample.entry)) : bool :=
  forallb (λ '(_, e),
     match Sample.e_names e with
     | Some names => forallb simpleb names
     | None => true
     end) tbl.

Lemma sample_names_simple tbl realpath excluded fix_links :
  sample_names_ok tbl = true →
  local_names_simple (Sample.engine tbl realpath excluded fix_links).
Proof.
  intros Hok p names. simpl.
  induction tbl as [|[q e] tbl IH]; simpl in *; [done|].
  apply andb_true_iff in Hok as [He Hok].
  destruct (String.eqb q p); simpl; [|by apply IH].
  intros E. rewrite E in He. rewrite forallb_forall in He.
  apply Forall_forall. intros n Hn. apply simpleb_sound, He.
  by apply list_elem_of_In.
Qed.

(** An excluded local directory [/a/x], a remote regular file [/r/x]. *)
Definition excl_local : list (string * Sample.entry) :=
  [("/a", Sample.dir ["x"]); ("/a/x", Sample.dir ["y"]);
   ("/a/x/y", Sample.file 1 (Sample.Qz 1))].
Definition excl_remote : Ref.fs :=
  list_to_map [([], Sample.rdir); (["r"], Sample.rdir);
               (["r"; "x"], Sample.rfile 1 1)].
Definition excl_engine : SFTPClone := Sample.engine excl_local id ["/a/x"] false.
Definition excl_world : world Ref.fs :=
  (run Ref.server excl_engine 4 (Sample.start excl_remote)).2.

(** C5 as stated fails: the run deletes the remote counterpart of the
    excluded node, whose type differs from the local one. *)
Lemma excluded_node_counterexample :
  "/a/x" ∈ exclude_list excl_engine ∧
  entry_lpath excl_engine [] "x" = "/a/x" ∧
  excl_remote !! ["r"; "x"] = Some (Sample.rfile 1 1) ∧
  calls excl_world = [Listdir_attr "/r/"; Lstat "/r/x"; Remove "/r/x"] ∧
  remote excl_world !! ["r"; "x"] = None.
Proof.
  split_and!; vm_compute; reflexivity.
Qed.

Lemma excluded_node_skipped_by_creation_witness :
  creation_skips Ref.server excl_engine [] "x".
Proof.
  apply (excluded_node_skipped_by_creation Ref.server excl_engine [] "x").
  - by apply sample_names_simple.
  - repeat constructor; done.
  - apply elem_of_list_to_set. left.
Defined.

(** ** The remote root *)

(** Without a directory at the remote root, the run stops at its first
    listing and changes nothing; and whatever the remote side, no call of
    the creation pass is about the root itself: each is about a path
    strictly below it. *)
Definition root_required (self : SFTPClone) (fuel : nat) (s : Ref.fs)
    (cs : list call) (fl : list (call * exn)) (lg : list log_record) : Prop :=
  let w := World s cs fl lg in
  let out := run Ref.server self fuel w in
  (∃ e, out.1 = inl e) ∧
  remote out.2 = s ∧
  Forall (λ c, is_write c = false) (calls_since w out.2) ∧
  (∀ srv fuel' (w0 : world (srv_state srv)) c,
     c ∈ calls_since w0 (check_for_upload_create srv self fuel' "" w0).2 →
     ∃ n ns, Ref.resolve (call_path c) = root_key self ++ n :: ns).

(** C10.  A run needs the remote root directory: with none, the listing
    that opens the deletion pass fails, the run aborts and the remote store
    is as before; the creation pass never creates the root, its calls being
    about nodes strictly below it. *)
Theorem run_requires_remote_root (self : SFTPClone) (fuel : nat) (s : Ref.fs)
    (cs : list call) (fl : list (call * exn)) (lg : list log_record) :
  Ref.is_dir_at s (root_key self) = false →
  local_names_simple self →
  root_required self fuel s cs fl lg.
Proof.
  intros Hroot Hnames. unfold root_required. cbv zeta.
  assert (∀ srv fuel' (w0 : world (srv_state srv)) c,
     c ∈ calls_since w0 (check_for_upload_create srv self fuel' "" w0).2 →
     ∃ n ns, Ref.resolve (call_path c) = root_key self ++ n :: ns) as Hbelow.
  { intros srv fuel' w0 c Hc.
    apply (emits_calls_since (about_visited self)) in Hc;
      [|apply (emits_check_for_upload_create srv self fuel' Hnames []);
        [constructor|apply not_excluded_nil]].
    apply about_visited_resolve in Hc as (ds & n & _ & E). rewrite E.
    destruct ds as [|m ds]; eauto. }
  destruct fuel as [|fuel].
  - simpl. split_and!; eauto. unfold calls_since. simpl.
    rewrite drop_all. constructor.
  - unfold run, bind. rewrite check_for_deletion_S. cbv zeta.
    unfold bind, sftp_listdir_attr, issue. simpl.
    unfold Ref.listdir_attr. rewrite resolve_join_empty. fold (root_key self).
    unfold Ref.is_dir_at in Hroot.
    destruct (s !! root_key self) as [nd|]; [rewrite Hroot|]; simpl;
      (split_and!; [eauto|done| |done]);
      trace_norm; by repeat constructor.
Qed.

Definition noroot_remote : Ref.fs := list_to_map [([], Sample.rdir)].

Example noroot_run :
  run Ref.server excl_engine 4 (Sample.start noroot_remote)
  = (inl (OSError (Some ENOENT)),
     World noroot_remote [Listdir_attr "/r/"]
       [(Listdir_attr "/r/", OSError (Some ENOENT))] []).
Proof. vm_compute. reflexivity. Qed.

Lemma run_requires_remote_root_witness :
  root_required excl_engine 4 noroot_remote [] [] [].
Proof.
  apply (run_requires_remote_root excl_engine 4 noroot_remote [] [] []).
  - vm_compute. reflexivity.
  - by apply sample_names_simple.
Defined.

(** ** Failures *)

Section FailFast.
Context {S : Type}.

(** The failures [fs] of an execution that ended with [r].  Either all of
    them are benign and [r] is a normal return or an exception of the
    engine's own making ([own]): no benign failure is raised.  Or the last
    of them is not benign and is what the execution raised, all the ones
    before it being benign. *)
Definition aborts_on (benign : call * exn → bool) (own : exn → bool) {A}
    (fs : list (call * exn)) (r : exn + A) : Prop :=
  (Forall (λ f, benign f = true) fs ∧
   match r with inr _ => True | inl e => own e = true end) ∨
  ∃ fs0 c e, fs = fs0 ++ [(c, e)] ∧ Forall (λ f, benign f = true) fs0 ∧
             benign (c, e) = false ∧ r = inl e.

(** A failure that is not benign ends [m], which raises it; a benign one
    does not. *)
Definition fail_fast (benign : call * exn → bool) (own : exn → bool) {A}
    (m : M S A) : Prop :=
  ∀ w, ∃ fs, failed (m w).2 = failed w ++ fs ∧ aborts_on benign own fs (m w).1.

Lemma fail_fast_ret benign own {A} (a : A) : fail_fast benign own (ret a).
Proof. intros w. exists []. rewrite app_nil_r. split; [done|]. by left. Qed.

Lemma fail_fast_raise benign own {A} e :
  own e = true → fail_fast benign own (@raise S A e).
Proof. intros He w. exists []. rewrite app_nil_r. split; [done|]. by left. Qed.

Lemma fail_fast_logger benign own r : fail_fast benign own (@logger S r).
Proof. intros w. exists []. simpl. rewrite app_nil_r. split; [done|]. by left. Qed.

(** A call none of whose failures is benign. *)
Lemma fail_fast_issue benign own {A} c (op : S → (exn + A) * S) :
  (∀ e, benign (c, e) = false) → fail_fast benign own (issue c op).
Proof.
  intros Hc w. unfold issue. destruct (op (remote w)) as [[e|a] s]; simpl.
  - exists [(c, e)]. split; [done|]. right. by exists [], c, e.
  - exists []. rewrite app_nil_r. split; [done|]. by left.
Qed.

Lemma fail_fast_bind benign own {A B} (m : M S A) (k : A → M S B) :
  fail_fast benign own m → (∀ a, fail_fast benign own (k a)) →
  fail_fast benign own (bind m k).
Proof.
  intros Hm Hk w. unfold bind.
  destruct (Hm w) as (fs1 & E1 & H1).
  destruct (m w) as [[e|a] w1]; simpl in *.
  - exists fs1. split; [done|].
    destruct H1 as [H1|(fs0 & c & e' & -> & H0 & Hb & [= <-])]; [by left|].
    right. by exists fs0, c, e.
  - destruct H1 as [[H1 _]|(? & ? & ? & _ & _ & _ & ?)]; [|done].
    destruct (Hk a w1) as (fs2 & E2 & H2).
    exists (fs1 ++ fs2). rewrite E2, E1, <- app_assoc. split; [done|].
    destruct H2 as [[H2 Hr]|(fs0 & c & e & -> & H0 & Hb & Hr)].
    + left. split; [by apply Forall_app|done].
    + right. exists (fs1 ++ fs0), c, e. rewrite <- app_assoc.
      split_and!; try done. by apply Forall_app.
Qed.

Lemma fail_fast_for_each benign own {A} (xs : list A) (body : A → M S unit) :
  (∀ x, fail_fast benign own (body x)) → fail_fast benign own (for_each xs body).
Proof.
  intros Hb. induction xs as [|x xs IH]; simpl.
  - apply fail_fast_ret.
  - apply fail_fast_bind; auto.
Qed.
End FailFast.

(** The only failure the deletion pass lets pass: "not found" on the
    removal of a node. *)
Definition benign_removal (f : call * exn) : bool :=
  match f with
  | (Remove _, e) => is_FileNotFoundError e
  | _ => false
  end.

(** The only failure the directory branch lets pass: an [IOError] of the
    existence probe, read as "not there yet". *)
Definition benign_probe (f : call * exn) : bool :=
  match f with
  | (Stat _, e) => is_OSError e
  | _ => false
  end.

(** The exception the passes raise of themselves. *)
Definition is_RecursionError (e : exn) : bool :=
  match e with RecursionError => true | _ => false end.

Definition no_exception (e : exn) : bool := false.

Lemma fail_fast_remote_delete srv fuel :
  ∀ p a, fail_fast benign_removal is_RecursionError (remote_delete srv fuel p a).
Proof.
  induction fuel as [|fuel IH]; intros p a; [by apply fail_fast_raise|].
  rewrite remote_delete_S. destruct (S_ISDIR (r_mode a)).
  - apply fail_fast_bind; [by apply fail_fast_issue|]. intros items.
    apply fail_fast_bind; [|intros; by apply fail_fast_issue].
    apply fail_fast_for_each. intros x. apply IH.
  - intros w. unfold try_except, sftp_remove, issue, logger.
    destruct (srv_remove srv p (remote w)) as [[e|[]] s]; simpl.
    + destruct (is_FileNotFoundError e) eqn:He; simpl.
      * exists [(Remove p, e)]. split; [done|]. left. split; [|done].
        by repeat constructor.
      * exists [(Remove p, e)]. split; [done|]. right. by exists [], (Remove p), e.
    + exists []. rewrite app_nil_r. split; [done|]. by left.
Qed.

Lemma fail_fast_check_for_deletion srv self fuel :
  ∀ relative_path,
    fail_fast benign_removal is_RecursionError
      (check_for_deletion srv self fuel relative_path).
Proof.
  induction fuel as [|fuel IH]; intros rel; [by apply fail_fast_raise|].
  rewrite check_for_deletion_S. cbv zeta.
  apply fail_fast_bind; [by apply fail_fast_issue|]. intros listing.
  apply fail_fast_for_each. intros x.
  apply fail_fast_bind; [by apply fail_fast_issue|]. intros r.
  destruct (S_ISLNK (r_mode r)).
  - destruct (_must_be_deleted self _ r);
      [apply fail_fast_remote_delete|apply fail_fast_ret].
  - destruct (_must_be_deleted self _ x); [apply fail_fast_remote_delete|].
    destruct (S_ISDIR (r_mode x)); [apply IH|apply fail_fast_ret].
Qed.

(** A "not found" on a removal is logged, and the removal returns. *)
Lemma remove_not_found_logged srv fuel p a (w : world (srv_state srv)) e s1 :
  S_ISDIR (r_mode a) = false →
  srv_remove srv p (remote w) = (inl e, s1) →
  is_FileNotFoundError e = true →
  remote_delete srv (S fuel) p a w
  = (inr tt, World s1 (calls w ++ [Remove p]) (failed w ++ [(Remove p, e)])
               (logged w ++ [Log_error p])).
Proof.
  intros Hd Hrm He. rewrite remote_delete_S, Hd.
  unfold try_except, sftp_remove, issue, logger. rewrite Hrm. simpl.
  by rewrite He.
Qed.

(** The node function on a directory that is not excluded. *)
Lemma node_directory srv self recurse relative_path f l_st
    (w : world (srv_state srv)) :
  let lpath := join3 (local_path self) relative_path f in
  let rpath := join3 (remote_path self) relative_path f in
  os_lstat (os self) lpath = Some l_st →
  lpath ∉ exclude_list self →
  S_ISDIR (st_mode l_st) = true →
  node_body srv self recurse relative_path f w
  = (try_except (sftp_stat srv rpath ;;; ret tt) is_OSError
       (λ _, sftp_mkdir srv rpath) ;;;
     _match_modes srv self rpath l_st ;;;
     recurse (join relative_path f)) w.
Proof.
  intros lpath rpath E Hex Hd.
  unfold node_body, bind at 1, lstat_local.
  fold lpath rpath. rewrite E. simpl.
  rewrite bool_decide_eq_false_2 by done. by rewrite Hd.
Qed.

Lemma fail_fast_match_modes srv self benign own p l_st :
  (∀ c e, is_write c = true → benign (c, e) = false) →
  fail_fast benign own (_match_modes srv self p l_st).
Proof.
  intros Hb. unfold _match_modes.
  repeat (apply fail_fast_bind; [apply fail_fast_issue; intros; by apply Hb | intros _]).
  destruct (chown self);
    [apply fail_fast_issue; intros; by apply Hb | apply fail_fast_ret].
Qed.

(** The directory branch, the recursion left aside: an [IOError] of the
    probe is not raised; a failing [mkdir], [chmod], [utime] or [chown]
    ends the node function, which raises it. *)
Lemma fail_fast_directory srv self relative_path f l_st :
  os_lstat (os self) (join3 (local_path self) relative_path f) = Some l_st →
  join3 (local_path self) relative_path f ∉ exclude_list self →
  S_ISDIR (st_mode l_st) = true →
  fail_fast benign_probe no_exception
    (node_body srv self (λ _, ret tt) relative_path f).
Proof.
  intros E Hex Hd.
  assert (fail_fast benign_probe no_exception
            (try_except (sftp_stat srv (join3 (remote_path self) relative_path f) ;;; ret tt)
               is_OSError
               (λ _, sftp_mkdir srv (join3 (remote_path self) relative_path f)) ;;;
             _match_modes srv self (join3 (remote_path self) relative_path f) l_st ;;;
             ret tt)) as H.
  { apply fail_fast_bind; [|intros _; apply fail_fast_bind;
                             [apply fail_fast_match_modes; by intros []
                             |intros; apply fail_fast_ret]].
    intros w. unfold try_except, bind, sftp_stat, sftp_mkdir, issue, ret.
    destruct (srv_stat srv _ (remote w)) as [[e|r] s]; simpl.
    + destruct (is_OSError e) eqn:He; simpl.
      * destruct (srv_mkdir srv _ s) as [[e2|[]] s2]; simpl.
        -- eexists [_; _]. rewrite <- app_assoc. split; [done|]. right.
           eexists [_], _, e2. split_and!; try done.
           repeat constructor. simpl. done.
        -- eexists [_]. split; [done|]. left. split; [|done].
           repeat constructor. done.
      * eexists [_]. split; [done|]. right. by eexists [], _, e.
    + exists []. rewrite app_nil_r. split; [done|]. by left. }
  intros w. rewrite (node_directory srv self _ relative_path f l_st w E Hex Hd).
  apply H.
Qed.

(** An [IOError] of the probe is read as "not there yet": [mkdir] is asked
    next. *)
Lemma probe_failure_read_as_absent srv self recurse relative_path f l_st
    (w : world (srv_state srv)) e s1 :
  let lpath := join3 (local_path self) relative_path f in
  let rpath := join3 (remote_path self) relative_path f in
  os_lstat (os self) lpath = Some l_st →
  lpath ∉ exclude_list self →
  S_ISDIR (st_mode l_st) = true →
  srv_stat srv rpath (remote w) = (inl e, s1) →
  is_OSError e = true →
  node_body srv self recurse relative_path f w
  = (sftp_mkdir srv rpath ;;;
     _match_modes srv self rpath l_st ;;;
     recurse (join relative_path f))
      (World s1 (calls w ++ [Stat rpath]) (failed w ++ [(Stat rpath, e)]) (logged w)).
Proof.
  intros lpath rpath E Hex Hd Hst He.
  rewrite (node_directory srv self _ relative_path f l_st w E Hex Hd).
  fold rpath. unfold bind at 1, try_except, bind at 1, sftp_stat, issue.
  rewrite Hst. simpl. by rewrite He.
Qed.

(** What [create_update_symlink] does of the failures it meets: [fs] are
    the calls that failed, [r] the outcome, [tr] the calls made and [lg] the
    records logged. *)
Definition link_failures (x p : string) (fs : list (call * exn))
    (r : exn + unit) (tr : list call) (lg : list log_record) : Prop :=
  match fs with
  | [] => r = inr tt ∧ lg = []
  | [(c, e)] =>
      if is_OSError e
      then r = inr tt ∧ lg = [] ∧ ∃ tr0, tr = tr0 ++ [Symlink x p] ∧ c ∈ tr0
      else r = inl e ∧ lg = []
  | [(c1, e1); (c2, e2)] =>
      is_OSError e1 = true ∧ c2 = Symlink x p ∧
      if is_OSError e2
      then r = inr tt ∧ lg = [Log_error p]
      else r = inl e2 ∧ lg = []
  | _ => False
  end.

Definition logged_since {S} (w w' : world S) : list log_record :=
  drop (length (logged w)) (logged w').

Ltac since_norm :=
  unfold calls_since, failed_since, logged_since; simpl;
  rewrite <- ?app_assoc; simpl;
  rewrite ?drop_app_length, ?drop_all; simpl.

Lemma create_update_symlink_failures srv x p (w : world (srv_state srv)) :
  let out := create_update_symlink srv x p w in
  link_failures x p (failed_since w out.2) out.1
    (calls_since w out.2) (logged_since w out.2).
Proof.
  unfold create_update_symlink, try_except, bind, sftp_readlink, sftp_remove,
    sftp_symlink, issue, logger, ret. cbv zeta.
  repeat (run_step; simpl); since_norm; unfold link_failures;
    repeat match goal with
           | H : is_OSError ?e = _ |- _ => rewrite H
           end;
    split_and?; try done;
    try (eexists [_]; split; [reflexivity|set_solver]);
    try (eexists [_; _]; split; [reflexivity|set_solver]);
    try (eexists [_; _; _]; split; [reflexivity|set_solver]).
Qed.

(** No failure of an upload is benign: the first one ends it and is
    raised. *)
Definition never_benign (f : call * exn) : bool := false.

Lemma fail_fast_file_upload srv self lpath rpath l_st :
  os_lstat (os self) lpath = Some l_st →
  fail_fast never_benign no_exception (file_upload srv self lpath rpath l_st).
Proof.
  intros E. unfold file_upload, sftp_put. rewrite E.
  apply fail_fast_bind; [by apply fail_fast_issue|]. intros _.
  by apply fail_fast_match_modes.
Qed.

(** A "not found" of the probe is read as "absent": the upload follows. *)
Lemma probe_not_found_uploads srv self fuel relative_path f l_st
    (w : world (srv_state srv)) e s1 :
  let lpath := join3 (local_path self) relative_path f in
  let rpath := join3 (remote_path self) relative_path f in
  os_lstat (os self) lpath = Some l_st →
  lpath ∉ exclude_list self →
  S_ISREG (st_mode l_st) = true →
  srv_lstat srv rpath (remote w) = (inl e, s1) →
  is_FileNotFoundError e = true →
  node_check_for_upload_create srv self fuel relative_path f w
  = file_upload srv self lpath rpath l_st
      (World s1 (calls w ++ [Lstat rpath]) (failed w ++ [(Lstat rpath, e)])
         (logged w)).
Proof.
  intros lpath rpath E Hex Hreg Hl He.
  rewrite (node_regular srv self fuel relative_path f l_st w E Hex Hreg).
  fold lpath rpath. unfold try_except, bind at 1, sftp_lstat, issue.
  rewrite Hl. world_red.
  destruct e as [[n|]| |]; simpl in He; try discriminate He. by rewrite He.
Qed.

(** How the engine treats failures.
    - Deletion pass: a failure other than "not found" on a removal ends the
      pass, which raises it, and no "not found" on a removal is raised; such
      a "not found" is logged and the removal returns.
    - Directory branch of the creation pass: a failing [mkdir], [chmod],
      [utime] or [chown] ends the node function, which raises it; an
      [IOError] of the existence probe is not raised but read as "not there
      yet", and [mkdir] is asked next.
    - [create_update_symlink]: see [link_failures].
    - Regular-file branch: a "not found" of the probe is read as "absent"
      and the upload follows; a failing [put], [chmod], [utime] or [chown]
      ends that upload, which raises it. *)
Definition failures_by_design srv (self : SFTPClone) : Prop :=
  (∀ fuel relative_path,
     fail_fast benign_removal is_RecursionError
       (check_for_deletion srv self fuel relative_path)) ∧
  (∀ fuel p a (w : world (srv_state srv)) e s1,
     S_ISDIR (r_mode a) = false →
     srv_remove srv p (remote w) = (inl e, s1) →
     is_FileNotFoundError e = true →
     remote_delete srv (S fuel) p a w
     = (inr tt, World s1 (calls w ++ [Remove p]) (failed w ++ [(Remove p, e)])
                  (logged w ++ [Log_error p]))) ∧
  (∀ relative_path f l_st,
     os_lstat (os self) (join3 (local_path self) relative_path f) = Some l_st →
     join3 (local_path self) relative_path f ∉ exclude_list self →
     S_ISDIR (st_mode l_st) = true →
     fail_fast (S := srv_state srv) benign_probe no_exception
       (node_body srv self (λ _, ret tt) relative_path f)) ∧
  (∀ recurse relative_path f l_st (w : world (srv_state srv)) e s1,
     let rpath := join3 (remote_path self) relative_path f in
     os_lstat (os self) (join3 (local_path self) relative_path f) = Some l_st →
     join3 (local_path self) relative_path f ∉ exclude_list self →
     S_ISDIR (st_mode l_st) = true →
     srv_stat srv rpath (remote w) = (inl e, s1) →
     is_OSError e = true →
     node_body srv self recurse relative_path f w
     = (sftp_mkdir srv rpath ;;;
        _match_modes srv self rpath l_st ;;;
        recurse (join relative_path f))
         (World s1 (calls w ++ [Stat rpath]) (failed w ++ [(Stat rpath, e)])
            (logged w))) ∧
  (∀ x p (w : world (srv_state srv)),
     let out := create_update_symlink srv x p w in
     link_failures x p (failed_since w out.2) out.1
       (calls_since w out.2) (logged_since w out.2)) ∧
  (∀ lpath rpath l_st,
     os_lstat (os self) lpath = Some l_st →
     fail_fast (S := srv_state srv) never_benign no_exception
       (file_upload srv self lpath rpath l_st)) ∧
  (∀ fuel relative_path f l_st (w : world (srv_state srv)) e s1,
     let lpath := join3 (local_path self) relative_path f in
     let rpath := join3 (remote_path self) relative_path f in
     os_lstat (os self) lpath = Some l_st →
     lpath ∉ exclude_list self →
     S_ISREG (st_mode l_st) = true →
     srv_lstat srv rpath (remote w) = (inl e, s1) →
     is_FileNotFoundError e = true →
     node_check_for_upload_create srv self fuel relative_path f w
     = file_upload srv self lpath rpath l_st
         (World s1 (calls w ++ [Lstat rpath]) (failed w ++ [(Lstat rpath, e)])
            (logged w))).

(** C6 (as amended).  On any server.  In the deletion pass a failure of a
    listing, an [lstat], an [rmdir], or of a [remove] other than "not
    found", ends the pass, which raises it; a "not found" on a [remove] is
    never raised: it is logged, and the removal returns.  In the creation
    pass, for a directory: any [IOError] of the existence probe is read as
    "absent", [mkdir] being asked next, and is never raised; a failure of
    [mkdir], [chmod], [utime] or [chown] ends the node function, which
    raises it.  For a symbolic link: after a first [IOError], of
    [readlink], [remove] or [symlink], one more [symlink] is asked; if that
    one fails with an [IOError] too, the error is logged and the function
    returns; no [IOError] is raised, and a first failure alone is not
    logged.  For a regular file: a "not found" of the probe is read as
    "absent" and the upload follows; a failure of [put], [chmod], [utime]
    or [chown] in that upload ends it, and with it the node function, which
    raises it.  (What the regular-file branch does of another [IOError] of
    the probe is left out here.) *)
Theorem io_failures_by_design srv (self : SFTPClone) : failures_by_design srv self.
Proof.
  split_and!.
  - apply fail_fast_check_for_deletion.
  - apply remove_not_found_logged.
  - apply fail_fast_directory.
  - intros recurse relative_path f l_st w e s1 rpath.
    by apply probe_failure_read_as_absent.
  - apply create_update_symlink_failures.
  - apply fail_fast_file_upload.
  - intros fuel relative_path f l_st w e s1 lpath rpath.
    by apply probe_not_found_uploads.
Qed.

(** ** A server with faults

    The reference server, with failures injected on chosen calls. *)
Definition faulty {A} (fault : call → option exn) (c : call)
    (op : Ref.fs → (exn + A) * Ref.fs) : Ref.fs → (exn + A) * Ref.fs :=
  λ s, match fault c with
       | Some e => (inl e, s)
       | None => op s
       end.

Definition faulty_server (fault : call → option exn) : sftp_server :=
  {| srv_state := Ref.fs;
     srv_listdir_attr p := faulty fault (Listdir_attr p) (Ref.listdir_attr p);
     srv_lstat p := faulty fault (Lstat p) (Ref.lstat p);
     srv_stat p := faulty fault (Stat p) (Ref.stat p);
     srv_readlink p := faulty fault (Readlink p) (Ref.readlink p);
     srv_mkdir p := faulty fault (Mkdir p) (Ref.mkdir p);
     srv_rmdir p := faulty fault (Rmdir p) (Ref.rmdir p);
     srv_remove p := faulty fault (Remove p) (Ref.remove p);
     srv_symlink x p := faulty fault (Symlink x p) (Ref.symlink x p);
     srv_chmod p m := faulty fault (Chmod p m) (Ref.chmod p m);
     srv_utime p a m := faulty fault (Utime p a m) (Ref.utime p a m);
     srv_chown p u g := faulty fault (Chown p u g) (Ref.chown p u g);
     srv_put p n := faulty fault (Put "" p n) (Ref.put p n) |}.

Definition deny_symlink (c : call) : option exn :=
  match c with Symlink _ _ => Some (OSError (Some EACCES)) | _ => None end.
Definition deny_lstat (c : call) : option exn :=
  match c with Lstat _ => Some (OSError (Some EACCES)) | _ => None end.

Definition fault_remote : Ref.fs := list_to_map [([], Sample.rdir); (["r"], Sample.rdir)].
Definition fault_world : world Ref.fs := World fault_remote [] [] [].

(** C6 as stated fails.  A link that cannot be created: the error is logged
    and the whole run returns normally.  A regular file whose remote
    [lstat] is denied: nothing is uploaded, nothing is logged, and the run
    returns normally. *)
Lemma io_failure_counterexample :
  run (faulty_server deny_symlink)
    (Sample.engine (link_local "../sibling") id [] false) 3 fault_world
  = (inr tt,
     World fault_remote
       [Listdir_attr "/r/"; Readlink "/r/l"; Symlink "../sibling" "/r/l"]
       [(Readlink "/r/l", OSError (Some ENOENT));
        (Symlink "../sibling" "/r/l", OSError (Some EACCES))]
       [Log_error "/r/l"]) ∧
  run (faulty_server deny_lstat)
    (Sample.engine (upload_local 100 (Sample.Qz 1000)) id [] false) 3 fault_world
  = (inr tt,
     World fault_remote
       [Listdir_attr "/r/"; Lstat "/r/f"]
       [(Lstat "/r/f", OSError (Some EACCES))]
       []).
Proof. split; vm_compute; reflexivity. Qed.

(** ** A second run *)

Lemma parent_snoc (k : list string) n : Ref.parent (k ++ [n]) = k.
Proof. unfold Ref.parent. apply removelast_last. Qed.

Lemma S_IFMT_set_mode mode nd :
  S_IFMT (Ref.n_mode (Ref.set_mode mode nd)) = S_IFMT (Ref.n_mode nd).
Proof.
  unfold Ref.set_mode, S_IFMT, S_IMODE. simpl.
  rewrite Z.land_lor_distr_l, <- !Z.land_assoc. simpl.
  by rewrite Z.land_0_r, Z.lor_0_r.
Qed.

Lemma follow_not_link fuel (s : Ref.fs) k nd :
  s !! k = Some nd → S_ISLNK (Ref.n_mode nd) = false →
  Ref.follow fuel s k = inr k.
Proof. intros E Hl. destruct fuel; simpl; by rewrite E, Hl. Qed.

Lemma alter_eq_insert (f : Ref.rnode → Ref.rnode) (s : Ref.fs) k nd :
  s !! k = Some nd → alter f k s = <[k := f nd]> s.
Proof.
  intros E. apply map_eq. intros k'. destruct (decide (k' = k)) as [->|Hne].
  - by rewrite lookup_alter_eq, lookup_insert_eq, E.
  - by rewrite lookup_alter_ne, lookup_insert_ne.
Qed.

(** Attribute updates on a node that is not a link. *)
Lemma ref_update_node f p (s : Ref.fs) nd :
  s !! Ref.resolve p = Some nd → S_ISLNK (Ref.n_mode nd) = false →
  Ref.update f p s = (inr tt, <[Ref.resolve p := f nd]> s).
Proof.
  intros E Hl. unfold Ref.update.
  rewrite (follow_not_link _ _ _ _ E Hl). by rewrite (alter_eq_insert _ _ _ _ E).
Qed.

(** What [_match_modes] leaves of a node. *)
Definition matched (self : SFTPClone) (l_st : stat_result) (nd : Ref.rnode)
  : Ref.rnode :=
  let nd' := Ref.set_times (int (st_atime l_st)) (int (st_mtime l_st))
               (Ref.set_mode (S_IMODE (st_mode l_st)) nd) in
  if chown self then Ref.set_owner (st_uid l_st) (st_gid l_st) nd' else nd'.

Definition modes_calls (self : SFTPClone) (p : string) (l_st : stat_result)
  : list call :=
  [Chmod p (S_IMODE (st_mode l_st));
   Utime p (int (st_atime l_st)) (int (st_mtime l_st))]
  ++ (if chown self then [Chown p (st_uid l_st) (st_gid l_st)] else []).

Lemma matched_facts self l_st nd :
  S_IFMT (Ref.n_mode (matched self l_st nd)) = S_IFMT (Ref.n_mode nd) ∧
  Ref.n_size (matched self l_st nd) = Ref.n_size nd ∧
  Ref.n_mtime (matched self l_st nd) = int (st_mtime l_st) ∧
  Ref.n_link (matched self l_st nd) = Ref.n_link nd.
Proof.
  unfold matched. destruct (chown self); simpl;
    (split; [apply S_IFMT_set_mode|done]).
Qed.

(** Both times of a local node can be sent. *)
Definition times_pack (l_st : stat_result) : bool :=
  packs_u32 (int (st_atime l_st)) && packs_u32 (int (st_mtime l_st)).

(** On any server, [_match_modes] returns normally only for times that can
    be sent. *)
Lemma match_modes_packs srv self p l_st (w w' : world (srv_state srv)) :
  _match_modes srv self p l_st w = (inr tt, w') → times_pack l_st = true.
Proof.
  unfold _match_modes, bind, sftp_chmod, sftp_utime, issue, utime_request,
    times_pack.
  destruct (srv_chmod srv p _ (remote w)) as [[e|[]] s1]; [done|].
  cbn [remote]. by destruct (packs_u32 _ && packs_u32 _).
Qed.

Lemma ref_match_modes self p l_st (s : Ref.fs) cs fl lg nd :
  s !! Ref.resolve p = Some nd → S_ISLNK (Ref.n_mode nd) = false →
  times_pack l_st = true →
  _match_modes Ref.server self p l_st (World s cs fl lg)
  = (inr tt, World (<[Ref.resolve p := matched self l_st nd]> s)
                   (cs ++ modes_calls self p l_st) fl lg).
Proof.
  intros E Hl Hpk. unfold times_pack in Hpk.
  unfold _match_modes, bind, sftp_chmod, sftp_utime, sftp_chown, issue, matched,
    modes_calls, utime_request. simpl. rewrite Hpk.
  unfold Ref.chmod, Ref.utime, Ref.chown.
  rewrite (ref_update_node _ _ _ _ E Hl). cbn [fst snd remote calls failed logged].
  set (nd1 := Ref.set_mode (S_IMODE (st_mode l_st)) nd).
  assert (S_ISLNK (Ref.n_mode nd1) = false) as Hl1.
  { unfold S_ISLNK in *. subst nd1. by rewrite S_IFMT_set_mode. }
  rewrite (ref_update_node _ _ (<[Ref.resolve p := nd1]> s) nd1)
    by (by rewrite ?lookup_insert_eq).
  cbn [fst snd remote calls failed logged]. rewrite insert_insert_eq.
  set (nd2 := Ref.set_times _ _ nd1).
  destruct (chown self); cbn [fst snd remote calls failed logged].
  - rewrite (ref_update_node _ _ (<[Ref.resolve p := nd2]> s) nd2)
      by (by rewrite ?lookup_insert_eq).
    cbn [fst snd remote calls failed logged]. rewrite insert_insert_eq.
    by rewrite <- !app_assoc.
  - unfold ret. by rewrite <- !app_assoc.
Qed.

(** With a time that cannot be sent, [_match_modes] stops at [utime]. *)
Lemma ref_match_modes_unpacked self p l_st (s : Ref.fs) cs fl lg nd :
  s !! Ref.resolve p = Some nd → S_ISLNK (Ref.n_mode nd) = false →
  times_pack l_st = false →
  (_match_modes Ref.server self p l_st (World s cs fl lg)).1 = inl Struct_error.
Proof.
  intros E Hl Hpk. unfold times_pack in Hpk.
  unfold _match_modes, bind, sftp_chmod, sftp_utime, issue, utime_request. simpl.
  unfold Ref.chmod. rewrite (ref_update_node _ _ _ _ E Hl).
  cbn [fst snd remote calls failed logged]. by rewrite Hpk.
Qed.

Lemma file_upload_packs srv self lp rp l_st (w w' : world (srv_state srv)) :
  file_upload srv self lp rp l_st w = (inr tt, w') → times_pack l_st = true.
Proof.
  unfold file_upload, bind. destruct (sftp_put srv self lp rp w) as [[e|[]] w1]; [done|].
  apply match_modes_packs.
Qed.

(** The directory branch goes on to the recursion only for times that can
    be sent. *)
Lemma directory_packs srv self p l_st (R : M (srv_state srv) unit)
    (w w' : world (srv_state srv)) :
  (try_except (sftp_stat srv p ;;; ret tt) is_OSError (λ _, sftp_mkdir srv p) ;;;
   _match_modes srv self p l_st ;;; R) w = (inr tt, w') →
  times_pack l_st = true.
Proof.
  unfold bind at 1.
  destruct (try_except _ _ _ w) as [[e|[]] w1]; [done|].
  unfold bind at 1.
  destruct (_match_modes srv self p l_st w1) as [[e|[]] w2] eqn:E; [done|].
  intros _. by eapply match_modes_packs.
Qed.

(** *** What a finished run leaves *)

Definition entry_key (self : SFTPClone) (ds : list string) (n : string)
  : list string :=
  (root_key self ++ ds) ++ [n].

Lemma entry_key_inj self ds n ds' n' :
  entry_key self ds n = entry_key self ds' n' → ds = ds' ∧ n = n'.
Proof.
  unfold entry_key. intros E. apply app_inj_tail in E as [E ->].
  by apply app_inv_head in E.
Qed.

Lemma entry_key_not_dir self ds n : entry_key self ds n ≠ root_key self ++ ds.
Proof.
  unfold entry_key. intros E. apply (f_equal length) in E.
  rewrite length_app in E. simpl in E. lia.
Qed.

Lemma resolve_entry_key self ds n :
  Forall simple ds → simple n →
  Ref.resolve (join3 (remote_path self) (rel_of ds) n) = entry_key self ds n.
Proof.
  intros Hds Hn. unfold join3, entry_key, root_key.
  by rewrite resolve_entry, app_assoc.
Qed.

(** The target the creation pass writes for a local link, if it writes
    one. *)
Definition link_destination (self : SFTPClone) (local_link : string)
  : option string :=
  if startswith_sep local_link
     && String.prefix (join (local_path self) "")
                      (os_realpath (os self) local_link)
  then if fix_symlinks self
       then Some (join (remote_path self)
                    (slice_from (String.length (join (local_path self) ""))
                                (os_realpath (os self) local_link)))
       else None
  else Some local_link.

(** A remote node, or its absence, agrees with the local node at [lp]:
    nothing is asked for a local node that is missing, excluded, or neither
    directory, link nor regular file. *)
Definition node_in_sync (self : SFTPClone) (lp : string) (o : option Ref.rnode)
  : Prop :=
  match os_lstat (os self) lp with
  | None => True
  | Some l_st =>
      lp ∈ exclude_list self ∨
      if S_ISDIR (st_mode l_st) then
        ∃ nd, o = Some nd ∧ S_ISDIR (Ref.n_mode nd) = true
      else if S_ISLNK (st_mode l_st) then
        ∀ d, os_readlink (os self) lp ≫= link_destination self = Some d →
             ∃ nd, o = Some nd ∧ S_ISLNK (Ref.n_mode nd) = true ∧ Ref.n_link nd = d
      else if S_ISREG (st_mode l_st) then
        ∃ nd, o = Some nd ∧ S_ISREG (Ref.n_mode nd) = true ∧
              Ref.n_size nd = st_size l_st ∧
              Ref.n_mtime nd = int (st_mtime l_st)
      else True
  end.

Definition in_sync (self : SFTPClone) (ds : list string) (n : string)
    (s : Ref.fs) : Prop :=
  node_in_sync self (entry_lpath self ds n) (s !! entry_key self ds n).

(** Every remote node under the root has a local counterpart of its own
    format: the deletion pass finds nothing to remove. *)
Definition settled (self : SFTPClone) (s : Ref.fs) : Prop :=
  ∀ ds n nd, s !! entry_key self ds n = Some nd → must_delete self ds n nd = false.

Definition tidy (self : SFTPClone) (s : Ref.fs) : Prop := wf s ∧ settled self s.

Lemma must_delete_false self ds n nd :
  must_delete self ds n nd = false ↔
  ∃ l_st, os_lstat (os self) (entry_lpath self ds n) = Some l_st ∧
          S_IFMT (Ref.n_mode nd) = S_IFMT (st_mode l_st).
Proof.
  unfold must_delete. pose proof (must_be_deleted_spec self
    (entry_lpath self ds n) (Ref.attrs_of n nd)) as H. simpl in H.
  destruct (_must_be_deleted _ _ _).
  - split; [done|]. intros (l_st & E & Hf). exfalso.
    destruct (proj1 H eq_refl) as [E'|(l' & E' & Hne)]; congruence.
  - split; [|done]. intros _.
    destruct (os_lstat (os self) (entry_lpath self ds n)) as [l_st|] eqn:E.
    + exists l_st. split; [done|].
      destruct (decide (S_IFMT (Ref.n_mode nd) = S_IFMT (st_mode l_st))); [done|].
      assert (false = true); [|done]. apply H. right. exists l_st. eauto.
    + assert (false = true); [|done]. apply H. by left.
Qed.

(** The directories the creation pass walks into. *)
Definition local_dir (self : SFTPClone) (ds : list string) : string :=
  if negb (String.eqb (rel_of ds) "")
  then join (local_path self) (rel_of ds)
  else local_path self.

Definition walked_dir (self : SFTPClone) (ds : list string) (d : string) : Prop :=
  ∃ l_st, os_lstat (os self) (entry_lpath self ds d) = Some l_st ∧
          S_ISDIR (st_mode l_st) = true ∧
          entry_lpath self ds d ∉ exclude_list self.

(** [below self ds0 ds n]: the creation pass started on the directory [ds0]
    meets the entry [n] of the directory [ds]. *)
Inductive below (self : SFTPClone) : list string → list string → string → Prop :=
| below_here ds names n :
    os_listdir (os self) (local_dir self ds) = Some names → n ∈ names →
    below self ds ds n
| below_sub ds names d ds' n' :
    os_listdir (os self) (local_dir self ds) = Some names → d ∈ names →
    walked_dir self ds d → below self (ds ++ [d]) ds' n' →
    below self ds ds' n'.

Lemma tidy_insert self (s : Ref.fs) ds n nd :
  tidy self s → simple n → Ref.is_dir_at s (root_key self ++ ds) = true →
  must_delete self ds n nd = false →
  tidy self (<[entry_key self ds n := nd]> s).
Proof.
  intros [Hwf Hset] Hn Hdir Hnd.
  assert (Forall simple (entry_key self ds n)) as Hk.
  { apply is_dir_at_Some in Hdir as (nd0 & E0 & _).
    apply Forall_app. split; [by eapply (proj1 Hwf)|by constructor]. }
  assert (∀ nd0, s !! entry_key self ds n = Some nd0 →
                 S_IFMT (Ref.n_mode nd0) = S_IFMT (Ref.n_mode nd)) as Hold.
  { intros nd0 E0. apply Hset in E0.
    apply must_delete_false in E0 as (l0 & E0 & F0).
    apply must_delete_false in Hnd as (l1 & E1 & F1). congruence. }
  split; [split|].
  - intros k nd0. destruct (decide (k = entry_key self ds n)) as [->|Hne].
    + done.
    + rewrite lookup_insert_ne by done. apply (proj1 Hwf).
  - intros k m nd0 E0.
    assert (Ref.is_dir_at s k = true) as Hd.
    { destruct (decide (k ++ [m] = entry_key self ds n)) as [Heq|Hne].
      - unfold entry_key in Heq. apply app_inj_tail in Heq as [-> _]. done.
      - rewrite lookup_insert_ne in E0 by done. by eapply (proj2 Hwf). }
    unfold Ref.is_dir_at in *.
    destruct (decide (k = entry_key self ds n)) as [->|Hne].
    + rewrite lookup_insert_eq.
      destruct (s !! entry_key self ds n) as [nd1|] eqn:E1; [|done].
      unfold S_ISDIR in *. by rewrite <- (Hold nd1 eq_refl).
    + by rewrite lookup_insert_ne.
  - intros ds' n' nd0.
    destruct (decide (entry_key self ds' n' = entry_key self ds n)) as [Heq|Hne].
    + rewrite Heq, lookup_insert_eq. apply entry_key_inj in Heq as [-> ->].
      by intros [= <-].
    + rewrite lookup_insert_ne by done. apply Hset.
Qed.

(** Changing the permissions, times or owner of a directory keeps every
    entry in sync. *)
Lemma node_in_sync_dir_attrs self lp nd nd' :
  S_ISDIR (Ref.n_mode nd) = true →
  S_IFMT (Ref.n_mode nd') = S_IFMT (Ref.n_mode nd) →
  node_in_sync self lp (Some nd) → node_in_sync self lp (Some nd').
Proof.
  intros Hd Hf. unfold node_in_sync.
  destruct (os_lstat (os self) lp) as [l_st|]; [|done].
  intros [?|H]; [by left|right].
  destruct (S_ISDIR (st_mode l_st)).
  { exists nd'. split; [done|]. unfold S_ISDIR in *. by rewrite Hf. }
  destruct (S_ISLNK (st_mode l_st)).
  { intros d Hdst. destruct (H d Hdst) as (nd0 & [= <-] & Hl & _).
    by rewrite (S_ISLNK_not_dir _ Hl) in Hd. }
  destruct (S_ISREG (st_mode l_st)); [|done].
  destruct H as (nd0 & [= <-] & Hr & _).
  by rewrite (S_ISREG_not_dir _ Hr) in Hd.
Qed.

(** *** The creation pass on the reference server, node by node *)

Lemma ref_stat_node p (s : Ref.fs) nd :
  s !! Ref.resolve p = Some nd → S_ISLNK (Ref.n_mode nd) = false →
  Ref.stat p s = (inr (Ref.attrs_of "" nd), s).
Proof.
  intros E Hl. unfold Ref.stat. by rewrite (follow_not_link _ _ _ _ E Hl), E.
Qed.

Lemma ref_stat_missing p (s : Ref.fs) :
  s !! Ref.resolve p = None → Ref.stat p s = (inl (OSError (Some ENOENT)), s).
Proof. intros E. unfold Ref.stat, Ref.MAXSYMLINKS. simpl. by rewrite E. Qed.

Lemma ref_create_entry self ds n nd (s : Ref.fs) :
  s !! entry_key self ds n = None →
  Ref.is_dir_at s (root_key self ++ ds) = true →
  Ref.create (entry_key self ds n) nd s = (inr tt, <[entry_key self ds n := nd]> s).
Proof.
  intros E Hd. unfold Ref.create. rewrite E.
  unfold entry_key at 1 2. rewrite parent_snoc, Hd.
  by destruct (root_key self ++ ds).
Qed.

Lemma S_ISDIR_IFMT m m' : S_ISDIR m = true → S_ISDIR m' = true → S_IFMT m' = S_IFMT m.
Proof. unfold S_ISDIR. intros ?%Z.eqb_eq ?%Z.eqb_eq. congruence. Qed.
Lemma S_ISLNK_IFMT m m' : S_ISLNK m = true → S_ISLNK m' = true → S_IFMT m' = S_IFMT m.
Proof. unfold S_ISLNK. intros ?%Z.eqb_eq ?%Z.eqb_eq. congruence. Qed.
Lemma S_ISREG_IFMT m m' : S_ISREG m = true → S_ISREG m' = true → S_IFMT m' = S_IFMT m.
Proof. unfold S_ISREG. intros ?%Z.eqb_eq ?%Z.eqb_eq. congruence. Qed.

(** A remote node where the deletion pass has nothing to remove has the
    type of its local counterpart. *)
Lemma settled_kind self (s : Ref.fs) ds n nd l_st :
  settled self s → s !! entry_key self ds n = Some nd →
  os_lstat (os self) (entry_lpath self ds n) = Some l_st →
  S_IFMT (Ref.n_mode nd) = S_IFMT (st_mode l_st).
Proof.
  intros Hset E El. apply Hset, must_delete_false in E as (l' & E' & F).
  congruence.
Qed.

(** The directory branch up to the recursion, the directory being there
    already, or missing. *)
Lemma ref_directory_present self p l_st (s : Ref.fs) cs fl lg nd :
  s !! Ref.resolve p = Some nd → S_ISDIR (Ref.n_mode nd) = true →
  times_pack l_st = true →
  (try_except (sftp_stat Ref.server p ;;; ret tt) is_OSError
     (λ _, sftp_mkdir Ref.server p) ;;;
   _match_modes Ref.server self p l_st) (World s cs fl lg)
  = (inr tt, World (<[Ref.resolve p := matched self l_st nd]> s)
                   (cs ++ Stat p :: modes_calls self p l_st) fl lg).
Proof.
  intros E Hd Hpk. assert (S_ISLNK (Ref.n_mode nd) = false) as Hl
    by by apply S_ISDIR_not_lnk.
  unfold bind at 1, try_except, bind, sftp_stat, issue.
  cbn [srv_stat Ref.server remote]. rewrite (ref_stat_node _ _ _ E Hl).
  cbn [fst snd remote calls failed logged ret].
  rewrite (ref_match_modes _ _ _ _ _ _ _ _ E Hl Hpk). by rewrite <- app_assoc.
Qed.

Lemma ref_directory_missing self ds n p l_st (s : Ref.fs) cs fl lg :
  Ref.resolve p = entry_key self ds n →
  s !! entry_key self ds n = None →
  Ref.is_dir_at s (root_key self ++ ds) = true →
  times_pack l_st = true →
  (try_except (sftp_stat Ref.server p ;;; ret tt) is_OSError
     (λ _, sftp_mkdir Ref.server p) ;;;
   _match_modes Ref.server self p l_st) (World s cs fl lg)
  = (inr tt, World (<[entry_key self ds n := matched self l_st Ref.new_dir]> s)
                   (cs ++ Stat p :: Mkdir p :: modes_calls self p l_st)
                   (fl ++ [(Stat p, OSError (Some ENOENT))]) lg).
Proof.
  intros Hp E Hd Hpk.
  unfold bind at 1, try_except, bind, sftp_stat, sftp_mkdir, issue.
  cbn [srv_stat srv_mkdir Ref.server remote].
  rewrite ref_stat_missing by by rewrite Hp.
  cbn [fst snd remote calls failed logged ret is_OSError].
  unfold Ref.mkdir. rewrite Hp, (ref_create_entry _ _ _ _ _ E Hd).
  cbn [fst snd remote calls failed logged ret].
  rewrite (ref_match_modes _ _ _ _ _ _ _ Ref.new_dir)
    by (rewrite ?Hp, ?lookup_insert_eq; done).
  by rewrite Hp, insert_insert_eq, <- !app_assoc.
Qed.

(** The link branch: the link is there with the wanted target, there with
    another one, or missing. *)
Lemma ref_symlink_same d p (s : Ref.fs) cs fl lg nd :
  s !! Ref.resolve p = Some nd → S_ISLNK (Ref.n_mode nd) = true →
  Ref.n_link nd = d →
  create_update_symlink Ref.server d p (World s cs fl lg)
  = (inr tt, World s (cs ++ [Readlink p]) fl lg).
Proof.
  intros E Hl Hd.
  unfold create_update_symlink, try_except, bind, sftp_readlink, issue.
  cbn [srv_readlink Ref.server remote]. unfold Ref.readlink. rewrite E, Hl.
  world_red. by rewrite Hd, String.eqb_refl.
Qed.

Lemma ref_symlink_other self ds n d p (s : Ref.fs) cs fl lg nd :
  Ref.resolve p = entry_key self ds n →
  s !! entry_key self ds n = Some nd → S_ISLNK (Ref.n_mode nd) = true →
  Ref.n_link nd ≠ d →
  Ref.is_dir_at s (root_key self ++ ds) = true →
  create_update_symlink Ref.server d p (World s cs fl lg)
  = (inr tt, World (<[entry_key self ds n := Ref.new_link d]> s)
                   (cs ++ [Readlink p; Remove p; Symlink d p]) fl lg).
Proof.
  intros Hp E Hl Hd Hdir.
  unfold create_update_symlink, try_except, bind, sftp_readlink, sftp_remove,
    sftp_symlink, issue.
  cbn [srv_readlink srv_remove srv_symlink Ref.server remote].
  unfold Ref.readlink, Ref.remove, Ref.symlink. rewrite Hp, E, Hl.
  world_red.
  destruct (String.eqb_spec d (Ref.n_link nd)) as [->|_]; [done|].
  rewrite E, (S_ISLNK_not_dir _ Hl).
  world_red.
  rewrite (ref_create_entry self ds n).
  - world_red.
    by rewrite insert_delete_eq, <- !app_assoc.
  - apply lookup_delete_eq.
  - unfold Ref.is_dir_at in *. rewrite lookup_delete_ne; [done|].
    apply entry_key_not_dir.
Qed.

Lemma ref_symlink_missing self ds n d p (s : Ref.fs) cs fl lg :
  Ref.resolve p = entry_key self ds n →
  s !! entry_key self ds n = None →
  Ref.is_dir_at s (root_key self ++ ds) = true →
  create_update_symlink Ref.server d p (World s cs fl lg)
  = (inr tt, World (<[entry_key self ds n := Ref.new_link d]> s)
                   (cs ++ [Readlink p; Symlink d p])
                   (fl ++ [(Readlink p, OSError (Some ENOENT))]) lg).
Proof.
  intros Hp E Hdir.
  unfold create_update_symlink, try_except, bind, sftp_readlink, sftp_symlink, issue.
  cbn [srv_readlink srv_symlink Ref.server remote].
  unfold Ref.readlink, Ref.symlink. rewrite Hp, E.
  world_red.
  rewrite (ref_create_entry self ds n) by done.
  world_red. by rewrite <- !app_assoc.
Qed.

(** The regular-file branch: the file is there and current, there and
    stale, or missing. *)
Definition regular_branch (self : SFTPClone) (lp p : string) (l_st : stat_result)
  : M Ref.fs unit :=
  try_except
    (let* r_st := sftp_lstat Ref.server p in
     if _file_need_upload l_st r_st
     then file_upload Ref.server self lp p l_st
     else ret tt)
    is_OSError
    (λ e, if is_FileNotFoundError e
          then file_upload Ref.server self lp p l_st
          else ret tt).

Lemma ref_regular_same self lp p l_st (s : Ref.fs) cs fl lg nd :
  s !! Ref.resolve p = Some nd →
  _file_need_upload l_st (Ref.attrs_of "" nd) = false →
  regular_branch self lp p l_st (World s cs fl lg)
  = (inr tt, World s (cs ++ [Lstat p]) fl lg).
Proof.
  intros E Hn. unfold regular_branch, try_except, bind, sftp_lstat, issue.
  cbn [srv_lstat Ref.server remote]. unfold Ref.lstat. rewrite E.
  world_red. by rewrite Hn.
Qed.

Lemma ref_regular_stale self lp p l_st (s : Ref.fs) cs fl lg nd :
  os_lstat (os self) lp = Some l_st →
  s !! Ref.resolve p = Some nd → S_ISREG (Ref.n_mode nd) = true →
  _file_need_upload l_st (Ref.attrs_of "" nd) = true →
  times_pack l_st = true →
  regular_branch self lp p l_st (World s cs fl lg)
  = (inr tt,
     World (<[Ref.resolve p := matched self l_st (Ref.set_content (st_size l_st) nd)]> s)
           (cs ++ Lstat p :: Put lp p (st_size l_st) :: modes_calls self p l_st)
           fl lg).
Proof.
  intros El E Hr Hn Hpk. assert (S_ISLNK (Ref.n_mode nd) = false) as Hl
    by by apply S_ISREG_not_lnk.
  unfold regular_branch, try_except, bind at 1, sftp_lstat, issue.
  cbn [srv_lstat Ref.server remote]. unfold Ref.lstat. rewrite E.
  world_red. rewrite Hn.
  unfold file_upload, bind, sftp_put, issue. rewrite El.
  cbn [srv_put Ref.server remote]. unfold Ref.put.
  rewrite E, (follow_not_link _ _ _ _ E Hl), E, Hr.
  world_red.
  rewrite (ref_match_modes _ _ _ _ _ _ _ (Ref.set_content (st_size l_st) nd))
    by (rewrite ?lookup_insert_eq; done).
  by rewrite insert_insert_eq, <- !app_assoc.
Qed.

Lemma ref_regular_missing self ds n lp p l_st (s : Ref.fs) cs fl lg :
  os_lstat (os self) lp = Some l_st →
  Ref.resolve p = entry_key self ds n →
  s !! entry_key self ds n = None →
  Ref.is_dir_at s (root_key self ++ ds) = true →
  times_pack l_st = true →
  regular_branch self lp p l_st (World s cs fl lg)
  = (inr tt,
     World (<[entry_key self ds n := matched self l_st (Ref.new_file (st_size l_st))]> s)
           (cs ++ Lstat p :: Put lp p (st_size l_st) :: modes_calls self p l_st)
           (fl ++ [(Lstat p, OSError (Some ENOENT))]) lg).
Proof.
  intros El Hp E Hdir Hpk.
  unfold regular_branch, try_except, bind at 1, sftp_lstat, issue.
  cbn [srv_lstat Ref.server remote]. unfold Ref.lstat. rewrite Hp, E.
  world_red.
  change (ENOENT =? ENOENT) with true. cbn iota.
  unfold file_upload, bind, sftp_put, issue. rewrite El.
  cbn [srv_put Ref.server remote]. unfold Ref.put.
  rewrite Hp, E, (ref_create_entry self ds n) by done.
  world_red.
  rewrite (ref_match_modes _ _ _ _ _ _ _ (Ref.new_file (st_size l_st)))
    by (rewrite ?Hp, ?lookup_insert_eq; done).
  by rewrite Hp, insert_insert_eq, <- !app_assoc.
Qed.

(** With a time that cannot be sent the upload ends at [utime], and
    [struct.error] leaves the branch. *)
Lemma ref_regular_stale_unpacked self lp p l_st (s : Ref.fs) cs fl lg nd :
  os_lstat (os self) lp = Some l_st →
  s !! Ref.resolve p = Some nd → S_ISREG (Ref.n_mode nd) = true →
  _file_need_upload l_st (Ref.attrs_of "" nd) = true →
  times_pack l_st = false →
  (regular_branch self lp p l_st (World s cs fl lg)).1 = inl Struct_error.
Proof.
  intros El E Hr Hn Hpk. assert (S_ISLNK (Ref.n_mode nd) = false) as Hl
    by by apply S_ISREG_not_lnk.
  unfold regular_branch, try_except, bind at 1, sftp_lstat, issue.
  cbn [srv_lstat Ref.server remote]. unfold Ref.lstat. rewrite E.
  world_red. rewrite Hn.
  unfold file_upload, bind, sftp_put, issue. rewrite El.
  cbn [srv_put Ref.server remote]. unfold Ref.put.
  rewrite E, (follow_not_link _ _ _ _ E Hl), E, Hr.
  world_red.
  pose proof (ref_match_modes_unpacked self p l_st
                (<[Ref.resolve p := Ref.set_content (st_size l_st) nd]> s)
                (cs ++ [Lstat p] ++ [Put lp p (st_size l_st)]) fl lg
                (Ref.set_content (st_size l_st) nd)) as H.
  rewrite lookup_insert_eq in H. specialize (H eq_refl Hl Hpk).
  rewrite <- app_assoc.
  destruct (_match_modes _ _ _ _ _) as [[e|[]] w1]; simpl in H; [|done].
  by injection H as ->.
Qed.

Lemma ref_regular_missing_unpacked self ds n lp p l_st (s : Ref.fs) cs fl lg :
  os_lstat (os self) lp = Some l_st →
  Ref.resolve p = entry_key self ds n →
  s !! entry_key self ds n = None →
  Ref.is_dir_at s (root_key self ++ ds) = true →
  times_pack l_st = false →
  (regular_branch self lp p l_st (World s cs fl lg)).1 = inl Struct_error.
Proof.
  intros El Hp E Hdir Hpk.
  unfold regular_branch, try_except, bind at 1, sftp_lstat, issue.
  cbn [srv_lstat Ref.server remote]. unfold Ref.lstat. rewrite Hp, E.
  world_red.
  change (ENOENT =? ENOENT) with true. cbn iota.
  unfold file_upload, bind, sftp_put, issue. rewrite El.
  cbn [srv_put Ref.server remote]. unfold Ref.put.
  rewrite Hp, E, (ref_create_entry self ds n) by done.
  world_red.
  pose proof (ref_match_modes_unpacked self p l_st
                (<[entry_key self ds n := Ref.new_file (st_size l_st)]> s)
                ((cs ++ [Lstat p]) ++ [Put lp p (st_size l_st)])
                (fl ++ [(Lstat p, OSError (Some ENOENT))]) lg
                (Ref.new_file (st_size l_st))) as H.
  rewrite Hp, lookup_insert_eq in H. specialize (H eq_refl eq_refl Hpk).
  destruct (_match_modes _ _ _ _ _) as [[e|[]] w1]; simpl in H; [|done].
  by injection H as ->.
Qed.

Lemma bind_assoc {S A B C} (m : M S A) (k : A → M S B) (h : B → M S C) w :
  bind m (λ a, bind (k a) h) w = bind (bind m k) h w.
Proof. unfold bind. by destruct (m w) as [[e|a] w1]. Qed.

Lemma check_for_upload_create_S srv self fuel relative_path :
  check_for_upload_create srv self (S fuel) relative_path
  = (let* names := listdir_local srv self relative_path in
     for_each names (node_check_for_upload_create srv self fuel relative_path)).
Proof. reflexivity. Qed.

(** What handling one local node has done to the store, its own subtree
    left aside: nothing, or its node set to one of the local node's type;
    and the node is in sync. *)
Definition node_done (self : SFTPClone) (ds : list string) (n : string)
    (s s' : Ref.fs) : Prop :=
  (s' = s ∨ ∃ nd', s' = <[entry_key self ds n := nd']> s ∧
                   must_delete self ds n nd' = false) ∧
  in_sync self ds n s'.

Lemma in_sync_excluded self ds n (s : Ref.fs) :
  entry_lpath self ds n ∈ exclude_list self → in_sync self ds n s.
Proof.
  intros Hex. unfold in_sync, node_in_sync.
  destruct (os_lstat _ _); [by left|done].
Qed.

Lemma kind_of_local self ds n l_st nd :
  os_lstat (os self) (entry_lpath self ds n) = Some l_st →
  S_IFMT (Ref.n_mode nd) = S_IFMT (st_mode l_st) →
  must_delete self ds n nd = false.
Proof. intros El Hf. apply must_delete_false. eauto. Qed.

Lemma symlink_written self ds n d p l_st (s : Ref.fs) cs fl lg (w' : world Ref.fs) :
  settled self s → Ref.resolve p = entry_key self ds n →
  Ref.is_dir_at s (root_key self ++ ds) = true →
  os_lstat (os self) (entry_lpath self ds n) = Some l_st →
  S_ISLNK (st_mode l_st) = true →
  create_update_symlink Ref.server d p (World s cs fl lg) = (inr tt, w') →
  (remote w' = s ∨ ∃ nd', remote w' = <[entry_key self ds n := nd']> s ∧
                          must_delete self ds n nd' = false) ∧
  ∃ nd, remote w' !! entry_key self ds n = Some nd ∧
        S_ISLNK (Ref.n_mode nd) = true ∧ Ref.n_link nd = d.
Proof.
  intros Hset Hp Hdir El Hl.
  destruct (s !! entry_key self ds n) as [nd|] eqn:E.
  - pose proof (settled_kind _ _ _ _ _ _ Hset E El) as Hf.
    assert (S_ISLNK (Ref.n_mode nd) = true) as Hnl
      by (unfold S_ISLNK in *; by rewrite Hf).
    destruct (decide (Ref.n_link nd = d)) as [Hd|Hd].
    + rewrite (ref_symlink_same d p s cs fl lg nd) by (by rewrite ?Hp).
      intros [= <-]. simpl. split; [by left|]. eauto.
    + rewrite (ref_symlink_other self ds n d p s cs fl lg nd) by done.
      intros [= <-]. simpl. split.
      * right. eexists. split; [done|]. eapply kind_of_local; [done|].
        by apply S_ISLNK_IFMT.
      * rewrite lookup_insert_eq. eauto.
  - rewrite (ref_symlink_missing self ds n d p s cs fl lg) by done.
    intros [= <-]. simpl. split.
    + right. eexists. split; [done|]. eapply kind_of_local; [done|].
      by apply S_ISLNK_IFMT.
    + rewrite lookup_insert_eq. eauto.
Qed.

Lemma regular_written self ds n p l_st (s : Ref.fs) cs fl lg (w' : world Ref.fs) :
  settled self s → Ref.resolve p = entry_key self ds n →
  Ref.is_dir_at s (root_key self ++ ds) = true →
  os_lstat (os self) (entry_lpath self ds n) = Some l_st →
  S_ISREG (st_mode l_st) = true →
  regular_branch self (entry_lpath self ds n) p l_st (World s cs fl lg)
  = (inr tt, w') →
  (remote w' = s ∨ ∃ nd', remote w' = <[entry_key self ds n := nd']> s ∧
                          must_delete self ds n nd' = false) ∧
  ∃ nd, remote w' !! entry_key self ds n = Some nd ∧
        S_ISREG (Ref.n_mode nd) = true ∧
        Ref.n_size nd = st_size l_st ∧ Ref.n_mtime nd = int (st_mtime l_st).
Proof.
  intros Hset Hp Hdir El Hr.
  destruct (s !! entry_key self ds n) as [nd|] eqn:E.
  - pose proof (settled_kind _ _ _ _ _ _ Hset E El) as Hf.
    assert (S_ISREG (Ref.n_mode nd) = true) as Hnr
      by (unfold S_ISREG in *; by rewrite Hf).
    destruct (_file_need_upload l_st (Ref.attrs_of "" nd)) eqn:Hup.
    + destruct (times_pack l_st) eqn:Hpk.
      2:{ intros Hrun.
          pose proof (ref_regular_stale_unpacked self _ p l_st s cs fl lg nd El) as H.
          rewrite Hp, Hrun in H. by specialize (H E Hnr Hup Hpk). }
      rewrite (ref_regular_stale self _ p l_st s cs fl lg nd)
        by (by rewrite ?Hp).
      intros [= <-]. simpl. rewrite Hp.
      destruct (matched_facts self l_st (Ref.set_content (st_size l_st) nd))
        as (F1 & F2 & F3 & _).
      split.
      * right. eexists. split; [done|]. eapply kind_of_local; [done|].
        by rewrite F1.
      * rewrite lookup_insert_eq. eexists. split; [done|].
        split_and!; [|done|done]. unfold S_ISREG in *. by rewrite F1.
    + rewrite (ref_regular_same self _ p l_st s cs fl lg nd) by (by rewrite ?Hp).
      intros [= <-]. simpl. split; [by left|]. exists nd.
      split_and!; [done|done|..].
      * destruct (decide (Ref.n_size nd = st_size l_st)) as [|Hne]; [done|].
        assert (false = true); [|done]. rewrite <- Hup.
        apply file_need_upload_spec. left. simpl. congruence.
      * destruct (decide (Ref.n_mtime nd = int (st_mtime l_st))) as [|Hne]; [done|].
        assert (false = true); [|done]. rewrite <- Hup.
        apply file_need_upload_spec. right. simpl. congruence.
  - destruct (times_pack l_st) eqn:Hpk.
    2:{ intros Hrun.
        pose proof (ref_regular_missing_unpacked self ds n _ p l_st s cs fl lg
                      El Hp E Hdir Hpk) as H.
        by rewrite Hrun in H. }
    rewrite (ref_regular_missing self ds n _ p l_st s cs fl lg) by done.
    intros [= <-]. simpl.
    destruct (matched_facts self l_st (Ref.new_file (st_size l_st)))
      as (F1 & F2 & F3 & _).
    split.
    + right. eexists. split; [done|]. eapply kind_of_local; [done|].
      rewrite F1. by apply S_ISREG_IFMT.
    + rewrite lookup_insert_eq. eexists. split; [done|].
      split_and!; [|done|done]. unfold S_ISREG in *. by rewrite F1.
Qed.

Lemma node_other_ok self fuel ds n l_st (s : Ref.fs) cs fl lg (w' : world Ref.fs) :
  settled self s → Forall simple ds → simple n →
  Ref.is_dir_at s (root_key self ++ ds) = true →
  os_lstat (os self) (entry_lpath self ds n) = Some l_st →
  S_ISDIR (st_mode l_st) = false ∨ entry_lpath self ds n ∈ exclude_list self →
  node_check_for_upload_create Ref.server self fuel (rel_of ds) n (World s cs fl lg)
  = (inr tt, w') →
  node_done self ds n s (remote w').
Proof.
  intros Hset Hds Hn Hdir El Hcase.
  pose proof (resolve_entry_key self ds n Hds Hn) as Hp.
  destruct (decide (entry_lpath self ds n ∈ exclude_list self)) as [Hex|Hex].
  { rewrite (node_excluded _ _ _ _ _ l_st) by done. intros [= <-]. simpl.
    split; [by left|by apply in_sync_excluded]. }
  destruct Hcase as [Hnd|?]; [|done].
  unfold node_done, in_sync, node_in_sync. rewrite El, Hnd.
  destruct (S_ISLNK (st_mode l_st)) eqn:Hl.
  { destruct (os_readlink (os self) (entry_lpath self ds n)) as [ll|] eqn:Er.
    2:{ unfold node_check_for_upload_create, node_body, bind, lstat_local.
        unfold entry_lpath in El, Hex, Er. unfold join3.
        rewrite El. world_red. rewrite bool_decide_eq_false_2 by done.
        by rewrite Hnd, Hl, Er. }
    rewrite (node_symlink _ _ _ _ _ l_st ll) by done.
    cbn [mbind option_bind]. unfold link_destination.
    destruct (startswith_sep ll && String.prefix _ _).
    - destruct (fix_symlinks self).
      + intros Hrun.
        destruct (symlink_written _ _ _ _ _ _ _ _ _ _ _ Hset Hp Hdir El Hl Hrun)
          as [Hs Hnode].
        split; [done|]. right. by intros d' [= <-].
      + intros [= <-]. simpl. split; [by left|]. right. by intros d.
    - intros Hrun.
      destruct (symlink_written _ _ _ _ _ _ _ _ _ _ _ Hset Hp Hdir El Hl Hrun)
        as [Hs Hnode].
      split; [done|]. right. by intros d' [= <-]. }
  destruct (S_ISREG (st_mode l_st)) eqn:Hr.
  { rewrite (node_regular _ _ _ _ _ l_st) by done. intros Hrun.
    destruct (regular_written _ _ _ _ _ _ _ _ _ _ Hset Hp Hdir El Hr Hrun)
      as [Hs Hnode].
    split; [done|]. by right. }
  unfold node_check_for_upload_create, node_body, bind, lstat_local.
  unfold entry_lpath in El, Hex. unfold join3.
  rewrite El. world_red. rewrite bool_decide_eq_false_2 by done.
  rewrite Hnd, Hl, Hr. intros [= <-]. simpl. split; [by left|by right].
Qed.

(** The directory branch hands a directory over to the recursion. *)
Lemma directory_made self ds n p l_st (s : Ref.fs) cs fl lg (R : M Ref.fs unit) :
  settled self s → Ref.resolve p = entry_key self ds n →
  Ref.is_dir_at s (root_key self ++ ds) = true →
  os_lstat (os self) (entry_lpath self ds n) = Some l_st →
  S_ISDIR (st_mode l_st) = true →
  times_pack l_st = true →
  ∃ nd' cs' fl',
    S_ISDIR (Ref.n_mode nd') = true ∧
    (try_except (sftp_stat Ref.server p ;;; ret tt) is_OSError
       (λ _, sftp_mkdir Ref.server p) ;;;
     _match_modes Ref.server self p l_st ;;; R) (World s cs fl lg)
    = R (World (<[entry_key self ds n := nd']> s) cs' fl' lg).
Proof.
  intros Hset Hp Hdir El Hd Hpk.
  destruct (s !! entry_key self ds n) as [nd|] eqn:E.
  - pose proof (settled_kind _ _ _ _ _ _ Hset E El) as Hf.
    assert (S_ISDIR (Ref.n_mode nd) = true) as Hnd
      by (unfold S_ISDIR in *; by rewrite Hf).
    exists (matched self l_st nd). do 2 eexists. split.
    + unfold S_ISDIR in *. by rewrite (proj1 (matched_facts self l_st nd)).
    + rewrite bind_assoc. unfold bind at 1.
      rewrite (ref_directory_present self p l_st s cs fl lg nd) by (by rewrite ?Hp).
      by rewrite Hp.
  - exists (matched self l_st Ref.new_dir). do 2 eexists. split.
    + unfold S_ISDIR. by rewrite (proj1 (matched_facts self l_st Ref.new_dir)).
    + rewrite bind_assoc. unfold bind at 1.
      by rewrite (ref_directory_missing self ds n p l_st s cs fl lg).
Qed.

(** From one store of the creation pass to a later one: still tidy,
    directories still there, nodes in sync still in sync. *)
Definition carried (self : SFTPClone) (s s' : Ref.fs) : Prop :=
  tidy self s' ∧
  (∀ k, Ref.is_dir_at s k = true → Ref.is_dir_at s' k = true) ∧
  (∀ ds n, in_sync self ds n s → in_sync self ds n s').

Lemma carried_refl self (s : Ref.fs) : tidy self s → carried self s s.
Proof. by intros H. Qed.

Lemma carried_trans self (s1 s2 s3 : Ref.fs) :
  carried self s1 s2 → carried self s2 s3 → carried self s1 s3.
Proof. intros (? & ? & ?) (? & ? & ?). split_and!; auto. Qed.

Lemma node_done_carried self ds n (s s' : Ref.fs) :
  tidy self s → simple n → Ref.is_dir_at s (root_key self ++ ds) = true →
  node_done self ds n s s' → carried self s s'.
Proof.
  intros Ht Hn Hdir [[->|(nd' & -> & Hnd')] Hsync]; [by apply carried_refl|].
  split_and!.
  - by apply tidy_insert.
  - intros k Hk. unfold Ref.is_dir_at in *.
    destruct (decide (k = entry_key self ds n)) as [->|Hne].
    + rewrite lookup_insert_eq.
      destruct (s !! entry_key self ds n) as [nd0|] eqn:E0; [|done].
      apply (proj2 Ht), must_delete_false in E0 as (l0 & E0 & F0).
      apply must_delete_false in Hnd' as (l1 & E1 & F1).
      unfold S_ISDIR in *. rewrite F1. rewrite F0 in Hk. congruence.
    + by rewrite lookup_insert_ne.
  - intros ds' n' H'.
    destruct (decide (entry_key self ds' n' = entry_key self ds n)) as [Heq|Hne].
    + by apply entry_key_inj in Heq as [-> ->].
    + unfold in_sync in *. by rewrite lookup_insert_ne.
Qed.

(** The store after the creation pass over the directory [ds]. *)
Definition creation_result (self : SFTPClone) (ds : list string)
    (s s' : Ref.fs) : Prop :=
  carried self s s' ∧
  (∀ ds' n', below self ds ds' n' → in_sync self ds' n' s').

Lemma listdir_local_ok srv self ds (w : world (srv_state srv)) names w' :
  listdir_local srv self (rel_of ds) w = (inr names, w') →
  os_listdir (os self) (local_dir self ds) = Some names ∧ w' = w.
Proof.
  unfold listdir_local, local_dir.
  destruct (os_listdir _ _) as [l|]; [|done]. by intros [= <- <-].
Qed.

Lemma creation_ok self fuel :
  local_names_simple self →
  ∀ ds (s : Ref.fs) cs fl lg (w' : world Ref.fs),
    tidy self s → Forall simple ds →
    Ref.is_dir_at s (root_key self ++ ds) = true →
    check_for_upload_create Ref.server self fuel (rel_of ds) (World s cs fl lg)
    = (inr tt, w') →
    creation_result self ds s (remote w').
Proof.
  intros Hnames. induction fuel as [|fuel IH];
    intros ds s cs fl lg w' Ht Hds Hdir Hrun; [discriminate Hrun|].
  rewrite check_for_upload_create_S in Hrun.
  bind_ok Hrun El. apply listdir_local_ok in El as [El ->].
  pose proof (Hnames _ _ El) as Hsimple.
  pose (I := λ (done : list string) (w : world Ref.fs),
    carried self s (remote w) ∧
    ∀ n, n ∈ done →
      in_sync self ds n (remote w) ∧
      (walked_dir self ds n →
       ∀ ds' n', below self (ds ++ [n]) ds' n' → in_sync self ds' n' (remote w))).
  assert (I l w') as [Hc Hall].
  { apply (for_each_invariant _ I _ _ _ Hrun).
    - split; [by apply carried_refl|]. by intros n ?%elem_of_nil.
    - intros done x rest [s1 cs1 fl1 lg1] w2 Hl [Hc1 Hd1] Hbody. simpl in Hc1, Hd1.
      assert (simple x) as Hx.
      { rewrite Forall_forall in Hsimple. apply Hsimple. rewrite Hl. set_solver. }
      assert (Ref.is_dir_at s1 (root_key self ++ ds) = true) as Hdir1
        by by apply Hc1.
      destruct Hc1 as (Ht1 & Hdirs1 & Hsync1).
      destruct (os_lstat (os self) (entry_lpath self ds x)) as [l_st|] eqn:Ex.
      2:{ unfold node_check_for_upload_create, node_body, bind, lstat_local in Hbody.
          unfold entry_lpath in Ex. unfold join3 in Hbody. by rewrite Ex in Hbody. }
      assert (∀ s2 : Ref.fs, carried self s1 s2 → in_sync self ds x s2 →
                (walked_dir self ds x →
                 ∀ ds' n', below self (ds ++ [x]) ds' n' → in_sync self ds' n' s2) →
                I (done ++ [x]) (World s2 (calls w2) (failed w2) (logged w2)))
        as Hfinish.
      { intros s2 Hc2 Hx2 Hb2. split; simpl.
        - eapply carried_trans; [|done]. by split_and!.
        - intros n [Hn| ->%list_elem_of_singleton]%elem_of_app; [|done].
          destruct (Hd1 n Hn) as [H1 H2]. destruct Hc2 as (_ & _ & Hs2).
          split; [by apply Hs2|]. intros Hw ds' n' Hb. by apply Hs2, H2. }
      destruct (decide (S_ISDIR (st_mode l_st) = true
                        ∧ entry_lpath self ds x ∉ exclude_list self))
        as [[Hd Hex]|Hno].
      + unfold node_check_for_upload_create in Hbody.
        rewrite (node_directory _ _ _ _ _ l_st) in Hbody by done.
        pose proof (directory_packs Ref.server self _ l_st _ _ _ Hbody) as Hpk.
        destruct (directory_made self ds x
                    (join3 (remote_path self) (rel_of ds) x) l_st s1 cs1 fl1 lg1
                    (check_for_upload_create Ref.server self fuel
                       (join (rel_of ds) x)))
          as (nd' & cs' & fl' & Hnd' & Eq);
          [apply Ht1|by apply resolve_entry_key|done..|].
        rewrite Eq in Hbody. clear Eq. rewrite <- rel_of_snoc in Hbody.
        set (s1' := <[entry_key self ds x := nd']> s1) in *.
        assert (node_done self ds x s1 s1') as Hnode.
        { split.
          - right. exists nd'. split; [done|]. eapply kind_of_local; [done|].
            by apply S_ISDIR_IFMT.
          - unfold in_sync, node_in_sync. rewrite Ex, Hd. right. exists nd'.
            split; [|done]. apply lookup_insert_eq. }
        pose proof (node_done_carried self ds x s1 s1' Ht1 Hx Hdir1 Hnode) as Hc1'.
        apply IH in Hbody.
        * destruct Hbody as [Hc2 Hb2].
          destruct w2 as [s2 cs2 fl2 lg2]. simpl in *. apply Hfinish.
          -- by eapply carried_trans.
          -- apply Hc2, Hnode.
          -- intros _. apply Hb2.
        * apply Hc1'.
        * apply Forall_app. split; [done|by constructor].
        * rewrite app_assoc. unfold Ref.is_dir_at, s1'.
          fold (entry_key self ds x). by rewrite lookup_insert_eq.
      + apply (node_other_ok _ _ _ _ l_st) in Hbody; try done.
        2: apply Ht1.
        2:{ destruct (S_ISDIR (st_mode l_st)); [|by left]. right.
            destruct (decide (entry_lpath self ds x ∈ exclude_list self)); [done|].
            exfalso. by apply Hno. }
        destruct w2 as [s2 cs2 fl2 lg2]. simpl in *. apply Hfinish.
        * by apply (node_done_carried self ds x).
        * apply Hbody.
        * intros (l' & E' & Hd' & Hex'). exfalso. apply Hno. split; congruence. }
  split; [done|].
  intros ds' n' Hb. inversion Hb as [? names n Eq Hn|? names d ? ? Eq Hd Hw Hsub]; subst.
  - rewrite El in Eq. injection Eq as <-. by destruct (Hall n' Hn).
  - rewrite El in Eq. injection Eq as <-. destruct (Hall d Hd) as [_ H]. by apply H.
Qed.

(** The deletion pass leaves a tidy store; the root it has listed is a
    directory. *)
Lemma deletion_settles self fuel (s : Ref.fs) cs fl lg (w' : world Ref.fs) :
  wf s →
  check_for_deletion Ref.server self fuel "" (World s cs fl lg) = (inr tt, w') →
  tidy self (remote w') ∧ Ref.is_dir_at (remote w') (root_key self) = true.
Proof.
  intros Hwf Hrun.
  destruct (check_for_deletion_ok self fuel [] s cs fl lg w' Hwf (Forall_nil_2 _) Hrun)
    as ([Hin Hout] & _).
  split; [split|].
  - eapply wf_pass_result; [done|]. by split.
  - intros ds n nd E. unfold entry_key in E.
    specialize (Hin (ds ++ [n])). rewrite app_nil_r, app_assoc in Hin.
    rewrite Hin in E. destruct (doomed self s [] (ds ++ [n])) eqn:Hdm; [done|].
    rewrite (doomed_snoc self s [] ds n nd Hwf) in Hdm by done.
    by apply orb_false_iff in Hdm as [_ ?].
  - destruct fuel as [|fuel]; [done|].
    rewrite check_for_deletion_S in Hrun. cbv zeta in Hrun. bind_ok Hrun El.
    apply ref_listdir_attr_ok in El as (_ & Hd & _).
    rewrite resolve_join_empty in Hd. fold (root_key self) in Hd.
    specialize (Hin []). simpl in Hin. rewrite !app_nil_r in Hin.
    unfold Ref.is_dir_at in *. by rewrite Hin.
Qed.

(** *** Executions that keep an invariant of the remote store *)

Section Keeps.
Context {S : Type} (J : S → Prop) (P : call → Prop).

(** From a store where [J] holds, [m] issues calls that satisfy [P] only
    and ends, normally or not, in a store where [J] holds. *)
Definition keeps {A} (m : M S A) : Prop :=
  ∀ w, J (remote w) →
       J (remote (m w).2) ∧ ∃ tr, calls (m w).2 = calls w ++ tr ∧ Forall P tr.

Lemma keeps_ret {A} (a : A) : keeps (ret a).
Proof. intros w HJ. split; [done|]. exists []. by rewrite app_nil_r. Qed.

Lemma keeps_raise {A} e : keeps (@raise S A e).
Proof. intros w HJ. split; [done|]. exists []. by rewrite app_nil_r. Qed.

Lemma keeps_logger r : keeps (@logger S r).
Proof. intros w HJ. split; [done|]. exists []. simpl. by rewrite app_nil_r. Qed.

Lemma keeps_bind {A B} (m : M S A) (k : A → M S B) :
  keeps m → (∀ a, keeps (k a)) → keeps (bind m k).
Proof.
  intros Hm Hk w HJ. unfold bind.
  destruct (Hm w HJ) as (HJ1 & tr1 & E1 & H1).
  destruct (m w) as [[e|a] w1]; simpl in *; [eauto|].
  destruct (Hk a w1 HJ1) as (HJ2 & tr2 & E2 & H2).
  split; [done|].
  exists (tr1 ++ tr2). rewrite E2, E1, <- app_assoc. split; [done|].
  by apply Forall_app.
Qed.

(** The same, with what is known of the value [m] returns. *)
Lemma keeps_bind_returned {A B} (Q : A → Prop) (m : M S A) (k : A → M S B) :
  keeps m →
  (∀ w a w', J (remote w) → m w = (inr a, w') → Q a) →
  (∀ a, Q a → keeps (k a)) → keeps (bind m k).
Proof.
  intros Hm HQ Hk w HJ. unfold bind.
  destruct (Hm w HJ) as (HJ1 & tr1 & E1 & H1).
  destruct (m w) as [[e|a] w1] eqn:Em; simpl in *; [eauto|].
  destruct (Hk a (HQ _ _ _ HJ Em) w1 HJ1) as (HJ2 & tr2 & E2 & H2).
  split; [done|].
  exists (tr1 ++ tr2). rewrite E2, E1, <- app_assoc. split; [done|].
  by apply Forall_app.
Qed.

Lemma keeps_issue {A} c (op : S → (exn + A) * S) :
  (∀ s, J s → J (op s).2) → P c → keeps (issue c op).
Proof.
  intros Hop Hc w HJ. unfold issue. specialize (Hop _ HJ).
  destruct (op (remote w)) as [[e|a] s]; simpl in *;
    (split; [done|]; exists [c]; split; [done|by constructor]).
Qed.

Lemma keeps_for_each {A} (xs : list A) (body : A → M S unit) :
  (∀ x, x ∈ xs → keeps (body x)) → keeps (for_each xs body).
Proof.
  induction xs as [|x xs IH]; intros Hb; simpl.
  - apply keeps_ret.
  - apply keeps_bind; [apply Hb; left|]. intros _. apply IH.
    intros y Hy. apply Hb. by right.
Qed.

Lemma keeps_ext {A} (m m' : M S A) :
  (∀ w, J (remote w) → m w = m' w) → keeps m' → keeps m.
Proof. intros E Hm w HJ. rewrite (E w HJ). by apply Hm. Qed.

End Keeps.

(** On a tidy store the deletion pass only reads. *)
Definition reading (c : call) : Prop := is_write c = false.

Lemma deletion_reads self fuel (s : Ref.fs) :
  tidy self s →
  ∀ ds, Forall simple ds →
    keeps (λ s', s' = s) reading (check_for_deletion Ref.server self fuel (rel_of ds)).
Proof.
  intros [Hwf Hset]. induction fuel as [|fuel IH]; intros ds Hds;
    [apply keeps_raise|].
  rewrite check_for_deletion_S. cbv zeta.
  pose proof (resolve_dir (remote_path self) ds Hds) as Hp.
  fold (root_key self) in Hp.
  apply (keeps_bind_returned _ _ (λ l, l = Ref.children s (root_key self ++ ds))).
  { apply keeps_issue; [|done]. intros s' ->. simpl. unfold Ref.listdir_attr.
    destruct (s !! _) as [nd|]; [|done]. by destruct (S_ISDIR _). }
  { intros [s0 cs fl lg] l w' HJ El. simpl in HJ. subst s0.
    apply ref_listdir_attr_ok in El as (-> & _). by rewrite Hp. }
  intros l ->. apply keeps_for_each.
  intros a (n & nda & Ea & ->)%elem_of_children.
  simpl. pose proof (wf_names _ _ _ _ Hwf Ea) as Hn.
  assert (Ref.resolve (join (join (remote_path self) (rel_of ds)) n)
          = entry_key self ds n) as Hpn by by apply resolve_entry_key.
  fold (entry_key self ds n) in Ea.
  pose proof (Hset _ _ _ Ea) as Hkeep. unfold must_delete in Hkeep.
  fold (entry_lpath self ds n).
  apply (keeps_bind_returned _ _ (λ a, a = Ref.attrs_of "" nda)).
  { apply keeps_issue; [|done]. intros s' ->. simpl. unfold Ref.lstat.
    by rewrite Hpn, Ea. }
  { intros [s0 cs fl lg] l w' HJ El. simpl in HJ. subst s0.
    apply ref_lstat_ok in El as ((nd' & E' & ->) & _). congruence. }
  intros a ->.
  rewrite (must_be_deleted_mode self _ (Ref.attrs_of "" nda) (Ref.attrs_of n nda))
    by done.
  rewrite Hkeep. simpl r_mode.
  destruct (S_ISLNK (Ref.n_mode nda)); [apply keeps_ret|].
  destruct (S_ISDIR (Ref.n_mode nda)); [|apply keeps_ret].
  rewrite <- rel_of_snoc. apply IH.
  apply Forall_app. split; [done|by constructor].
Qed.

Lemma keeps_intro {S A} (J : S → Prop) (P : call → Prop) (m : M S A) :
  (∀ w r w', J (remote w) → m w = (r, w') →
             J (remote w') ∧ ∃ tr, calls w' = calls w ++ tr ∧ Forall P tr) →
  keeps J P m.
Proof. intros H w HJ. destruct (m w) as [r w'] eqn:E. by eapply H. Qed.

Lemma keeps_elim {S A} (J : S → Prop) (P : call → Prop) (m : M S A) w r w' :
  keeps J P m → J (remote w) → m w = (r, w') →
  J (remote w') ∧ ∃ tr, calls w' = calls w ++ tr ∧ Forall P tr.
Proof. intros H HJ E. specialize (H w HJ). by rewrite E in H. Qed.

(** *** The creation pass of a second run *)

(** A call that is no upload, no creation and no deletion. *)
Definition idle (c : call) : Prop :=
  is_upload c = false ∧ is_creation c = false ∧ is_deletion c = false.

(** Every node the creation pass meets is in sync. *)
Definition all_in_sync (self : SFTPClone) (s : Ref.fs) : Prop :=
  ∀ ds n, below self [] ds n → in_sync self ds n s.

(** The creation pass reaches the directory [ds]. *)
Definition walked (self : SFTPClone) (ds : list string) : Prop :=
  ∀ ds' n', below self ds ds' n' → below self [] ds' n'.

(** The times of every directory the creation pass walks into can be
    sent. *)
Definition dirs_pack (self : SFTPClone) : Prop :=
  ∀ ds n l_st, below self [] ds n →
    os_lstat (os self) (entry_lpath self ds n) = Some l_st →
    S_ISDIR (st_mode l_st) = true →
    entry_lpath self ds n ∉ exclude_list self →
    times_pack l_st = true.

Lemma idle_modes_calls self p l_st : Forall idle (modes_calls self p l_st).
Proof.
  unfold modes_calls. destruct (chown self); by repeat constructor.
Qed.

Lemma directory_present_then self p l_st (s : Ref.fs) cs fl lg nd
    (R : M Ref.fs unit) :
  s !! Ref.resolve p = Some nd → S_ISDIR (Ref.n_mode nd) = true →
  times_pack l_st = true →
  (try_except (sftp_stat Ref.server p ;;; ret tt) is_OSError
     (λ _, sftp_mkdir Ref.server p) ;;;
   _match_modes Ref.server self p l_st ;;; R) (World s cs fl lg)
  = R (World (<[Ref.resolve p := matched self l_st nd]> s)
             (cs ++ Stat p :: modes_calls self p l_st) fl lg).
Proof.
  intros E Hd Hpk. rewrite bind_assoc. unfold bind at 1.
  by rewrite (ref_directory_present self p l_st s cs fl lg nd).
Qed.

Lemma all_in_sync_dir_attrs self (s : Ref.fs) k nd nd' :
  s !! k = Some nd → S_ISDIR (Ref.n_mode nd) = true →
  S_IFMT (Ref.n_mode nd') = S_IFMT (Ref.n_mode nd) →
  all_in_sync self s → all_in_sync self (<[k := nd']> s).
Proof.
  intros E Hd Hf Hall ds n Hb. specialize (Hall ds n Hb). unfold in_sync in *.
  destruct (decide (entry_key self ds n = k)) as [Heq|Hne].
  - rewrite Heq, lookup_insert_eq. rewrite Heq, E in Hall.
    by eapply node_in_sync_dir_attrs.
  - by rewrite lookup_insert_ne.
Qed.

Lemma node_idle self fuel ds n :
  dirs_pack self →
  Forall simple ds → simple n → below self [] ds n →
  (walked_dir self ds n →
   keeps (all_in_sync self) idle
     (check_for_upload_create Ref.server self fuel (rel_of (ds ++ [n])))) →
  keeps (all_in_sync self) idle
    (node_check_for_upload_create Ref.server self fuel (rel_of ds) n).
Proof.
  intros Hpack Hds Hn Hb Hrec. apply keeps_intro.
  intros [s cs fl lg] r w' HJ. simpl in HJ.
  pose proof (HJ ds n Hb) as Hsync. unfold in_sync, node_in_sync in Hsync.
  pose proof (resolve_entry_key self ds n Hds Hn) as Hp.
  assert (all_in_sync self s ∧ ∃ tr, cs = cs ++ tr ∧ Forall idle tr) as Hsame.
  { split; [done|]. exists []. by rewrite app_nil_r. }
  destruct (os_lstat (os self) (entry_lpath self ds n)) as [l_st|] eqn:El.
  2:{ unfold node_check_for_upload_create, node_body, bind, lstat_local.
      unfold entry_lpath in El. unfold join3. rewrite El.
      intros [= <- <-]. simpl. apply Hsame. }
  destruct (decide (entry_lpath self ds n ∈ exclude_list self)) as [Hex|Hex].
  { rewrite (node_excluded _ _ _ _ _ l_st) by done. intros [= <- <-].
    simpl. apply Hsame. }
  destruct Hsync as [?|Hsync]; [done|].
  destruct (S_ISDIR (st_mode l_st)) eqn:Hd.
  { destruct Hsync as (nd & E & Hnd). unfold node_check_for_upload_create.
    rewrite (node_directory _ _ _ _ _ l_st) by done.
    pose proof (Hpack ds n l_st Hb El Hd Hex) as Hpk.
    rewrite (directory_present_then _ _ _ _ _ _ _ nd) by (by rewrite ?Hp).
    rewrite Hp, <- rel_of_snoc. intros Hrun.
    assert (walked_dir self ds n) as Hw by (by exists l_st).
    eapply (keeps_elim _ _ _ _ _ _ (Hrec Hw)) in Hrun.
    - destruct Hrun as (HJ' & tr & Etr & Htr). split; [done|].
      eexists. rewrite Etr. simpl. rewrite <- app_assoc. split; [done|].
      apply Forall_app. split; [|done]. constructor; [done|].
      apply idle_modes_calls.
    - simpl. apply (all_in_sync_dir_attrs self s _ nd); [done..| |done].
      apply matched_facts. }
  destruct (S_ISLNK (st_mode l_st)) eqn:Hl.
  { destruct (os_readlink (os self) (entry_lpath self ds n)) as [ll|] eqn:Er.
    2:{ unfold node_check_for_upload_create, node_body, bind, lstat_local.
        unfold entry_lpath in El, Hex, Er. unfold join3.
        rewrite El. world_red. rewrite bool_decide_eq_false_2 by done.
        rewrite Hd, Hl, Er. intros [= <- <-]. simpl. apply Hsame. }
    rewrite (node_symlink _ _ _ _ _ l_st ll) by done.
    cbn [mbind option_bind] in Hsync. unfold link_destination in Hsync.
    assert (∀ d, (∃ nd, s !! entry_key self ds n = Some nd ∧
                   S_ISLNK (Ref.n_mode nd) = true ∧ Ref.n_link nd = d) →
              create_update_symlink Ref.server d
                (join3 (remote_path self) (rel_of ds) n) (World s cs fl lg)
              = (r, w') →
              all_in_sync self (remote w') ∧
              ∃ tr, calls w' = cs ++ tr ∧ Forall idle tr) as Hlink.
    { intros d (nd & E & Hnl & Hnd).
      rewrite (ref_symlink_same d _ s cs fl lg nd) by (by rewrite ?Hp).
      intros [= <- <-]. simpl. split; [done|]. eexists. split; [done|].
      by repeat constructor. }
    destruct (startswith_sep ll && String.prefix _ _).
    - destruct (fix_symlinks self).
      + apply Hlink. by apply Hsync.
      + intros [= <- <-]. simpl. apply Hsame.
    - apply Hlink. by apply Hsync. }
  destruct (S_ISREG (st_mode l_st)) eqn:Hr.
  { rewrite (node_regular _ _ _ _ _ l_st) by done.
    destruct Hsync as (nd & E & Hnr & Hsz & Hmt).
    pose proof (ref_regular_same self (entry_lpath self ds n)
                  (join3 (remote_path self) (rel_of ds) n) l_st s cs fl lg nd) as Eq.
    unfold regular_branch in Eq. unfold entry_lpath in Eq. unfold join3. unfold join3 in Eq.
    rewrite Eq.
    - intros [= <- <-]. simpl. split; [done|]. eexists. split; [done|].
      by repeat constructor.
    - unfold join3 in Hp. by rewrite Hp.
    - destruct (_file_need_upload l_st (Ref.attrs_of "" nd)) eqn:Hup; [|done].
      apply file_need_upload_spec in Hup. simpl in Hup. destruct Hup; congruence. }
  unfold node_check_for_upload_create, node_body, bind, lstat_local.
  unfold entry_lpath in El, Hex. unfold join3.
  rewrite El. world_red. rewrite bool_decide_eq_false_2 by done.
  rewrite Hd, Hl, Hr. intros [= <- <-]. simpl. apply Hsame.
Qed.

Lemma walked_sub self ds names d :
  os_listdir (os self) (local_dir self ds) = Some names → d ∈ names →
  walked_dir self ds d → walked self ds → walked self (ds ++ [d]).
Proof.
  intros El Hd Hw Hds ds' n' Hb. apply Hds. by eapply below_sub.
Qed.

Lemma creation_idle self fuel :
  local_names_simple self → dirs_pack self →
  ∀ ds, Forall simple ds → walked self ds →
    keeps (all_in_sync self) idle
      (check_for_upload_create Ref.server self fuel (rel_of ds)).
Proof.
  intros Hnames Hpack. induction fuel as [|fuel IH]; intros ds Hds Hw;
    [apply keeps_raise|].
  rewrite check_for_upload_create_S.
  apply (keeps_bind_returned _ _
           (λ names, os_listdir (os self) (local_dir self ds) = Some names)).
  { unfold listdir_local. destruct (os_listdir _ _); [apply keeps_ret|apply keeps_raise]. }
  { intros w names w' _ El. by destruct (listdir_local_ok Ref.server self ds w names w' El). }
  intros names El. apply keeps_for_each. intros n Hn.
  assert (simple n) as Hsn.
  { pose proof (Hnames _ _ El) as H. rewrite Forall_forall in H. by apply H. }
  apply node_idle; [done|done|done|..].
  - apply Hw. by eapply below_here.
  - intros Hwd. apply IH.
    + apply Forall_app. split; [done|by constructor].
    + by eapply walked_sub.
Qed.

(** *** The second run returns *)

Lemma for_each_each {S A} (body : A → M S unit) xs w w' x :
  for_each xs body w = (inr tt, w') → x ∈ xs →
  ∃ w1 w2, body x w1 = (inr tt, w2).
Proof.
  revert w. induction xs as [|y xs IH]; intros w Hrun Hx; [by apply elem_of_nil in Hx|].
  simpl in Hrun. bind_ok Hrun Hy.
  apply elem_of_cons in Hx as [->|Hx]; [eauto|]. by eapply IH.
Qed.

(** The local tree below the directory [ds] answers the creation pass
    within the budget: directories can be listed and their times sent,
    entries have attributes, links can be read. *)
Fixpoint walkable (self : SFTPClone) (fuel : nat) (ds : list string) : Prop :=
  match fuel with
  | O => False
  | S fuel' =>
      ∃ names, os_listdir (os self) (local_dir self ds) = Some names ∧
        ∀ n, n ∈ names →
          ∃ l_st, os_lstat (os self) (entry_lpath self ds n) = Some l_st ∧
            (entry_lpath self ds n ∉ exclude_list self →
             (S_ISDIR (st_mode l_st) = true →
              times_pack l_st = true ∧ walkable self fuel' (ds ++ [n])) ∧
             (S_ISDIR (st_mode l_st) = false → S_ISLNK (st_mode l_st) = true →
              is_Some (os_readlink (os self) (entry_lpath self ds n))))
  end.

Lemma walkable_mono self fuel : ∀ fuel' ds,
  (fuel ≤ fuel')%nat → walkable self fuel ds → walkable self fuel' ds.
Proof.
  induction fuel as [|fuel IH]; intros fuel' ds Hle H; [done|].
  destruct fuel' as [|fuel']; [lia|].
  destruct H as (names & El & Hall). exists names. split; [done|].
  intros n Hn. destruct (Hall n Hn) as (l_st & E & H). exists l_st.
  split; [done|]. intros Hex. destruct (H Hex) as [Hd Hl]. split; [|done].
  intros Hdir. destruct (Hd Hdir) as [Hpk Hsub]. split; [done|].
  apply IH; [lia|auto].
Qed.

Lemma walkable_dirs_pack self ds ds' n' :
  below self ds ds' n' →
  ∀ fuel l_st, walkable self fuel ds →
    os_lstat (os self) (entry_lpath self ds' n') = Some l_st →
    S_ISDIR (st_mode l_st) = true →
    entry_lpath self ds' n' ∉ exclude_list self →
    times_pack l_st = true.
Proof.
  induction 1 as [ds names n El Hn|ds names d ds' n' El Hd Hwd Hb IH];
    intros [|fuel] l_st Hw E Hdir Hex; try done;
    destruct Hw as (names' & El' & Hall); rewrite El in El';
    injection El' as <-.
  - destruct (Hall n Hn) as (l' & E' & Hrest). rewrite E in E'.
    injection E' as <-. destruct (Hrest Hex) as [Hd _]. by destruct (Hd Hdir).
  - destruct Hwd as (ld & Eld & Hdd & Hexd).
    destruct (Hall d Hd) as (l' & E' & Hrest). rewrite Eld in E'.
    injection E' as <-. destruct (Hrest Hexd) as [Hsub _].
    destruct (Hsub Hdd) as [_ Hsub']. by eapply IH.
Qed.

(** A creation pass that has returned has found the local tree so. *)
Lemma creation_walkable srv self fuel :
  ∀ ds (w w' : world (srv_state srv)),
    check_for_upload_create srv self fuel (rel_of ds) w = (inr tt, w') →
    walkable self fuel ds.
Proof.
  induction fuel as [|fuel IH]; intros ds w w' Hrun; [discriminate Hrun|].
  rewrite check_for_upload_create_S in Hrun. bind_ok Hrun El.
  apply listdir_local_ok in El as [El ->].
  exists l. split; [done|]. intros n Hn.
  destruct (for_each_each _ _ _ _ n Hrun Hn) as (w1 & w2 & Hbody).
  unfold node_check_for_upload_create, node_body in Hbody.
  unfold join3 in Hbody. fold (entry_lpath self ds n) in Hbody.
  bind_ok Hbody Els. unfold lstat_local in Els.
  destruct (os_lstat (os self) (entry_lpath self ds n)) as [l_st|]; [|done].
  injection Els as <- <-. exists l_st. split; [done|]. intros Hex.
  rewrite bool_decide_eq_false_2 in Hbody by done.
  split.
  - intros Hd. rewrite Hd in Hbody. bind_ok Hbody H1. bind_ok Hbody H2.
    rewrite <- rel_of_snoc in Hbody. split; [|by eapply IH].
    by eapply match_modes_packs.
  - intros Hd Hl. rewrite Hd, Hl in Hbody.
    by destruct (os_readlink (os self) (entry_lpath self ds n)).
Qed.

(** In a store where every node the pass meets is in sync, the node
    function returns, once its recursive call does. *)
Lemma node_returns self fuel ds n l_st (w : world Ref.fs) :
  Forall simple ds → simple n → below self [] ds n →
  all_in_sync self (remote w) →
  os_lstat (os self) (entry_lpath self ds n) = Some l_st →
  (entry_lpath self ds n ∉ exclude_list self →
   (S_ISDIR (st_mode l_st) = true →
    times_pack l_st = true ∧
    ∀ w1 : world Ref.fs, all_in_sync self (remote w1) →
      ∃ w2, check_for_upload_create Ref.server self fuel (rel_of (ds ++ [n])) w1
            = (inr tt, w2)) ∧
   (S_ISDIR (st_mode l_st) = false → S_ISLNK (st_mode l_st) = true →
    is_Some (os_readlink (os self) (entry_lpath self ds n)))) →
  ∃ w', node_check_for_upload_create Ref.server self fuel (rel_of ds) n w
        = (inr tt, w').
Proof.
  intros Hds Hn Hb HJ El Hlocal. destruct w as [s cs fl lg]. simpl in HJ.
  pose proof (HJ ds n Hb) as Hsync. unfold in_sync, node_in_sync in Hsync.
  rewrite El in Hsync.
  pose proof (resolve_entry_key self ds n Hds Hn) as Hp.
  destruct (decide (entry_lpath self ds n ∈ exclude_list self)) as [Hex|Hex].
  { rewrite (node_excluded _ _ _ _ _ l_st) by done. by eexists. }
  destruct Hsync as [?|Hsync]; [done|]. destruct (Hlocal Hex) as [Hrec Hlink].
  destruct (S_ISDIR (st_mode l_st)) eqn:Hd.
  { destruct Hsync as (nd & E & Hnd). unfold node_check_for_upload_create.
    rewrite (node_directory _ _ _ _ _ l_st) by done.
    destruct (Hrec eq_refl) as [Hpk Hrec'].
    rewrite (directory_present_then _ _ _ _ _ _ _ nd) by (by rewrite ?Hp).
    rewrite Hp, <- rel_of_snoc. apply Hrec'. simpl.
    apply (all_in_sync_dir_attrs self s _ nd); [done..| |done].
    apply matched_facts. }
  destruct (S_ISLNK (st_mode l_st)) eqn:Hl.
  { destruct (Hlink eq_refl eq_refl) as [ll Er].
    rewrite (node_symlink _ _ _ _ _ l_st ll) by done.
    rewrite Er in Hsync. cbn [mbind option_bind] in Hsync.
    unfold link_destination in Hsync.
    assert (∀ d, (∃ nd, s !! entry_key self ds n = Some nd ∧
                   S_ISLNK (Ref.n_mode nd) = true ∧ Ref.n_link nd = d) →
              ∃ w', create_update_symlink Ref.server d
                      (join3 (remote_path self) (rel_of ds) n) (World s cs fl lg)
                    = (inr tt, w')) as Hsame.
    { intros d (nd & E & Hnl & Hnd).
      rewrite (ref_symlink_same d _ s cs fl lg nd) by (by rewrite ?Hp).
      by eexists. }
    destruct (startswith_sep ll && String.prefix _ _).
    - destruct (fix_symlinks self); [|by eexists]. apply Hsame. by apply Hsync.
    - apply Hsame. by apply Hsync. }
  destruct (S_ISREG (st_mode l_st)) eqn:Hr.
  { rewrite (node_regular _ _ _ _ _ l_st) by done.
    destruct Hsync as (nd & E & Hnr & Hsz & Hmt).
    pose proof (ref_regular_same self (entry_lpath self ds n)
                  (join3 (remote_path self) (rel_of ds) n) l_st s cs fl lg nd) as Eq.
    unfold regular_branch in Eq. unfold entry_lpath in Eq. unfold join3.
    unfold join3 in Eq. rewrite Eq; [by eexists| |].
    - unfold join3 in Hp. by rewrite Hp.
    - destruct (_file_need_upload l_st (Ref.attrs_of "" nd)) eqn:Hup; [|done].
      apply file_need_upload_spec in Hup. simpl in Hup. destruct Hup; congruence. }
  unfold node_check_for_upload_create, node_body, bind, lstat_local.
  unfold entry_lpath in El, Hex. unfold join3.
  rewrite El. world_red. rewrite bool_decide_eq_false_2 by done.
  rewrite Hd, Hl, Hr. by eexists.
Qed.

Lemma creation_returns self fuel :
  local_names_simple self → dirs_pack self →
  ∀ ds (w : world Ref.fs),
    Forall simple ds → walked self ds → walkable self fuel ds →
    all_in_sync self (remote w) →
    ∃ w', check_for_upload_create Ref.server self fuel (rel_of ds) w = (inr tt, w').
Proof.
  intros Hnames Hpack. induction fuel as [|fuel IH]; intros ds w Hds Hw Hok HJ; [done|].
  destruct Hok as (names & El & Hall).
  rewrite check_for_upload_create_S. unfold bind at 1, listdir_local.
  fold (local_dir self ds). rewrite El. world_red.
  pose proof (Hnames _ _ El) as Hsimple. rewrite Forall_forall in Hsimple.
  edestruct (for_each_returns (S := Ref.fs)
               (node_check_for_upload_create Ref.server self fuel (rel_of ds))
               (λ _ w1, all_in_sync self (remote w1)) names w)
    as (w' & Hrun & _); [done| |by eexists].
  intros done n rest w1 Hxs HJ1.
  assert (n ∈ names) as Hn by (rewrite Hxs; set_solver).
  assert (below self [] ds n) as Hb by (apply Hw; by eapply below_here).
  destruct (Hall n Hn) as (l_st & Eln & Hlocal).
  assert (∃ w2, node_check_for_upload_create Ref.server self fuel (rel_of ds) n w1
                = (inr tt, w2)) as [w2 Hw2].
  { apply (node_returns self fuel ds n l_st); auto.
    intros Hex. destruct (Hlocal Hex) as [Hd Hl]. split; [|done].
    intros Hdir. destruct (Hd Hdir) as [Hpk Hsub]. split; [done|].
    intros w0 HJ0. apply IH; [|by eapply walked_sub; [| |exists l_st|]|auto|done].
    apply Forall_app. split; [done|]. constructor; [auto|done]. }
  exists w2. split; [done|].
  eapply (keeps_elim _ _ _ _ _ _
            (node_idle self fuel ds n Hpack Hds (Hsimple n Hn) Hb _));
    [done|exact Hw2].
  Unshelve. intros Hwd. apply (creation_idle self fuel Hnames Hpack).
  - apply Forall_app. split; [done|]. constructor; [auto|done].
  - by eapply walked_sub.
Qed.


(** Whatever its budget and however it ends, the second run issues no
    upload, no creation and no deletion. *)
Lemma second_run_idle (self : SFTPClone) (fuel fuel' : nat)
    (s : Ref.fs) cs fl lg (w1 : world Ref.fs) :
  wf s → local_names_simple self →
  run Ref.server self fuel (World s cs fl lg) = (inr tt, w1) →
  Forall idle (calls_since w1 (run Ref.server self fuel' w1).2).
Proof.
  intros Hwf Hnames Hrun. unfold run in Hrun. bind_ok Hrun Hdel.
  destruct (deletion_settles _ _ _ _ _ _ _ Hwf Hdel) as [Ht Hroot].
  destruct w as [sa csa fla lga]. simpl in Ht, Hroot.
  pose proof (creation_walkable Ref.server self fuel [] _ _ Hrun) as Hlocal.
  assert (dirs_pack self) as Hpack.
  { intros ds n l_st Hb. by apply (walkable_dirs_pack self [] ds n Hb fuel). }
  apply (creation_ok self fuel Hnames [] sa csa fla lga w1 Ht (Forall_nil_2 _)) in Hrun;
    [|by rewrite app_nil_r].
  destruct Hrun as [(Ht1 & _) Hsync]. fold (all_in_sync self (remote w1)) in Hsync.
  pose proof (deletion_reads self fuel' (remote w1) Ht1 [] (Forall_nil_2 _) w1 eq_refl)
    as (Hs2 & tr & Etr & Htr).
  unfold run, bind. change (rel_of []) with EmptyString in *.
  destruct (check_for_deletion Ref.server self fuel' "" w1) as [[e|[]] w2];
    simpl in Hs2, Etr |- *.
  - rewrite (calls_since_app _ _ _ Etr). eapply Forall_impl; [done|].
    intros c Hc. unfold reading in Hc. by destruct c.
  - destruct w2 as [s2 cs2 fl2 lg2]. simpl in Hs2, Etr. subst s2 cs2.
    pose proof (creation_idle self fuel' Hnames Hpack [] (Forall_nil_2 _)
                  (λ _ _ H, H) (World (remote w1) (calls w1 ++ tr) fl2 lg2) Hsync)
      as (_ & tr' & Etr' & Htr').
    change (rel_of []) with EmptyString in *. simpl in Etr'.
    rewrite <- app_assoc in Etr'. apply calls_since_app in Etr'.
    cbv delta [srv_state Ref.server] in *. cbv beta iota in Etr' |- *. rewrite Etr'.
    apply Forall_app. split; [|done].
    eapply Forall_impl; [done|]. intros c Hc. unfold reading in Hc. by destruct c.
Qed.

Lemma second_run_returns (self : SFTPClone) (fuel : nat)
    (s : Ref.fs) cs fl lg (w1 : world Ref.fs) :
  wf s → local_names_simple self →
  run Ref.server self fuel (World s cs fl lg) = (inr tt, w1) →
  ∃ fuel0, ∀ fuel', (fuel0 ≤ fuel')%nat →
    (run Ref.server self fuel' w1).1 = inr tt.
Proof.
  intros Hwf Hnames Hrun. unfold run in Hrun. bind_ok Hrun Hdel.
  destruct (deletion_settles _ _ _ _ _ _ _ Hwf Hdel) as [Ht Hroot].
  destruct w as [sa csa fla lga]. simpl in Ht, Hroot.
  pose proof (creation_walkable Ref.server self fuel [] _ _ Hrun) as Hlocal.
  assert (dirs_pack self) as Hpack.
  { intros ds n l_st Hb. by apply (walkable_dirs_pack self [] ds n Hb fuel). }
  apply (creation_ok self fuel Hnames [] sa csa fla lga w1 Ht (Forall_nil_2 _)) in Hrun;
    [|by rewrite app_nil_r].
  destruct Hrun as [(Ht1 & Hdirs & _) Hsync].
  fold (all_in_sync self (remote w1)) in Hsync.
  destruct w1 as [s1 cs1 fl1 lg1]. simpl in Ht1, Hdirs, Hsync.
  destruct (deletion_pass_returns self s1 cs1 fl1 lg1 (proj1 Ht1) (Hdirs _ Hroot))
    as [fuel0 Hret].
  exists (fuel0 `max` fuel)%nat. intros fuel' Hfuel.
  destruct (Hret fuel' ltac:(lia)) as [w2 Hw2].
  unfold run, bind. rewrite Hw2.
  pose proof (deletion_reads self fuel' s1 Ht1 [] (Forall_nil_2 _)
                (World s1 cs1 fl1 lg1) eq_refl) as [Hs2 _].
  change (rel_of []) with EmptyString in *. rewrite Hw2 in Hs2. simpl in Hs2.
  destruct (creation_returns self fuel' Hnames Hpack [] w2 (Forall_nil_2 _)
              (λ _ _ H, H)) as [w3 Hw3].
  - eapply walkable_mono; [|done]. lia.
  - by rewrite Hs2.
  - change (rel_of []) with EmptyString in *. by rewrite Hw3.
Qed.


(** A local tree with a directory, files with whole and fractional
    times, a relative link, an absolute link into the tree, a
    FIFO and an excluded directory; a remote tree that differs from it in
    every way. *)
Definition twice_local : list (string * Sample.entry) :=
  [("/a", Sample.dir ["d"; "f"; "l"; "m"; "p"; "x"]);
   ("/a/d", Sample.dir ["g"]);
   ("/a/d/g", Sample.file 7 (QArith_base.Qmake 20005 10));
   ("/a/f", Sample.file 100 (QArith_base.Qmake 15 10));
   ("/a/l", Sample.link "d/g");
   ("/a/m", Sample.link "/a/d/g");
   ("/a/p", Sample.special S_IFIFO);
   ("/a/x", Sample.dir ["y"]);
   ("/a/x/y", Sample.file 3 (Sample.Qz 5))].

Definition twice_remote : Ref.fs :=
  list_to_map
    [([], Sample.rdir);
     (["r"], Sample.rdir);
     (["r"; "f"], Sample.rlink "zz");
     (["r"; "l"], Sample.rlink "other");
     (["r"; "d"], Sample.rfile 1 1);
     (["r"; "old"], Sample.rdir);
     (["r"; "old"; "k"], Sample.rfile 1 1);
     (["r"; "x"], Sample.rdir);
     (["r"; "x"; "y"], Sample.rfile 3 5);
     (["r"; "x"; "z"], Sample.rfile 3 5)].

Definition twice_engine : SFTPClone := Sample.engine twice_local id ["/a/x"] true.

(** The world after the first run. *)
Definition once_world : world Ref.fs :=
  (run Ref.server twice_engine 5 (Sample.start twice_remote)).2.

Example first_run_calls :
  (run Ref.server twice_engine 5 (Sample.start twice_remote)).1 = inr tt ∧
  calls once_world
  = [Listdir_attr "/r/"; Lstat "/r/x"; Listdir_attr "/r/x"; Lstat "/r/x/z";
     Remove "/r/x/z"; Lstat "/r/x/y"; Lstat "/r/l"; Lstat "/r/f";
     Remove "/r/f"; Lstat "/r/d"; Remove "/r/d"; Lstat "/r/old";
     Listdir_attr "/r/old"; Remove "/r/old/k"; Rmdir "/r/old";
     Stat "/r/d"; Mkdir "/r/d"; Chmod "/r/d" 493; Utime "/r/d" 1000 1000;
     Lstat "/r/d/g"; Put "/a/d/g" "/r/d/g" 7; Chmod "/r/d/g" 420;
     Utime "/r/d/g" 2000 2000; Lstat "/r/f"; Put "/a/f" "/r/f" 100;
     Chmod "/r/f" 420; Utime "/r/f" 1 1; Readlink "/r/l";
     Remove "/r/l"; Symlink "d/g" "/r/l"; Readlink "/r/m";
     Symlink "/r/d/g" "/r/m"].
Proof. split; vm_compute; reflexivity. Qed.

(** The second run returns normally too; it lists, reads, and resets the
    attributes of the one directory it walks into. *)
Example second_run_calls :
  (run Ref.server twice_engine 5 once_world).1 = inr tt ∧
  calls_since once_world (run Ref.server twice_engine 5 once_world).2
  = [Listdir_attr "/r/"; Lstat "/r/x"; Listdir_attr "/r/x"; Lstat "/r/x/y";
     Lstat "/r/m"; Lstat "/r/l"; Lstat "/r/f"; Lstat "/r/d";
     Listdir_attr "/r/d"; Lstat "/r/d/g"; Stat "/r/d"; Chmod "/r/d" 493;
     Utime "/r/d" 1000 1000; Lstat "/r/d/g"; Lstat "/r/f"; Readlink "/r/l";
     Readlink "/r/m"].
Proof. split; vm_compute; reflexivity. Qed.


(** *** The first run returns *)

Lemma symlink_returns self ds n d p l_st (s : Ref.fs) cs fl lg :
  settled self s → Ref.resolve p = entry_key self ds n →
  Ref.is_dir_at s (root_key self ++ ds) = true →
  os_lstat (os self) (entry_lpath self ds n) = Some l_st →
  S_ISLNK (st_mode l_st) = true →
  ∃ w', create_update_symlink Ref.server d p (World s cs fl lg) = (inr tt, w').
Proof.
  intros Hset Hp Hdir El Hl.
  destruct (s !! entry_key self ds n) as [nd|] eqn:E.
  - pose proof (settled_kind _ _ _ _ _ _ Hset E El) as Hf.
    assert (S_ISLNK (Ref.n_mode nd) = true) as Hnl
      by (unfold S_ISLNK in *; by rewrite Hf).
    destruct (decide (Ref.n_link nd = d)) as [Hd|Hd].
    + rewrite (ref_symlink_same d p s cs fl lg nd) by (by rewrite ?Hp). by eexists.
    + rewrite (ref_symlink_other self ds n d p s cs fl lg nd) by done. by eexists.
  - rewrite (ref_symlink_missing self ds n d p s cs fl lg) by done. by eexists.
Qed.

Lemma regular_returns self ds n p l_st (s : Ref.fs) cs fl lg :
  settled self s → Ref.resolve p = entry_key self ds n →
  Ref.is_dir_at s (root_key self ++ ds) = true →
  os_lstat (os self) (entry_lpath self ds n) = Some l_st →
  S_ISREG (st_mode l_st) = true →
  times_pack l_st = true →
  ∃ w', regular_branch self (entry_lpath self ds n) p l_st (World s cs fl lg)
        = (inr tt, w').
Proof.
  intros Hset Hp Hdir El Hr Hpk.
  destruct (s !! entry_key self ds n) as [nd|] eqn:E.
  - pose proof (settled_kind _ _ _ _ _ _ Hset E El) as Hf.
    assert (S_ISREG (Ref.n_mode nd) = true) as Hnr
      by (unfold S_ISREG in *; by rewrite Hf).
    destruct (_file_need_upload l_st (Ref.attrs_of "" nd)) eqn:Hup.
    + rewrite (ref_regular_stale self _ p l_st s cs fl lg nd) by (by rewrite ?Hp).
      by eexists.
    + rewrite (ref_regular_same self _ p l_st s cs fl lg nd) by (by rewrite ?Hp).
      by eexists.
  - rewrite (ref_regular_missing self ds n _ p l_st s cs fl lg) by done.
    by eexists.
Qed.

(** A node that is no directory to walk into: the node function returns. *)
Lemma node_other_returns self fuel ds n l_st (s : Ref.fs) cs fl lg :
  settled self s → Forall simple ds → simple n →
  Ref.is_dir_at s (root_key self ++ ds) = true →
  os_lstat (os self) (entry_lpath self ds n) = Some l_st →
  S_ISDIR (st_mode l_st) = false ∨ entry_lpath self ds n ∈ exclude_list self →
  (entry_lpath self ds n ∉ exclude_list self → S_ISLNK (st_mode l_st) = true →
   is_Some (os_readlink (os self) (entry_lpath self ds n))) →
  (S_ISREG (st_mode l_st) = true → times_pack l_st = true) →
  ∃ w', node_check_for_upload_create Ref.server self fuel (rel_of ds) n
          (World s cs fl lg) = (inr tt, w').
Proof.
  intros Hset Hds Hn Hdir El Hcase Hlink Hpk.
  pose proof (resolve_entry_key self ds n Hds Hn) as Hp.
  destruct (decide (entry_lpath self ds n ∈ exclude_list self)) as [Hex|Hex].
  { rewrite (node_excluded _ _ _ _ _ l_st) by done. by eexists. }
  destruct Hcase as [Hnd|?]; [|done].
  destruct (S_ISLNK (st_mode l_st)) eqn:Hl.
  { destruct (Hlink Hex eq_refl) as [ll Er].
    rewrite (node_symlink _ _ _ _ _ l_st ll) by done.
    destruct (startswith_sep ll && String.prefix _ _).
    - destruct (fix_symlinks self); [|by eexists]. by eapply symlink_returns.
    - by eapply symlink_returns. }
  destruct (S_ISREG (st_mode l_st)) eqn:Hr.
  { rewrite (node_regular _ _ _ _ _ l_st) by done.
    eapply regular_returns; try done. by apply Hpk. }
  unfold node_check_for_upload_create, node_body, bind, lstat_local.
  unfold entry_lpath in El, Hex. unfold join3.
  rewrite El. world_red. rewrite bool_decide_eq_false_2 by done.
  rewrite Hnd, Hl, Hr. by eexists.
Qed.

(** The times of every local regular file can be sent. *)
Definition files_pack (self : SFTPClone) : Prop :=
  ∀ p l_st, os_lstat (os self) p = Some l_st →
            S_ISREG (st_mode l_st) = true → times_pack l_st = true.

(** On a tidy store, under a directory that is there, the creation pass
    returns when the local tree answers. *)
Lemma creation_pass_returns self fuel :
  local_names_simple self → files_pack self →
  ∀ ds (s : Ref.fs) cs fl lg,
    tidy self s → Forall simple ds →
    Ref.is_dir_at s (root_key self ++ ds) = true →
    walkable self fuel ds →
    ∃ w', check_for_upload_create Ref.server self fuel (rel_of ds) (World s cs fl lg)
          = (inr tt, w').
Proof.
  intros Hnames Hfiles.
  induction fuel as [|fuel IH]; intros ds s cs fl lg Ht Hds Hdir Hok; [done|].
  destruct Hok as (names & El & Hall).
  rewrite check_for_upload_create_S. unfold bind at 1, listdir_local.
  fold (local_dir self ds). rewrite El. world_red.
  pose proof (Hnames _ _ El) as Hsimple. rewrite Forall_forall in Hsimple.
  edestruct (for_each_returns (S := Ref.fs)
               (node_check_for_upload_create Ref.server self fuel (rel_of ds))
               (λ _ w1, carried self s (remote w1)) names (World s cs fl lg))
    as (w' & Hrun & _); [by apply carried_refl| |by eexists].
  intros done n rest [s1 cs1 fl1 lg1] Hxs Hc1. simpl in Hc1.
  assert (n ∈ names) as Hn by (rewrite Hxs; set_solver).
  pose proof (Hsimple n Hn) as Hsn.
  destruct (Hall n Hn) as (l_st & Eln & Hlocal).
  assert (Ref.is_dir_at s1 (root_key self ++ ds) = true) as Hdir1 by by apply Hc1.
  pose proof (proj1 Hc1) as Ht1.
  destruct (decide (S_ISDIR (st_mode l_st) = true
                    ∧ entry_lpath self ds n ∉ exclude_list self))
    as [[Hd Hex]|Hno].
  - unfold node_check_for_upload_create.
    rewrite (node_directory _ _ _ _ _ l_st) by done.
    destruct (proj1 (Hlocal Hex) Hd) as [Hpk Hsub].
    destruct (directory_made self ds n
                (join3 (remote_path self) (rel_of ds) n) l_st s1 cs1 fl1 lg1
                (check_for_upload_create Ref.server self fuel
                   (join (rel_of ds) n)))
      as (nd' & cs' & fl' & Hnd' & Eq);
      [apply Ht1|by apply resolve_entry_key|done..|].
    rewrite Eq. clear Eq. rewrite <- rel_of_snoc.
    set (s1' := <[entry_key self ds n := nd']> s1) in *.
    assert (node_done self ds n s1 s1') as Hnode.
    { split.
      - right. exists nd'. split; [done|]. eapply kind_of_local; [done|].
        by apply S_ISDIR_IFMT.
      - unfold in_sync, node_in_sync. rewrite Eln, Hd. right. exists nd'.
        split; [|done]. apply lookup_insert_eq. }
    pose proof (node_done_carried self ds n s1 s1' Ht1 Hsn Hdir1 Hnode) as Hc1'.
    assert (Forall simple (ds ++ [n])) as Hds'
      by (apply Forall_app; split; [done|by constructor]).
    assert (Ref.is_dir_at s1' (root_key self ++ ds ++ [n]) = true) as Hdir'.
    { rewrite app_assoc. unfold Ref.is_dir_at, s1'.
      fold (entry_key self ds n). by rewrite lookup_insert_eq. }
    destruct (IH (ds ++ [n]) s1' cs' fl' lg1 (proj1 Hc1') Hds' Hdir')
      as [w2 Hw2]; [done|].
    exists w2. split; [done|].
    destruct (creation_ok self fuel Hnames _ _ _ _ _ _ (proj1 Hc1') Hds' Hdir' Hw2)
      as [Hc2 _].
    eapply carried_trans; [done|]. by eapply carried_trans.
  - assert (S_ISDIR (st_mode l_st) = false
            ∨ entry_lpath self ds n ∈ exclude_list self) as Hcase.
    { destruct (S_ISDIR (st_mode l_st)); [|by left]. right.
      destruct (decide (entry_lpath self ds n ∈ exclude_list self)); [done|].
      exfalso. by apply Hno. }
    destruct (node_other_returns self fuel ds n l_st s1 cs1 fl1 lg1)
      as [w2 Hw2]; try done; [apply Ht1| | |].
    { intros Hex Hl. apply (Hlocal Hex); [|done]. by apply S_ISLNK_not_dir. }
    { by apply (Hfiles (entry_lpath self ds n)). }
    exists w2. split; [done|].
    eapply carried_trans; [done|].
    apply (node_done_carried self ds n); try done.
    eapply node_other_ok; try done. apply Ht1.
Qed.


(** A table of local nodes whose times can all be sent. *)
Lemma sample_files_pack tbl realpath excluded fix_links :
  forallb (λ '(_, e), times_pack (Sample.e_stat e)) tbl = true →
  files_pack (Sample.engine tbl realpath excluded fix_links).
Proof.
  intros Hall p l_st. simpl. intros E _. revert E.
  induction tbl as [|[q e] tbl IH]; simpl in *; [done|].
  apply andb_true_iff in Hall as [He Htbl].
  destruct (String.eqb q p); [by intros [= <-]|by apply IH].
Qed.


(** A local file whose time cannot be sent: the upload stops at [utime],
    after [put] and [chmod], and [struct.error] ends the run. *)
Definition unsent_run : (exn + unit) * world Ref.fs :=
  run Ref.server (Sample.engine (upload_local 100 (Sample.Qz (-1))) id [] false)
    3 fault_world.

Example time_out_of_range :
  unsent_run.1 = inl Struct_error ∧
  calls unsent_run.2
  = [Listdir_attr "/r/"; Lstat "/r/f"; Put "/a/f" "/r/f" 100;
     Chmod "/r/f" 420; Utime "/r/f" (-1) (-1)] ∧
  failed unsent_run.2
  = [(Lstat "/r/f", OSError (Some ENOENT));
     (Utime "/r/f" (-1) (-1), Struct_error)].
Proof. split_and!; vm_compute; reflexivity. Qed.

(** * Further properties of the engine *)

(** ** What each pass asks of the server *)

(** Listings, [lstat] and removals. *)
Definition lists_or_removes (c : call) : Prop :=
  match c with
  | Listdir_attr _ | Lstat _ | Remove _ | Rmdir _ => True
  | _ => False
  end.

Lemma emits_remote_delete srv fuel :
  ∀ p a, emits lists_or_removes (remote_delete srv fuel p a).
Proof.
  induction fuel as [|fuel IH]; intros p a; [apply emits_raise|].
  rewrite remote_delete_S. destruct (S_ISDIR (r_mode a)).
  - apply emits_bind; [by apply emits_issue|]. intros items.
    apply emits_bind; [|intros _; by apply emits_issue].
    apply emits_for_each. intros item _. apply IH.
  - apply emits_try; [by apply emits_issue|intros; apply emits_logger].
Qed.

Lemma emits_check_for_deletion srv self fuel :
  ∀ relative_path,
    emits lists_or_removes (check_for_deletion srv self fuel relative_path).
Proof.
  induction fuel as [|fuel IH]; intros relative_path; [apply emits_raise|].
  rewrite check_for_deletion_S. cbv zeta.
  apply emits_bind; [by apply emits_issue|]. intros listing.
  apply emits_for_each. intros remote_st _.
  apply emits_bind; [by apply emits_issue|]. intros r_lstat.
  destruct (S_ISLNK (r_mode r_lstat)).
  { destruct (_must_be_deleted _ _ _); [apply emits_remote_delete|apply emits_ret]. }
  destruct (_must_be_deleted _ _ _); [apply emits_remote_delete|].
  destruct (S_ISDIR (r_mode remote_st)); [apply IH|apply emits_ret].
Qed.

(** X2.  Whatever the server answers and however the pass ends, the
    deletion pass asks for listings, [lstat] and removals only: it never
    creates a node, uploads a file or changes an attribute. *)
Theorem deletion_pass_only_removes srv (self : SFTPClone) (fuel : nat)
    (relative_path : string) (w : world (srv_state srv)) :
  Forall lists_or_removes
    (calls_since w (check_for_deletion srv self fuel relative_path w).2).
Proof.
  apply Forall_forall. intros c Hc.
  by apply (emits_calls_since _ _ _ _ (emits_check_for_deletion srv self fuel _) Hc).
Qed.

(** Call histories with a property [Q] of sequences of calls that holds of
    the empty sequence and of concatenations. *)
Section Traces.
Context {S : Type} (Q : list call → Prop).
Hypothesis Q_nil : Q [].
Hypothesis Q_app : ∀ tr1 tr2, Q tr1 → Q tr2 → Q (tr1 ++ tr2).

Definition traces {A} (m : M S A) : Prop :=
  ∀ w, ∃ tr, calls (m w).2 = calls w ++ tr ∧ Q tr.

Lemma traces_ret {A} (a : A) : traces (ret a).
Proof. intros w. exists []. by rewrite app_nil_r. Qed.

Lemma traces_raise {A} e : traces (@raise S A e).
Proof. intros w. exists []. by rewrite app_nil_r. Qed.

Lemma traces_logger r : traces (@logger S r).
Proof. intros w. exists []. simpl. by rewrite app_nil_r. Qed.

Lemma traces_issue {A} c (op : S → (exn + A) * S) : Q [c] → traces (issue c op).
Proof.
  intros Hc w. exists [c]. unfold issue.
  by destruct (op (remote w)) as [[e|a] s].
Qed.

Lemma traces_bind {A B} (m : M S A) (k : A → M S B) :
  traces m → (∀ a, traces (k a)) → traces (bind m k).
Proof.
  intros Hm Hk w. unfold bind.
  destruct (Hm w) as (tr1 & E1 & H1).
  destruct (m w) as [[e|a] w1]; simpl in *; [eauto|].
  destruct (Hk a w1) as (tr2 & E2 & H2).
  exists (tr1 ++ tr2). rewrite E2, E1, <- app_assoc. auto.
Qed.

Lemma traces_try {A} (m : M S A) handles (h : exn → M S A) :
  traces m → (∀ e, traces (h e)) → traces (try_except m handles h).
Proof.
  intros Hm Hh w. unfold try_except.
  destruct (Hm w) as (tr1 & E1 & H1).
  destruct (m w) as [[e|a] w1]; simpl in *; [|eauto].
  destruct (handles e); simpl; [|eauto].
  destruct (Hh e w1) as (tr2 & E2 & H2).
  exists (tr1 ++ tr2). rewrite E2, E1, <- app_assoc. auto.
Qed.

Lemma traces_for_each {A} (xs : list A) (body : A → M S unit) :
  (∀ x, traces (body x)) → traces (for_each xs body).
Proof.
  intros Hb. induction xs as [|x xs IH]; simpl.
  - apply traces_ret.
  - apply traces_bind; auto.
Qed.
End Traces.

(** What the creation pass may ask, [prev] being the call before: no
    listing and no [rmdir]; a [remove] only right after the [readlink] of
    the same path; [chown] only for a privileged engine; [chmod] with
    permission bits only. *)
Definition creation_step (self : SFTPClone) (prev : option call) (c : call) : Prop :=
  match c with
  | Listdir_attr _ | Rmdir _ => False
  | Remove p => prev = Some (Readlink p)
  | Chown _ _ _ => chown self = true
  | Chmod _ mode => 0 ≤ mode < 4096
  | _ => True
  end.

Fixpoint creation_trace (self : SFTPClone) (prev : option call) (tr : list call)
  : Prop :=
  match tr with
  | [] => True
  | c :: tr' => creation_step self prev c ∧ creation_trace self (Some c) tr'
  end.

Lemma creation_step_any self prev c :
  creation_step self None c → creation_step self prev c.
Proof. by destruct c. Qed.

Lemma creation_trace_any self prev tr :
  creation_trace self None tr → creation_trace self prev tr.
Proof. destruct tr as [|c tr]; [done|]. intros [H1 H2]. split; [by apply creation_step_any|done]. Qed.

Lemma creation_trace_app self prev tr1 tr2 :
  creation_trace self prev tr1 → creation_trace self None tr2 →
  creation_trace self prev (tr1 ++ tr2).
Proof.
  revert prev. induction tr1 as [|c tr1 IH]; intros prev H1 H2; simpl.
  - by apply creation_trace_any.
  - destruct H1 as [Hc H1]. split; [done|]. by apply IH.
Qed.

Lemma S_IMODE_range mode : 0 ≤ S_IMODE mode < 4096.
Proof.
  unfold S_IMODE. split; [apply Z.land_nonneg; lia|].
  change 4095 with (Z.ones 12). rewrite Z.land_ones by lia.
  apply Z.mod_pos_bound. lia.
Qed.

Section CreationCalls.
Context (srv : sftp_server) (self : SFTPClone).
Abbreviation ok := (traces (S := srv_state srv) (creation_trace self None)).

Let ok_app : ∀ tr1 tr2, creation_trace self None tr1 → creation_trace self None tr2 →
                        creation_trace self None (tr1 ++ tr2).
Proof. intros. by apply creation_trace_app. Qed.

Lemma traces_match_modes p l_st : ok (_match_modes srv self p l_st).
Proof.
  unfold _match_modes.
  apply traces_bind; [done| |intros _].
  { apply traces_issue. split; [apply S_IMODE_range|done]. }
  apply traces_bind; [done|by apply traces_issue|intros _].
  destruct (chown self) eqn:E; [by apply traces_issue|by apply traces_ret].
Qed.

Lemma traces_file_upload lp p l_st : ok (file_upload srv self lp p l_st).
Proof.
  unfold file_upload, sftp_put.
  apply traces_bind; [done| |intros _; apply traces_match_modes].
  destruct (os_lstat (os self) lp); [by apply traces_issue|by apply traces_raise].
Qed.

Lemma traces_create_update_symlink x p : ok (create_update_symlink srv x p).
Proof.
  intros w.
  unfold create_update_symlink, try_except, bind, sftp_readlink, sftp_remove,
    sftp_symlink, issue, logger, ret.
  repeat (run_step; simpl); rewrite <- ?app_assoc; simpl;
    (eexists; split; [reflexivity|]); simpl; auto.
Qed.

Lemma traces_node_body recurse relative_path f :
  ok (recurse (join relative_path f)) →
  ok (node_body srv self recurse relative_path f).
Proof.
  intros Hrec. unfold node_body, lstat_local.
  apply traces_bind; [done| |].
  { destruct (os_lstat _ _); [by apply traces_ret|by apply traces_raise]. }
  intros l_st. case_bool_decide as Hex; [by apply traces_logger|].
  destruct (S_ISDIR (st_mode l_st)).
  { apply traces_bind; [done| |].
    - apply traces_try; [done| |intros; by apply traces_issue].
      apply traces_bind; [done|by apply traces_issue|intros; by apply traces_ret].
    - intros _. apply traces_bind; [done|apply traces_match_modes|]. by intros _. }
  destruct (S_ISLNK (st_mode l_st)).
  { destruct (os_readlink _ _); [|by apply traces_raise].
    destruct (_ && _); [destruct (fix_symlinks self); [|by apply traces_ret]|];
      apply traces_create_update_symlink. }
  destruct (S_ISREG (st_mode l_st)); [|by apply traces_logger].
  apply traces_try; [done| |].
  - apply traces_bind; [done|by apply traces_issue|]. intros r_st.
    destruct (_file_need_upload _ _); [apply traces_file_upload|by apply traces_ret].
  - intros e. destruct (is_FileNotFoundError e);
      [apply traces_file_upload|by apply traces_ret].
Qed.

Lemma traces_check_for_upload_create fuel :
  ∀ relative_path, ok (check_for_upload_create srv self fuel relative_path).
Proof.
  induction fuel as [|fuel IH]; intros relative_path; [by apply traces_raise|].
  rewrite check_for_upload_create_S.
  apply traces_bind; [done| |].
  { unfold listdir_local. destruct (os_listdir _ _);
      [by apply traces_ret|by apply traces_raise]. }
  intros names. apply traces_for_each; [done..|].
  intros f. apply traces_node_body. apply IH.
Qed.
End CreationCalls.

(** X3.  Whatever the server answers and however the pass ends, the
    creation pass never lists a remote directory and never removes one; it
    asks for a [remove] only right after the [readlink] of the same path
    (the link it is about to replace); it asks for [chown] only when the
    engine is privileged; and the mode of every [chmod] holds permission
    bits only. *)
Theorem creation_pass_discipline srv (self : SFTPClone) (fuel : nat)
    (relative_path : string) (w : world (srv_state srv)) :
  creation_trace self None
    (calls_since w (check_for_upload_create srv self fuel relative_path w).2).
Proof.
  destruct (traces_check_for_upload_create srv self fuel relative_path w)
    as (tr & E & H).
  by rewrite (calls_since_app _ _ _ E).
Qed.

(** ** Regular files *)

(** X4.  A regular file whose remote counterpart has the same size and the
    same modification time in whole seconds is left alone, on any server:
    the node function asks for the remote [lstat] and nothing else, so a
    difference of permission bits, owner or access time between the two
    sides is never repaired. *)
Theorem current_file_left_alone
    srv self fuel relative_path f l_st r_st s1 (w : world (srv_state srv)) :
  let lpath := join3 (local_path self) relative_path f in
  let rpath := join3 (remote_path self) relative_path f in
  os_lstat (os self) lpath = Some l_st →
  lpath ∉ exclude_list self →
  S_ISREG (st_mode l_st) = true →
  srv_lstat srv rpath (remote w) = (inr r_st, s1) →
  st_size l_st = r_size r_st →
  int (st_mtime l_st) = r_mtime r_st →
  node_check_for_upload_create srv self fuel relative_path f w
  = (inr tt, World s1 (calls w ++ [Lstat rpath]) (failed w) (logged w)).
Proof.
  intros lpath rpath E Hex Hreg El Hsize Hmtime.
  rewrite (node_regular srv self fuel relative_path f l_st w E Hex Hreg).
  fold lpath rpath. unfold try_except, bind, sftp_lstat, issue. rewrite El.
  world_red.
  assert (_file_need_upload l_st r_st = false) as ->; [|done].
  destruct (_file_need_upload l_st r_st) eqn:Hup; [|done].
  apply file_need_upload_spec in Hup. destruct Hup; congruence.
Qed.

(** A local file that differs from the remote one by its permission bits
    and owner only. *)
Definition drift_remote : Ref.fs :=
  list_to_map
    [(["r"], Sample.rdir);
     (["r"; "f"], Sample.rnode_of (Z.lor S_IFREG 384) 100 1000 "")].

Lemma current_file_left_alone_witness :
  node_check_for_upload_create Ref.server
    (Sample.engine (upload_local 100 (Sample.Qz 1000)) id [] false) 1 "" "f"
    (Sample.start drift_remote)
  = (inr tt, World drift_remote [Lstat "/r/f"] [] []).
Proof.
  apply (current_file_left_alone Ref.server
           (Sample.engine (upload_local 100 (Sample.Qz 1000)) id [] false) 1 "" "f"
           (Sample.lstat_of (Z.lor S_IFREG 420) 100 (Sample.Qz 1000))
           (Ref.attrs_of "" (Sample.rnode_of (Z.lor S_IFREG 384) 100 1000 ""))
           drift_remote (Sample.start drift_remote)).
  - reflexivity.
  - apply not_elem_of_empty.
  - reflexivity.
  - vm_compute. reflexivity.
  - reflexivity.
  - reflexivity.
Defined.

(** [int] of a time within the whole second [[n, n+1)], [n] not negative. *)
Lemma int_within_second (q : QArith_base.Q) (n : Z) :
  0 ≤ n →
  QArith_base.Qle (QArith_base.inject_Z n) q →
  QArith_base.Qlt q (QArith_base.inject_Z (n + 1)) →
  int q = n.
Proof.
  destruct q as [a d]. unfold int, QArith_base.Qle, QArith_base.Qlt. simpl.
  intros Hn Hle Hlt. rewrite Z.mul_1_r in Hle, Hlt.
  symmetry. apply Z.quot_unique with (r := a - n * Z.pos d); nia.
Qed.

(** X5.  The modification time is compared in whole seconds: for times
    that are not negative, a local file of the same size whose modification
    time lies anywhere in the second the remote side records is not
    uploaded. *)
Theorem subsecond_change_unseen (l_st : stat_result) (r_st : SFTPAttributes) :
  st_size l_st = r_size r_st →
  0 ≤ r_mtime r_st →
  QArith_base.Qle (QArith_base.inject_Z (r_mtime r_st)) (st_mtime l_st) →
  QArith_base.Qlt (st_mtime l_st) (QArith_base.inject_Z (r_mtime r_st + 1)) →
  _file_need_upload l_st r_st = false.
Proof.
  intros Hsize Hn Hle Hlt.
  pose proof (int_within_second _ _ Hn Hle Hlt) as Hint.
  destruct (_file_need_upload l_st r_st) eqn:Hup; [|done].
  apply file_need_upload_spec in Hup. destruct Hup; congruence.
Qed.

Lemma subsecond_change_unseen_witness :
  _file_need_upload
    (Sample.lstat_of (Z.lor S_IFREG 420) 100 (QArith_base.Qmake 10009 10))
    (Ref.attrs_of "" (Sample.rfile 100 1000)) = false.
Proof.
  apply subsecond_change_unseen.
  - reflexivity.
  - simpl. lia.
  - unfold QArith_base.Qle. simpl. lia.
  - unfold QArith_base.Qlt. simpl. lia.
Defined.

(** ** Links that resolve beside the tree *)

Lemma join_empty_r (a : string) :
  a ≠ "" → endswith_sep a = false → join a "" = a +:+ String sep "".
Proof.
  intros Ha He. unfold join. simpl.
  destruct (String.eqb_spec a ""); [done|]. by rewrite He.
Qed.

Lemma prefix_app_l (a b c : string) :
  String.prefix (a +:+ b) (a +:+ c) = String.prefix b c.
Proof.
  induction a as [|x a IH]; simpl; [done|].
  change (String.prefix (String x (a +:+ b)) (String x (a +:+ c)) = String.prefix b c).
  simpl. destruct (ascii_dec x x); [done|congruence].
Qed.

Lemma prefix_sep (x : string) : String.prefix (String sep "") x = startswith_sep x.
Proof.
  destruct x as [|c x]; [done|].
  change (String.prefix (String sep "") (String c x))
    with (if ascii_dec sep c then String.prefix "" x else false).
  unfold startswith_sep. destruct (ascii_dec sep c) as [<-|Hne].
  - rewrite Ascii.eqb_refl. by destruct x.
  - symmetry. apply Ascii.eqb_neq. congruence.
Qed.

(** X6.  The test "resolves inside the local tree" compares with the local
    root followed by a separator.  So a link that resolves to the local
    root itself, or to a path that merely begins with the root's name (a
    sibling such as [/a-old] beside the root [/a]), counts as outside: its
    raw target is written as it is, absolute or not, with fix-symlinks on
    or off. *)
Theorem link_beside_root_verbatim
    srv self fuel relative_path f l_st local_link x (w : world (srv_state srv)) :
  let lpath := join3 (local_path self) relative_path f in
  let rpath := join3 (remote_path self) relative_path f in
  os_lstat (os self) lpath = Some l_st →
  lpath ∉ exclude_list self →
  S_ISLNK (st_mode l_st) = true →
  os_readlink (os self) lpath = Some local_link →
  local_path self ≠ "" → endswith_sep (local_path self) = false →
  os_realpath (os self) local_link = local_path self +:+ x →
  startswith_sep x = false →
  node_check_for_upload_create srv self fuel relative_path f w
  = create_update_symlink srv local_link rpath w.
Proof.
  intros lpath rpath E Hex Hl Hr Hne Hend Hreal Hx.
  rewrite (node_symlink srv self fuel relative_path f l_st local_link w E Hex Hl Hr).
  rewrite Hreal, (join_empty_r _ Hne Hend), prefix_app_l.
  by rewrite prefix_sep, Hx, andb_false_r.
Qed.

(** A link to the local root itself, fix-symlinks on. *)
Lemma link_beside_root_verbatim_witness :
  node_check_for_upload_create Ref.server
    (Sample.engine (link_local "/a") id [] true) 1 "" "l" (Sample.start link_remote)
  = create_update_symlink Ref.server "/a" "/r/l" (Sample.start link_remote).
Proof.
  apply (link_beside_root_verbatim Ref.server
           (Sample.engine (link_local "/a") id [] true) 1 "" "l"
           (Sample.e_stat (Sample.link "/a")) "/a" "").
  - reflexivity.
  - apply not_elem_of_empty.
  - reflexivity.
  - reflexivity.
  - discriminate.
  - reflexivity.
  - reflexivity.
  - reflexivity.
Defined.

Example link_to_root_written : link_written "/a" true = Some "/a".
Proof. vm_compute. reflexivity. Qed.

Example link_to_sibling_written : link_written "/a-old/x" true = Some "/a-old/x".
Proof. vm_compute. reflexivity. Qed.

(** ** A remote link met by the deletion pass *)

(** X7.  On any server, whatever the listing says of the entry: when the
    entry's own [lstat] answers "symbolic link", the deletion pass asks
    for that [lstat] and at most for the [remove] of the same path. It
    never lists the entry and never asks for anything below it. *)
Theorem link_entry_never_walked
    srv self fuel relative_path remote_st r_lstat s1 (w : world (srv_state srv)) :
  let p := join (join (remote_path self) relative_path) (filename remote_st) in
  let lp := join (join (local_path self) relative_path) (filename remote_st) in
  srv_lstat srv p (remote w) = (inr r_lstat, s1) →
  S_ISLNK (r_mode r_lstat) = true →
  calls_since w (check_entry srv self fuel relative_path remote_st w).2
  = Lstat p :: (if _must_be_deleted self lp r_lstat
                then match fuel with O => [] | S _ => [Remove p] end
                else []).
Proof.
  intros p lp El Hl. unfold check_entry. cbv zeta. fold p lp.
  unfold bind, sftp_lstat, issue. rewrite El. world_red. rewrite Hl.
  destruct (_must_be_deleted self lp r_lstat); [|by trace_norm].
  destruct fuel as [|fuel]; [by trace_norm|].
  rewrite remote_delete_S, (S_ISLNK_not_dir _ Hl).
  unfold try_except, sftp_remove, issue, logger. simpl.
  repeat (run_step; simpl); by trace_norm.
Qed.

(** A remote link to a directory outside the tree, which the listing
    reports as a directory. *)
Definition stray_remote : Ref.fs :=
  list_to_map
    [([], Sample.rdir); (["etc"], Sample.rdir); (["etc"; "passwd"], Sample.rfile 1 1);
     (["r"], Sample.rdir); (["r"; "l"], Sample.rlink "/etc")].

Lemma link_entry_never_walked_witness :
  calls_since (Sample.start stray_remote)
    (check_entry Ref.server (Sample.engine [("/a", Sample.dir [])] id [] false) 5 ""
       (Ref.attrs_of "l" Sample.rdir) (Sample.start stray_remote)).2
  = [Lstat "/r/l"; Remove "/r/l"].
Proof.
  apply (link_entry_never_walked Ref.server
           (Sample.engine [("/a", Sample.dir [])] id [] false) 5 ""
           (Ref.attrs_of "l" Sample.rdir)
           (Ref.attrs_of "" (Sample.rlink "/etc")) stray_remote
           (Sample.start stray_remote)).
  - vm_compute. reflexivity.
  - reflexivity.
Defined.

(** ** Failures in the regular-file branch *)

(** X8.  When the remote file is there and stale and the upload's [put]
    fails with "not found", the node function starts the upload again:
    the same [put] is asked a second time, and whatever that second
    upload does is the outcome of the node function. *)
Theorem upload_retried_after_not_found
    srv self fuel relative_path f l_st r_st s1 e s2 (w : world (srv_state srv)) :
  let lpath := join3 (local_path self) relative_path f in
  let rpath := join3 (remote_path self) relative_path f in
  let put := Put lpath rpath (st_size l_st) in
  os_lstat (os self) lpath = Some l_st →
  lpath ∉ exclude_list self →
  S_ISREG (st_mode l_st) = true →
  srv_lstat srv rpath (remote w) = (inr r_st, s1) →
  _file_need_upload l_st r_st = true →
  srv_put srv rpath (st_size l_st) s1 = (inl e, s2) →
  is_FileNotFoundError e = true →
  node_check_for_upload_create srv self fuel relative_path f w
  = file_upload srv self lpath rpath l_st
      (World s2 (calls w ++ [Lstat rpath; put]) (failed w ++ [(put, e)]) (logged w)).
Proof.
  intros lpath rpath put E Hex Hreg El Hup Hput Hnf.
  rewrite (node_regular srv self fuel relative_path f l_st w E Hex Hreg).
  fold lpath rpath. unfold try_except, bind at 1, sftp_lstat, issue. rewrite El.
  world_red. rewrite Hup.
  unfold file_upload at 1, bind, sftp_put, issue. rewrite E. world_red.
  rewrite Hput. world_red.
  destruct e as [[n|]| |]; simpl in Hnf; try discriminate Hnf.
  rewrite Hnf. by rewrite <- app_assoc.
Qed.

(** A stale remote entry that is a link to nowhere: [put] goes through the
    link and fails with "not found", twice. *)
Definition dangling_remote : Ref.fs :=
  list_to_map [(["r"], Sample.rdir); (["r"; "f"], Sample.rlink "nowhere")].

Lemma upload_retried_after_not_found_witness :
  node_check_for_upload_create Ref.server
    (Sample.engine (upload_local 100 (Sample.Qz 1000)) id [] false) 1 "" "f"
    (Sample.start dangling_remote)
  = file_upload Ref.server
      (Sample.engine (upload_local 100 (Sample.Qz 1000)) id [] false)
      "/a/f" "/r/f" (Sample.lstat_of (Z.lor S_IFREG 420) 100 (Sample.Qz 1000))
      (World dangling_remote [Lstat "/r/f"; Put "/a/f" "/r/f" 100]
         [(Put "/a/f" "/r/f" 100, OSError (Some ENOENT))] []).
Proof.
  apply (upload_retried_after_not_found Ref.server
           (Sample.engine (upload_local 100 (Sample.Qz 1000)) id [] false) 1 "" "f"
           (Sample.lstat_of (Z.lor S_IFREG 420) 100 (Sample.Qz 1000))
           (Ref.attrs_of "" (Sample.rlink "nowhere")) dangling_remote
           (OSError (Some ENOENT)) dangling_remote (Sample.start dangling_remote)).
  - reflexivity.
  - apply not_elem_of_empty.
  - reflexivity.
  - vm_compute. reflexivity.
  - reflexivity.
  - vm_compute. reflexivity.
  - reflexivity.
Defined.

Example upload_retried_calls :
  (λ out, (out.1, calls out.2))
    (node_check_for_upload_create Ref.server
       (Sample.engine (upload_local 100 (Sample.Qz 1000)) id [] false) 1 "" "f"
       (Sample.start dangling_remote))
  = (inl (OSError (Some ENOENT)),
     [Lstat "/r/f"; Put "/a/f" "/r/f" 100; Put "/a/f" "/r/f" 100]).
Proof. vm_compute. reflexivity. Qed.

(** A failure that is an [IOError] and is not "not found". *)
Definition plain_failure (f : call * exn) : bool :=
  is_OSError f.2 && negb (is_FileNotFoundError f.2).

(** X9.  In the regular-file branch, on any server: as long as every call
    that fails does so with an [IOError] other than "not found" (permission
    denied, say), the node function returns normally and logs nothing —
    whether the failing call was the probe, the [put], or the [chmod],
    [utime] or [chown] after it. *)
Theorem regular_file_failures_swallowed
    srv self fuel relative_path f l_st (w : world (srv_state srv)) :
  let lpath := join3 (local_path self) relative_path f in
  let out := node_check_for_upload_create srv self fuel relative_path f w in
  os_lstat (os self) lpath = Some l_st →
  lpath ∉ exclude_list self →
  S_ISREG (st_mode l_st) = true →
  forallb plain_failure (failed_since w out.2) = true →
  out.1 = inr tt ∧ logged out.2 = logged w.
Proof.
  intros lpath out E Hex Hreg. subst out.
  rewrite (node_regular srv self fuel relative_path f l_st w E Hex Hreg).
  fold lpath.
  unfold try_except, bind, sftp_lstat, file_upload, _match_modes, bind,
    sftp_put, sftp_chmod, sftp_utime, sftp_chown, issue, ret.
  rewrite E.
  repeat (run_step; simpl);
    try (destruct (_file_need_upload _ _); simpl);
    repeat (run_step; simpl);
    try (destruct (chown self); simpl);
    repeat (run_step; simpl);
    trace_norm; unfold plain_failure; simpl; intros H;
    repeat match goal with
    | H : _ && _ = true |- _ => apply andb_true_iff in H as [? ?]
    | H : negb _ = true |- _ => apply negb_true_iff in H
    end; try done; congruence.
Qed.

(** The probe of a regular file is denied. *)
Definition denied_probe : (exn + unit) * world Ref.fs :=
  node_check_for_upload_create (faulty_server deny_lstat)
    (Sample.engine (upload_local 100 (Sample.Qz 1000)) id [] false) 1 "" "f"
    fault_world.

Lemma regular_file_failures_swallowed_witness :
  denied_probe.1 = inr tt ∧ logged denied_probe.2 = [].
Proof.
  apply (regular_file_failures_swallowed (faulty_server deny_lstat)
           (Sample.engine (upload_local 100 (Sample.Qz 1000)) id [] false) 1 "" "f"
           (Sample.lstat_of (Z.lor S_IFREG 420) 100 (Sample.Qz 1000)) fault_world).
  - reflexivity.
  - apply not_elem_of_empty.
  - reflexivity.
  - vm_compute. reflexivity.
Defined.

(** * Setting up: [SFTPClone.__init__]

    The parts of the constructor that compute on strings.  A string is a
    sequence of characters below 256; what the constructor gets from the
    file system, the ssh configuration and the server is an input here. *)

(** [c in s], for a character [c] *)
Fixpoint contains (c : ascii) (s : string) : bool :=
  match s with
  | EmptyString => false
  | String x s' => Ascii.eqb x c || contains c s'
  end.

(** What is before and after the first [c] of [s], if there is one. *)
Fixpoint split_once (c : ascii) (s : string) : option (string * string) :=
  match s with
  | EmptyString => None
  | String x s' =>
      if Ascii.eqb x c then Some (EmptyString, s')
      else match split_once c s' with
           | Some (a, b) => Some (String x a, b)
           | None => None
           end
  end.

(** [s.split(c, 1)]: a list of two strings when [c] occurs in [s], of [s]
    alone when it does not. *)
Definition split1 (c : ascii) (s : string) : list string :=
  match split_once c s with
  | Some (a, b) => [a; b]
  | None => [s]
  end.

Inductive setup_exn := ValueError.

(** [a, b = l] *)
Definition unpack2 (l : list string) : setup_exn + (string * string) :=
  match l with
  | [a; b] => inr (a, b)
  | _ => inl ValueError
  end.

(** Truth value of a string or [None]. *)
Definition truthy (s : option string) : bool :=
  match s with
  | Some (String _ _) => true
  | _ => false
  end.

(** The fields the constructor reads off [remote_url]. *)
Record remote_url_parts := {
  url_username : option string;
  url_password : option string;
  url_hostname : string;
  url_remote_path : string;
}.

(** Lines 70-79:
<<
    if '@' in remote_url:
        self.username, self.hostname = remote_url.split('@', 1)
    else:
        self.username, self.hostname = None, remote_url
    self.hostname, self.remote_path = self.hostname.split(':', 1)
    self.password = None
    if self.username and ':' in self.username:
        self.username, self.password = self.username.split(':', 1)
>> *)
Definition parse_remote_url (remote_url : string) : setup_exn + remote_url_parts :=
  match (if contains "@" remote_url
         then match unpack2 (split1 "@" remote_url) with
              | inr (u, h) => inr (Some u, h)
              | inl e => inl e
              end
         else inr (None, remote_url)) with
  | inl e => inl e
  | inr (username, hostname) =>
      match unpack2 (split1 ":" hostname) with
      | inl e => inl e
      | inr (hostname, remote_path) =>
          match (if truthy username && contains ":" (default EmptyString username)
                 then match unpack2 (split1 ":" (default EmptyString username)) with
                      | inr (u, p) => inr (Some u, Some p)
                      | inl e => inl e
                      end
                 else inr (username, None)) with
          | inl e => inl e
          | inr (username, password) =>
              inr {| url_username := username; url_password := password;
                     url_hostname := hostname; url_remote_path := remote_path |}
          end
      end
  end.

(** [str.isspace] on the characters below 256. *)
Definition isspace (c : ascii) : bool :=
  let n := nat_of_ascii c in
  ((9 <=? n) && (n <=? 13) || (28 <=? n) && (n <=? 32) || (n =? 133) || (n =? 160))%nat.

(** [s.rstrip()] *)
Fixpoint rstrip (s : string) : string :=
  match s with
  | EmptyString => EmptyString
  | String c s' =>
      match rstrip s' with
      | EmptyString => if isspace c then EmptyString else String c EmptyString
      | r => String c r
      end
  end.

(** [s.lstrip("/")] *)
Fixpoint lstrip_sep (s : string) : string :=
  match s with
  | String c s' => if Ascii.eqb c sep then lstrip_sep s' else s
  | EmptyString => EmptyString
  end.

(** [line.startswith((";", "#"))] *)
Definition is_comment (line : string) : bool :=
  match line with
  | String c _ => Ascii.eqb c ";" || Ascii.eqb c "#"
  | EmptyString => false
  end.

(** Lines 55-59, over the lines of the exclude file:
<<
    [line.rstrip().lstrip("/") for line in f if not line.startswith((";", "#"))]
>> *)
Definition exclude_patterns (lines : list string) : list string :=
  map (λ line, lstrip_sep (rstrip line))
      (List.filter (λ line, negb (is_comment line)) lines).

(** The patterns handed to [glob.glob], and the exclusion set made of what
    it finds (lines 62-66). *)
Definition glob_patterns (local_path : string) (lines : list string) : list string :=
  map (join local_path) (exclude_patterns lines).

Definition build_exclude_list (glob : string → list string)
    (local_path : string) (lines : list string) : gset string :=
  list_to_set (concat (map glob (glob_patterns local_path lines))).

(** [s.replace(c, new)], for a character [c] *)
Fixpoint replace_char (c : ascii) (new : string) (s : string) : string :=
  match s with
  | EmptyString => EmptyString
  | String x s' =>
      if Ascii.eqb x c then new +:+ replace_char c new s'
      else String x (replace_char c new s')
  end.

(** Lines 151-155, [home] being what [self.sftp.getcwd()] answers:
<<
    if (self.remote_path.startswith("~")):
        self.remote_path = self.remote_path.replace("~", self.sftp.getcwd())
>> *)
Definition expand_home (home remote_path : string) : string :=
  match remote_path with
  | String c _ =>
      if Ascii.eqb c "~" then replace_char "~" home remote_path else remote_path
  | EmptyString => remote_path
  end.

(** ** The remote URL *)

Lemma contains_app (c : ascii) (a b : string) :
  contains c (a +:+ b) = contains c a || contains c b.
Proof.
  induction a as [|x a IH]; simpl; [done|].
  rewrite IH. by rewrite orb_assoc.
Qed.

Lemma contains_cons (c : ascii) (b : string) : contains c (String c b) = true.
Proof. simpl. by rewrite Ascii.eqb_refl. Qed.

Lemma split_once_app (c : ascii) (a b : string) :
  contains c a = false →
  split_once c (a +:+ String c b) = Some (a, b).
Proof.
  induction a as [|x a IH]; simpl.
  - intros _. by rewrite Ascii.eqb_refl.
  - intros [Hx Ha]%orb_false_iff. rewrite Hx, (IH Ha). done.
Qed.

Lemma split_once_none (c : ascii) (s : string) :
  contains c s = false → split_once c s = None.
Proof.
  induction s as [|x s IH]; simpl; [done|].
  intros [Hx Hs]%orb_false_iff. by rewrite Hx, (IH Hs).
Qed.

Lemma split_once_contains (c : ascii) (s : string) :
  contains c s = true → ∃ a b, split_once c s = Some (a, b).
Proof.
  induction s as [|x s IH]; simpl; [done|].
  destruct (Ascii.eqb x c); simpl; [by eauto|].
  intros [a [b ->]]%IH. eauto.
Qed.

Lemma truthy_colon (a b : string) : truthy (Some (a +:+ String ":" b)) = true.
Proof. by destruct a. Qed.

(** X10.  Reading a URL gives back the parts it was written from, in each
    of its three forms [user:password@host:path], [user@host:path] and
    [host:path]: when the user name has no at sign and no colon, the
    password no at sign, and the host no colon (and, where no user is
    given, neither host nor path has an at sign). *)
Theorem remote_url_round_trip (user password host path : string) :
  contains "@" user = false → contains ":" user = false →
  contains "@" password = false →
  contains ":" host = false →
  parse_remote_url (user +:+ ":" +:+ password +:+ "@" +:+ host +:+ ":" +:+ path)
    = inr {| url_username := Some user; url_password := Some password;
             url_hostname := host; url_remote_path := path |}
  ∧ parse_remote_url (user +:+ "@" +:+ host +:+ ":" +:+ path)
    = inr {| url_username := Some user; url_password := None;
             url_hostname := host; url_remote_path := path |}
  ∧ (contains "@" host = false → contains "@" path = false →
     parse_remote_url (host +:+ ":" +:+ path)
     = inr {| url_username := None; url_password := None;
              url_hostname := host; url_remote_path := path |}).
Proof.
  intros Hu1 Hu2 Hp Hh. split_and!.
  - unfold parse_remote_url.
    assert (user +:+ ":" +:+ password +:+ "@" +:+ host +:+ ":" +:+ path
            = (user +:+ ":" +:+ password) +:+ String "@" (host +:+ ":" +:+ path)) as ->.
    { by rewrite !string_app_assoc. }
    assert (contains "@" (user +:+ ":" +:+ password) = false) as Hup.
    { rewrite !contains_app, Hu1, Hp. done. }
    rewrite contains_app, contains_cons, orb_true_r.
    unfold split1. rewrite (split_once_app _ _ _ Hup). simpl unpack2. cbv iota beta.
    change (host +:+ ":" +:+ path) with (host +:+ String ":" path).
    rewrite (split_once_app _ _ _ Hh). simpl unpack2. cbv iota beta.
    change (user +:+ ":" +:+ password) with (user +:+ String ":" password).
    simpl default. rewrite truthy_colon, contains_app, contains_cons, orb_true_r.
    simpl andb. cbv iota. rewrite (split_once_app _ _ _ Hu2). done.
  - unfold parse_remote_url.
    change (user +:+ "@" +:+ host +:+ ":" +:+ path)
      with (user +:+ String "@" (host +:+ String ":" path)).
    rewrite contains_app, contains_cons, orb_true_r.
    unfold split1. rewrite (split_once_app _ _ _ Hu1). simpl unpack2. cbv iota beta.
    rewrite (split_once_app _ _ _ Hh). simpl unpack2. cbv iota beta.
    simpl default. rewrite Hu2, andb_false_r. done.
  - intros Hh' Hp'. unfold parse_remote_url.
    change (host +:+ ":" +:+ path) with (host +:+ String ":" path).
    rewrite contains_app, Hh'. simpl contains. rewrite Hp'. simpl orb. cbv iota.
    unfold split1. rewrite (split_once_app _ _ _ Hh). done.
Qed.

Lemma remote_url_round_trip_witness :
  parse_remote_url "mirror:s3cret@example.org:/srv/data"
    = inr {| url_username := Some "mirror"; url_password := Some "s3cret";
             url_hostname := "example.org"; url_remote_path := "/srv/data" |}
  ∧ parse_remote_url "mirror@example.org:/srv/data"
    = inr {| url_username := Some "mirror"; url_password := None;
             url_hostname := "example.org"; url_remote_path := "/srv/data" |}
  ∧ parse_remote_url "example.org:/srv/data"
    = inr {| url_username := None; url_password := None;
             url_hostname := "example.org"; url_remote_path := "/srv/data" |}.
Proof.
  destruct (remote_url_round_trip "mirror" "s3cret" "example.org" "/srv/data")
    as (H1 & H2 & H3); [reflexivity..|].
  split_and!; [exact H1 | exact H2 | apply H3; reflexivity].
Defined.

Example password_with_at_sign :
  parse_remote_url "mirror:p@ss@example.org:/srv/data"
  = inr {| url_username := Some "mirror"; url_password := Some "p";
           url_hostname := "ss@example.org"; url_remote_path := "/srv/data" |}.
Proof. reflexivity. Qed.

Example path_with_at_sign :
  parse_remote_url "example.org:/srv/me@home:old"
  = inr {| url_username := Some "example.org"; url_password := Some "/srv/me";
           url_hostname := "home"; url_remote_path := "old" |}.
Proof. reflexivity. Qed.

(** What follows the first at sign of a URL; the whole URL when it has
    none. *)
Definition host_part (remote_url : string) : string :=
  match split_once "@" remote_url with
  | Some (_, h) => h
  | None => remote_url
  end.

(** X11.  A URL is refused, with [ValueError], exactly when no colon
    follows its first at sign (when it has no colon at all, if it has no at
    sign): a colon among the credentials does not count, and any other URL
    is read. *)
Theorem remote_url_refused (remote_url : string) :
  parse_remote_url remote_url = inl ValueError
  ↔ contains ":" (host_part remote_url) = false.
Proof.
  unfold parse_remote_url, host_part, split1.
  destruct (contains "@" remote_url) eqn:Hat.
  - destruct (split_once_contains _ _ Hat) as (u & h & ->). simpl unpack2. cbv iota beta.
    destruct (contains ":" h) eqn:Hc.
    + destruct (split_once_contains _ _ Hc) as (h1 & r & ->). simpl unpack2. cbv iota beta.
      split; [|done]. simpl default.
      destruct (truthy (Some u) && contains ":" u) eqn:Hu; [|done].
      apply andb_true_iff in Hu as [_ Hu].
      destruct (split_once_contains _ _ Hu) as (u1 & p & ->). done.
    + by rewrite (split_once_none _ _ Hc).
  - rewrite (split_once_none _ _ Hat).
    destruct (contains ":" remote_url) eqn:Hc.
    + destruct (split_once_contains _ _ Hc) as (h1 & r & ->). done.
    + by rewrite (split_once_none _ _ Hc).
Qed.

Example credentials_without_path :
  parse_remote_url "mirror:s3cret@example.org" = inl ValueError.
Proof. reflexivity. Qed.

(** ** The exclude file *)

Lemma lstrip_sep_relative (s : string) : startswith_sep (lstrip_sep s) = false.
Proof.
  induction s as [|c s IH]; simpl; [done|].
  destruct (Ascii.eqb c sep) eqn:E; [done|]. simpl. done.
Qed.

Lemma join_relative (a p : string) :
  startswith_sep p = false → join a p = join a "" +:+ p.
Proof.
  intros Hp. unfold join. rewrite Hp. simpl startswith_sep. cbv iota.
  destruct (String.eqb a "" || endswith_sep a).
  - by rewrite string_app_empty_r.
  - by rewrite string_app_assoc.
Qed.

(** X12.  Every pattern the exclude file hands to [glob] is the local root,
    a separator, and a line of the file that does not begin with [;] or
    [#], without its trailing white space and its leading separators: an
    absolute path in the file is read below the local root, never as
    absolute. *)
Theorem exclude_patterns_under_root (local_path : string) (lines : list string) :
  Forall (λ q, String.prefix (join local_path "") q = true
               ∧ ∃ line, line ∈ lines ∧ is_comment line = false
                         ∧ q = join local_path "" +:+ lstrip_sep (rstrip line))
         (glob_patterns local_path lines).
Proof.
  unfold glob_patterns, exclude_patterns. rewrite !Forall_map.
  apply Forall_forall. intros line Hl.
  apply list_elem_of_In, filter_In in Hl as [Hl Hc]. apply negb_true_iff in Hc.
  rewrite (join_relative _ _ (lstrip_sep_relative _)). split.
  - apply prefix_append.
  - exists line. split_and!; [by apply list_elem_of_In | done | done].
Qed.

Example exclude_file_read :
  glob_patterns "/home/u/data"
    ["/etc/passwd" +:+ String "010" ""; "# notes"; ";old"; "cache/*.tmp  ";
     "//tmp/"; " #kept"]
  = ["/home/u/data/etc/passwd"; "/home/u/data/cache/*.tmp";
     "/home/u/data/tmp/"; "/home/u/data/ #kept"].
Proof. reflexivity. Qed.

(** ** The home directory of the remote path *)

Lemma replace_char_absent (c : ascii) (new s : string) :
  contains c s = false → replace_char c new s = s.
Proof.
  induction s as [|x s IH]; simpl; [done|].
  intros [Hx Hs]%orb_false_iff. by rewrite Hx, (IH Hs).
Qed.

Lemma replace_char_app (c : ascii) (new a b : string) :
  replace_char c new (a +:+ b) = replace_char c new a +:+ replace_char c new b.
Proof.
  induction a as [|x a IH]; simpl; [done|].
  rewrite IH. destruct (Ascii.eqb x c); [|done]. by rewrite string_app_assoc.
Qed.

Lemma replace_char_clean (c : ascii) (new s : string) :
  contains c new = false → contains c (replace_char c new s) = false.
Proof.
  intros Hn. induction s as [|x s IH]; simpl; [done|].
  destruct (Ascii.eqb x c) eqn:E.
  - by rewrite contains_app, Hn, IH.
  - simpl. by rewrite E, IH.
Qed.

(** X13.  In a remote path that begins with a tilde every tilde is replaced
    by the home directory, not the first one only: a later tilde in a file
    name becomes the home directory too, and no tilde is left when the home
    directory has none. *)
Theorem every_tilde_expanded (home a b : string) :
  contains "~" a = false → contains "~" b = false →
  expand_home home ("~" +:+ a +:+ "~" +:+ b) = home +:+ a +:+ home +:+ b
  ∧ (contains "~" home = false →
     ∀ p, contains "~" (expand_home home ("~" +:+ p)) = false).
Proof.
  intros Ha Hb. split.
  - change ("~" +:+ a +:+ "~" +:+ b) with (String "~" (a +:+ String "~" b)).
    unfold expand_home. rewrite Ascii.eqb_refl.
    simpl replace_char. rewrite ?Ascii.eqb_refl.
    rewrite replace_char_app. simpl replace_char. rewrite ?Ascii.eqb_refl.
    by rewrite !replace_char_absent by done.
  - intros Hh p. change ("~" +:+ p) with (String "~" p).
    unfold expand_home. rewrite Ascii.eqb_refl. by apply replace_char_clean.
Qed.

Lemma every_tilde_expanded_witness :
  expand_home "/home/u" "~/backup/old~/x" = "/home/u/backup/old/home/u/x"
  ∧ contains "~" (expand_home "/home/u" "~/a~b~") = false.
Proof.
  destruct (every_tilde_expanded "/home/u" "/backup/old" "/x") as [H1 H2];
    [reflexivity..|].
  split; [exact H1 | apply (H2 eq_refl "/a~b~")].
Defined.
